(** * generarproyecto: slugs, placeholder substitution and project creation

    A shallow embedding of [generarproyecto.py] and the properties of its
    slug normalisation, of its placeholder substitution and of the way
    [crear_proyecto] touches the file system. *)

From Stdlib Require Import NArith List Bool Ascii String Lia.
From stdpp Require Import base option list gmap.

Local Open Scope N_scope.

(** ** Text

    A Python [str] is a sequence of Unicode code points. *)

Abbreviation codepoint := N (only parsing).
Abbreviation str := (list N) (only parsing).

(** The source is a UTF-8 file: [py] reads a literal of this file the way
    the interpreter reads a literal of the source, as code points. *)

Definition bytes_of_string (s : string) : list N :=
  List.map N_of_ascii (list_ascii_of_string s).

Fixpoint utf8_decode (bs : list N) : str :=
  match bs with
  | [] => []
  | b0 :: r0 =>
    if b0 <? 0x80 then b0 :: utf8_decode r0
    else if b0 <? 0xE0 then
      match r0 with
      | b1 :: r1 => ((b0 mod 0x20) * 0x40 + b1 mod 0x40) :: utf8_decode r1
      | _ => []
      end
    else if b0 <? 0xF0 then
      match r0 with
      | b1 :: b2 :: r2 =>
        ((b0 mod 0x10) * 0x1000 + (b1 mod 0x40) * 0x40 + b2 mod 0x40)
          :: utf8_decode r2
      | _ => []
      end
    else
      match r0 with
      | b1 :: b2 :: b3 :: r3 =>
        ((b0 mod 0x08) * 0x40000 + (b1 mod 0x40) * 0x1000
         + (b2 mod 0x40) * 0x40 + b3 mod 0x40) :: utf8_decode r3
      | _ => []
      end
  end.

Definition py (s : string) : str := utf8_decode (bytes_of_string s).

(** ** The interpreter's character database

    [str.lower], [str.strip] and the classes [\w] and [\s] of [re] read the
    Unicode tables of the interpreter, which are not part of the repository:
    they are parameters of the embedding. *)

Class UnicodeData := {
  (** [str.isalnum] of a one-character string *)
  uni_isalnum : codepoint -> bool;
  (** [str.isspace] of a one-character string *)
  uni_isspace : codepoint -> bool;
  (** the full lowercase mapping of a character, one to three characters *)
  uni_tolower : codepoint -> str;
  (** the properties Cased and Case_Ignorable, read around a capital sigma *)
  uni_cased : codepoint -> bool;
  uni_case_ignorable : codepoint -> bool
}.

(** *** The tables on ASCII and Latin-1 *)

Definition ascii_upper (c : codepoint) : bool := (65 <=? c) && (c <=? 90).
Definition ascii_lower (c : codepoint) : bool := (97 <=? c) && (c <=? 122).
Definition ascii_digit (c : codepoint) : bool := (48 <=? c) && (c <=? 57).
Definition ascii_alnum (c : codepoint) : bool :=
  ascii_upper c || ascii_lower c || ascii_digit c.
(** tab, newline, vertical tab, form feed, return, the four separators
    U+001C..U+001F and the space *)
Definition ascii_space (c : codepoint) : bool :=
  ((9 <=? c) && (c <=? 13)) || ((28 <=? c) && (c <=? 32)).

Definition latin1_alnum (c : codepoint) : bool :=
  if c <? 128 then ascii_alnum c
  else (c =? 0xAA) || (c =? 0xB2) || (c =? 0xB3) || (c =? 0xB5) || (c =? 0xB9)
       || (c =? 0xBA) || (c =? 0xBC) || (c =? 0xBD) || (c =? 0xBE)
       || ((0xC0 <=? c) && (c <=? 0xFF) && negb (c =? 0xD7) && negb (c =? 0xF7)).

Definition latin1_space (c : codepoint) : bool :=
  if c <? 128 then ascii_space c else (c =? 0x85) || (c =? 0xA0).

Definition latin1_tolower (c : codepoint) : str :=
  if ascii_upper c then [c + 32]
  else if (0xC0 <=? c) && (c <=? 0xDE) && negb (c =? 0xD7) then [c + 32]
  else [c].

Definition greek_sigma (c : codepoint) : bool :=
  (c =? 0x3A3) || (c =? 0x3C2) || (c =? 0x3C3).

(** A database that is the interpreter's on U+0000..U+00FF and on the three
    Greek sigmas, and has no letter, digit, space or case elsewhere. *)
Definition latin1_data : UnicodeData := {|
  uni_isalnum c := if c <? 256 then latin1_alnum c else greek_sigma c;
  uni_isspace c := (c <? 256) && latin1_space c;
  uni_tolower c :=
    if c <? 256 then latin1_tolower c
    else if c =? 0x3A3 then [0x3C3] else [c];
  uni_cased c :=
    if c <? 256 then
      ascii_upper c || ascii_lower c || (c =? 0xAA) || (c =? 0xB5)
      || (c =? 0xBA)
      || ((0xC0 <=? c) && negb (c =? 0xD7) && negb (c =? 0xF7))
    else greek_sigma c;
  uni_case_ignorable c :=
    (c =? 0x27) || (c =? 0x2E) || (c =? 0x3A) || (c =? 0x5E) || (c =? 0x60)
    || (c =? 0xA8) || (c =? 0xAD) || (c =? 0xAF) || (c =? 0xB4) || (c =? 0xB7)
    || (c =? 0xB8)
|}.

(** ** String methods *)

Fixpoint starts_with (prefix s : str) : bool :=
  match prefix, s with
  | [], _ => true
  | p :: ps, c :: cs => (c =? p) && starts_with ps cs
  | _ :: _, [] => false
  end.

(** [str.replace(old, new)]: the occurrences of [old] are found from left to
    right and do not overlap; [skip] counts the characters of a found
    occurrence that are still to be passed over. *)
Fixpoint replace_from (old new : str) (skip : nat) (s : str) : str :=
  match s with
  | [] => []
  | c :: rest =>
    match skip with
    | S k => replace_from old new k rest
    | O =>
      if starts_with old s
      then new ++ replace_from old new (length old - 1) rest
      else c :: replace_from old new 0 rest
    end
  end.

Definition str_replace (s old new : str) : str :=
  match old with
  | [] => new ++ flat_map (fun c => c :: new) s
  | _ :: _ => replace_from old new 0 s
  end.

(** ** The accent table *)

Definition reemplazos : list (str * str) := Eval vm_compute in
  [ (py "á", py "a"); (py "é", py "e"); (py "í", py "i"); (py "ó", py "o");
    (py "ú", py "u");
    (py "Á", py "A"); (py "É", py "E"); (py "Í", py "I"); (py "Ó", py "O");
    (py "Ú", py "U");
    (py "ñ", py "n"); (py "Ñ", py "N"); (py "ü", py "u"); (py "Ü", py "U") ].

Definition hyphen : codepoint := 45.
Definition underscore : codepoint := 95.

(** The accent table, character by character *)
Definition unaccent (c : codepoint) : codepoint :=
  match List.find (fun '(original, _) => starts_with original [c]) reemplazos with
  | Some (_, [reemplazo]) => reemplazo
  | _ => c
  end.

Definition is_accented (c : codepoint) : bool :=
  existsb (fun '(original, _) => starts_with original [c]) reemplazos.

(** What the loop over the table does to one character *)
Definition replace_char (x : codepoint) (entry : str * str) : codepoint :=
  match entry with
  | ([a], [b]) => if x =? a then b else x
  | _ => x
  end.

Definition char_pair (n : N) (entry : str * str) : bool :=
  match entry with
  | ([a], [_]) => a <? n
  | _ => false
  end.


Section Text.
Context {U : UnicodeData}.

(** [str.lower]: every character is replaced by its full lowercase mapping,
    but a capital sigma becomes a final sigma when a cased letter precedes it
    and none follows, case-ignorable characters skipped on both sides. *)
Definition first_not_ignorable (s : str) : option codepoint :=
  List.find (fun c => negb (uni_case_ignorable c)) s.

Definition lower_sigma (before_rev after : str) : codepoint :=
  match first_not_ignorable before_rev with
  | Some p =>
    if uni_cased p then
      match first_not_ignorable after with
      | Some q => if uni_cased q then 0x3C3 else 0x3C2
      | None => 0x3C2
      end
    else 0x3C3
  | None => 0x3C3
  end.

Fixpoint lower_from (before_rev s : str) : str :=
  match s with
  | [] => []
  | c :: rest =>
    (if c =? 0x3A3 then [lower_sigma before_rev rest] else uni_tolower c)
      ++ lower_from (c :: before_rev) rest
  end.

Definition str_lower (s : str) : str := lower_from [] s.

(** [str.lstrip], [str.rstrip] and [str.strip] over a set of characters *)
Fixpoint lstrip_by (p : codepoint -> bool) (s : str) : str :=
  match s with
  | [] => []
  | c :: rest => if p c then lstrip_by p rest else s
  end.

Definition rstrip_by (p : codepoint -> bool) (s : str) : str :=
  rev (lstrip_by p (rev s)).

Definition strip_by (p : codepoint -> bool) (s : str) : str :=
  rstrip_by p (lstrip_by p s).

(** [s.strip()] removes whitespace, [s.strip(chars)] the characters of
    [chars]. *)
Definition str_strip (s : str) : str := strip_by uni_isspace s.

Definition str_strip_chars (chars s : str) : str :=
  strip_by (fun c => existsb (N.eqb c) chars) s.

(** ** Regular expressions

    The three patterns of the program are a character class and two
    repeated character classes. *)

Inductive regex :=
| Class (p : codepoint -> bool)
| Plus (p : codepoint -> bool).

(** [\w] and [\s] on [str] patterns *)
Definition re_word (c : codepoint) : bool := uni_isalnum c || (c =? 95).
Definition re_space (c : codepoint) : bool := uni_isspace c.

(** Replacement of the maximal runs of [p]; [inrun] tells that the previous
    character belonged to a run already replaced. *)
Fixpoint sub_runs (p : codepoint -> bool) (repl : str) (inrun : bool)
    (s : str) : str :=
  match s with
  | [] => []
  | c :: rest =>
    if p c then (if inrun then [] else repl) ++ sub_runs p repl true rest
    else c :: sub_runs p repl false rest
  end.

(** [re.sub(pattern, repl, s)] for a [repl] without escapes *)
Definition re_sub (pattern : regex) (repl s : str) : str :=
  match pattern with
  | Class p => flat_map (fun c => if p c then repl else [c]) s
  | Plus p => sub_runs p repl false s
  end.

(** ** slugify *)

Definition slugify (texto : str) : str :=
  let texto :=
    fold_left (fun t '(original, reemplazo) => str_replace t original reemplazo)
      reemplazos texto in
  let texto := str_strip (str_lower texto) in
  let texto :=
    re_sub (Class (fun c => negb (re_word c || re_space c || (c =? hyphen))))
      [] texto in
  let texto :=
    re_sub (Plus (fun c => re_space c || (c =? underscore))) [hyphen] texto in
  let texto := re_sub (Plus (fun c => c =? hyphen)) [hyphen] texto in
  str_strip_chars [hyphen] texto.

(** ** The normal form of a slug

    After the lowercasing, [slugify] drops the characters that are neither
    word characters, spaces nor hyphens, and joins what stands between the
    separators (spaces, underscores, hyphens) with single hyphens. *)

Definition keep (c : codepoint) : bool :=
  re_word c || re_space c || (c =? hyphen).

Definition sep (c : codepoint) : bool :=
  re_space c || (c =? underscore) || (c =? hyphen).

(** [pending] tells that a separator was read since the last word. *)
Fixpoint join_words (pending : bool) (s : str) : str :=
  match s with
  | [] => []
  | c :: rest =>
    if sep c then join_words true rest
    else (if pending then [hyphen; c] else [c]) ++ join_words false rest
  end.

Fixpoint ends_pending (pending : bool) (s : str) : bool :=
  match s with
  | [] => pending
  | c :: rest => ends_pending (sep c) rest
  end.

Definition words_of (x : str) : str :=
  join_words false (lstrip_by sep (List.filter keep x)).

(** The steps of [slugify] in the words of its description: unaccent,
    lowercase, drop what is neither word, space nor hyphen, collapse the runs
    of spaces and underscores, then those of hyphens, to one hyphen, strip
    the hyphens at both ends. *)
Fixpoint collapse_runs (p : codepoint -> bool) (s : str) : str :=
  match s with
  | [] => []
  | c :: rest =>
    if p c then
      match rest with
      | d :: _ =>
        if p d then collapse_runs p rest else hyphen :: collapse_runs p rest
      | [] => [hyphen]
      end
    else c :: collapse_runs p rest
  end.

Definition slugify_steps (texto : str) : str :=
  let texto := List.map unaccent texto in
  let texto := str_lower texto in
  let texto :=
    List.filter (fun c => re_word c || re_space c || (c =? hyphen)) texto in
  let texto := collapse_runs (fun c => re_space c || (c =? underscore)) texto in
  let texto := collapse_runs (fun c => c =? hyphen) texto in
  strip_by (fun c => c =? hyphen) texto.

(** What the interpreter's tables are assumed to satisfy, as Unicode does:
    they are the ASCII ones on ASCII, the accented letters of the table and
    the capital sigma are letters, no letter or digit is a space, the
    characters of a lowercase mapping are themselves lowercase and are
    accented letters of the table only when the mapped character is one, and
    lowercasing makes no word character out of another character. *)
Class UnicodeLaws : Prop := {
  ascii_alnum_exact : forall c, c < 128 -> uni_isalnum c = ascii_alnum c;
  ascii_space_exact : forall c, c < 128 -> uni_isspace c = ascii_space c;
  ascii_lower_exact :
    forall c, c < 128 -> uni_tolower c = [if ascii_upper c then c + 32 else c];
  accent_alnum : forall c, is_accented c = true -> uni_isalnum c = true;
  sigma_alnum : uni_isalnum 0x3A3 = true;
  alnum_not_space : forall c, uni_isalnum c = true -> uni_isspace c = false;
  lower_fixed :
    forall c, Forall (fun d => d <> 0x3A3 /\ uni_tolower d = [d]) (uni_tolower c);
  sigma_fixed : uni_tolower 0x3C2 = [0x3C2] /\ uni_tolower 0x3C3 = [0x3C3];
  lower_accent :
    forall c, Forall (fun d => is_accented d = true -> is_accented c = true)
                (uni_tolower c);
  lower_word :
    forall c, re_word c = false ->
              Forall (fun d => re_word d = false) (uni_tolower c)
}.

End Text.

Arguments UnicodeLaws U : clear implicits.

(** ** The shape of a slug *)

(** lowercase ASCII letters, digits and the hyphen *)
Definition slug_char (c : codepoint) : bool :=
  ascii_lower c || ascii_digit c || (c =? hyphen).

(** no two hyphens are adjacent *)
Fixpoint hyphens_apart (s : str) : bool :=
  match s with
  | c :: (d :: _) as rest =>
    negb ((c =? hyphen) && (d =? hyphen)) && hyphens_apart rest
  | _ => true
  end.


(** ** Placeholders *)

Definition open_brace : codepoint := 123.
Definition close_brace : codepoint := 125.

(** The f-string that wraps a key: two opening braces, the key, two closing
    braces *)
Definition wrap (clave : str) : str :=
  [open_brace; open_brace] ++ clave ++ [close_brace; close_brace].

(** [variables] is a dict: its items come in insertion order. *)
Definition sustituir_placeholders (contenido : str)
    (variables : list (str * str)) : str :=
  fold_left (fun contenido '(clave, valor) =>
               str_replace contenido (wrap clave) valor)
    variables contenido.

(** [old in s] *)
Fixpoint contains (old s : str) : bool :=
  starts_with old s ||
  match s with
  | [] => false
  | _ :: rest => contains old rest
  end.

(** A name without braces *)
Definition brace_free (name : str) : bool :=
  forallb (fun c => negb ((c =? open_brace) || (c =? close_brace))) name.

(** ** The file system

    A tree of directories and files of a POSIX system; a path is the list
    of its components from the root. Links, permissions and the limits on
    the length of a name are left out. A file holds the text that its bytes
    are in UTF-8; a byte that is no part of valid UTF-8 stands in it as a
    lone surrogate, the way [surrogateescape] writes it: a text with a
    surrogate stands for bytes that cannot be read as text, and is itself a
    text that cannot be written. *)

Abbreviation path := (list (list N)) (only parsing).

#[warnings="-register-all"] Inductive node :=
| File (contenido : str)
| Dir (entries : gmap (list N) node).

Fixpoint node_lookup (n : node) (p : path) : option node :=
  match p with
  | [] => Some n
  | c :: rest =>
    match n with
    | Dir m =>
      match m !! c with
      | Some child => node_lookup child rest
      | None => None
      end
    | File _ => None
    end
  end.

(** [node_insert n p new] puts [new] at [p]; the parent of [p] must be a
    directory. *)
Fixpoint node_insert (n : node) (p : path) (new : node) : option node :=
  match p with
  | [] => Some new
  | c :: rest =>
    match n with
    | Dir m =>
      match rest with
      | [] => Some (Dir (<[c := new]> m))
      | _ :: _ =>
        match m !! c with
        | Some child =>
          match node_insert child rest new with
          | Some child' => Some (Dir (<[c := child']> m))
          | None => None
          end
        | None => None
        end
      end
    | File _ => None
    end
  end.

(** The directories of [p] that are missing are created, as
    [mkdir(parents=True)] does; no file may stand in the way. *)
Fixpoint make_dirs (n : node) (p : path) : option node :=
  match p with
  | [] => Some n
  | c :: rest =>
    match n with
    | Dir m =>
      match make_dirs (default (Dir ∅) (m !! c)) rest with
      | Some child' => Some (Dir (<[c := child']> m))
      | None => None
      end
    | File _ => None
    end
  end.

Inductive exn :=
| FileExistsError
| FileNotFoundError
| NotADirectoryError
| IsADirectoryError
| KeyError
| UnicodeEncodeError
| UnicodeDecodeError.

(** The error of reaching a path that does not resolve *)
Fixpoint access_error (n : node) (p : path) : exn :=
  match p with
  | [] => FileNotFoundError
  | c :: rest =>
    match n with
    | File _ => NotADirectoryError
    | Dir m =>
      match m !! c with
      | Some child => access_error child rest
      | None => FileNotFoundError
      end
    end
  end.

Definition exists_in (n : node) (p : path) : bool :=
  match node_lookup n p with
  | Some _ => true
  | None => false
  end.

(** What stands at a path: nothing, a file with its text, or a directory *)
Inductive kind :=
| Absent
| IsFile (contenido : str)
| IsDir.

Definition kind_at (n : node) (p : path) : kind :=
  match node_lookup n p with
  | None => Absent
  | Some (File contenido) => IsFile contenido
  | Some (Dir _) => IsDir
  end.

(** [base / nombre] for a name that is empty or one component: the names of
    the program are literals without slash and slugs, which hold neither
    slash nor dot *)
Definition path_join (base : path) (nombre : str) : path :=
  match nombre with
  | [] => base
  | _ :: _ => base ++ [nombre]
  end.

Infix "</>" := path_join (at level 40, left associativity).

Definition slash : codepoint := 47.

(** [str(p)] *)
Definition str_of_path (p : path) : str :=
  match p with
  | [] => [slash]
  | _ :: _ => flat_map (fun c => slash :: c) p
  end.

(** ** The state of a run and its effects *)

Record datetime := { year : N; month : N; day : N }.

Record world := {
  fs : node;
  stdout : list (list N);
  clock : datetime
}.

(** A call returns, leaves through [sys.exit] or raises. *)
Inductive outcome (A : Type) :=
| Ret (a : A)
| Exit (status : Z)
| Raise (e : exn).
Arguments Ret {A} a.
Arguments Exit {A} status.
Arguments Raise {A} e.

Definition M (A : Type) : Type := world -> outcome A * world.

Definition ret {A} (a : A) : M A := fun w => (Ret a, w).

Definition bind {A B} (m : M A) (k : A -> M B) : M B :=
  fun w =>
    match m w with
    | (Ret a, w') => k a w'
    | (Exit status, w') => (Exit status, w')
    | (Raise e, w') => (Raise e, w')
    end.

Notation "x <- m ;; k" := (bind m (fun x => k))
  (at level 100, m at next level, right associativity).
Notation "m ;; k" := (bind m (fun _ => k))
  (at level 100, right associativity).

Definition sys_exit {A} (status : Z) : M A := fun w => (Exit status, w).
Definition raise {A} (e : exn) : M A := fun w => (Raise e, w).

Definition with_fs (w : world) (n : node) : world :=
  {| fs := n; stdout := stdout w; clock := clock w |}.

(** [print(line)] *)
Definition print (line : str) : M unit :=
  fun w => (Ret tt, {| fs := fs w; stdout := stdout w ++ [line];
                       clock := clock w |}).

(** [datetime.now()] *)
Definition datetime_now : M datetime := fun w => (Ret (clock w), w).

(** [p.exists()] *)
Definition path_exists (p : path) : M bool :=
  fun w => (Ret (exists_in (fs w) p), w).

(** [p.mkdir(parents=...)] *)
Definition path_mkdir (parents : bool) (p : path) : M unit :=
  fun w =>
    if exists_in (fs w) p then (Raise FileExistsError, w)
    else if parents then
      match make_dirs (fs w) p with
      | Some n => (Ret tt, with_fs w n)
      | None => (Raise NotADirectoryError, w)
      end
    else
      match node_insert (fs w) p (Dir ∅) with
      | Some n => (Ret tt, with_fs w n)
      | None => (Raise (access_error (fs w) p), w)
      end.

(** The code points U+D800..U+DFFF, which UTF-8 does not encode *)
Definition surrogate (c : codepoint) : bool := (0xD800 <=? c) && (c <=? 0xDFFF).

(** A text that UTF-8 encodes, and the text of bytes that are valid UTF-8 *)
Definition utf8_text (s : str) : bool := forallb (fun c => negb (surrogate c)) s.

(** A file opened for reading as text has its line ends translated: a
    carriage return, alone or followed by a line feed, is read as a line
    feed. *)
Fixpoint universal_newlines (s : str) : str :=
  match s with
  | [] => []
  | c :: rest =>
    if c =? 13 then
      10 :: match rest with
            | d :: rest' =>
              if d =? 10 then universal_newlines rest'
              else universal_newlines rest
            | [] => []
            end
    else c :: universal_newlines rest
  end.

(** [p.read_text(encoding="utf-8")]: the file is opened, then decoded as a
    whole. *)
Definition read_text (p : path) : M (list N) :=
  fun w =>
    match node_lookup (fs w) p with
    | Some (File contenido) =>
      if utf8_text contenido then (Ret (universal_newlines contenido), w)
      else (Raise UnicodeDecodeError, w)
    | Some (Dir _) => (Raise IsADirectoryError, w)
    | None => (Raise (access_error (fs w) p), w)
    end.

(** [p.write_text(contenido, encoding="utf-8")]: the file is opened for
    writing, which creates it or empties it, and the text is then encoded as
    a whole and written; a line feed is written as it is. *)
Definition write_text (p : path) (contenido : str) : M unit :=
  fun w =>
    match node_lookup (fs w) p with
    | Some (Dir _) => (Raise IsADirectoryError, w)
    | _ =>
      if utf8_text contenido then
        match node_insert (fs w) p (File contenido) with
        | Some n => (Ret tt, with_fs w n)
        | None => (Raise (access_error (fs w) p), w)
        end
      else
        match node_insert (fs w) p (File []) with
        | Some n => (Raise UnicodeEncodeError, with_fs w n)
        | None => (Raise (access_error (fs w) p), w)
        end
    end.

(** [d[k]] *)
Fixpoint assoc {K V} `{EqDecision K} (k : K) (d : list (K * V)) : option V :=
  match d with
  | [] => None
  | (k', v) :: rest => if decide (k = k') then Some v else assoc k rest
  end.

Definition dict_get {K V} `{EqDecision K} (d : list (K * V)) (k : K) : M V :=
  match assoc k d with
  | Some v => ret v
  | None => raise KeyError
  end.

(** [[a for a in l if f(a)]] and [for a in l: f(a)] *)
Fixpoint filter_m {A} (f : A -> M bool) (l : list A) : M (list A) :=
  match l with
  | [] => ret []
  | a :: rest =>
    b <- f a ;;
    rest' <- filter_m f rest ;;
    ret (if b then a :: rest' else rest')
  end.

Fixpoint for_each {A} (l : list A) (f : A -> M unit) : M unit :=
  match l with
  | [] => ret tt
  | a :: rest => f a ;; for_each rest f
  end.

(** The decimal writing of a number, as an f-string formats an [int] *)
Fixpoint digits (u : Decimal.uint) : str :=
  match u with
  | Decimal.Nil => []
  | Decimal.D0 r => 48 :: digits r
  | Decimal.D1 r => 49 :: digits r
  | Decimal.D2 r => 50 :: digits r
  | Decimal.D3 r => 51 :: digits r
  | Decimal.D4 r => 52 :: digits r
  | Decimal.D5 r => 53 :: digits r
  | Decimal.D6 r => 54 :: digits r
  | Decimal.D7 r => 55 :: digits r
  | Decimal.D8 r => 56 :: digits r
  | Decimal.D9 r => 57 :: digits r
  end.

Definition str_of_N (n : N) : str := digits (N.to_uint n).

Definition nl : str := [10].

(** [sep.join(l)] *)
Fixpoint str_join (separator : str) (l : list (list N)) : str :=
  match l with
  | [] => []
  | [a] => a
  | a :: rest => a ++ separator ++ str_join separator rest
  end.

(** ** The program *)

Record tipo_info := {
  plantilla : list N;
  descripcion : list N;
  clase : list N
}.

Definition TIPOS : list (list N * tipo_info) :=
  [ (py "art", {| plantilla := py "articulo.tex";
                  descripcion := py "Artículo (article)";
                  clase := py "article" |});
    (py "ens", {| plantilla := py "ensayo.tex";
                  descripcion := py "Ensayo (report)";
                  clase := py "report" |});
    (py "pres", {| plantilla := py "presentacion.tex";
                   descripcion := py "Presentación (beamer)";
                   clase := py "beamer" |}) ].

Definition archivos_necesarios : list (list N) :=
  [py "articulo.tex"; py "ensayo.tex"; py "presentacion.tex";
   py "referencias.bib"; py "Makefile"].

Definition meses_es : list (N * list N) :=
  [ (1, py "enero"); (2, py "febrero"); (3, py "marzo"); (4, py "abril");
    (5, py "mayo"); (6, py "junio"); (7, py "julio"); (8, py "agosto");
    (9, py "septiembre"); (10, py "octubre"); (11, py "noviembre");
    (12, py "diciembre") ].

Definition bib_minima : str := py "% Referencias bibliográficas" ++ nl.

Definition gitignore_contenido : str :=
  flat_map (fun line => line ++ nl)
    [ py "# LaTeX auxiliares"; py "*.aux"; py "*.bbl"; py "*.bcf"; py "*.blg";
      py "*.log"; py "*.nav"; py "*.out"; py "*.run.xml"; py "*.snm";
      py "*.toc"; py "*.vrb"; py "*.fdb_latexmk"; py "*.fls";
      py "*.synctex.gz"; [];
      py "# PDF generado (descomenta si no quieres versionarlo)";
      py "# *.pdf" ].

Section Program.
Context {U : UnicodeData}.

(** The directory of the templates, read from the environment when the
    module is loaded *)
Variable TEMPLATES_DIR : path.

Definition copiar_plantilla (origen destino : path)
    (variables : list (list N * list N)) : M unit :=
  contenido <- read_text origen ;;
  write_text destino (sustituir_placeholders contenido variables).

Definition verificar_plantillas : M unit :=
  (existe <- path_exists TEMPLATES_DIR ;;
   if negb existe then
     print (py "Error: No se encontró el directorio de plantillas: "
            ++ str_of_path TEMPLATES_DIR) ;;
     print [] ;;
     print (py "Para instalar las plantillas, ejecuta:") ;;
     print (py "  mkdir -p " ++ str_of_path TEMPLATES_DIR) ;;
     print (py "  cp plantillas/* " ++ str_of_path TEMPLATES_DIR ++ py "/") ;;
     print [] ;;
     print (py "O define LATEX_TEMPLATES_DIR apuntando a tu directorio de plantillas.") ;;
     sys_exit 1
   else ret tt) ;;
  faltantes <-
    filter_m (fun a => existe <- path_exists (TEMPLATES_DIR </> a) ;;
                       ret (negb existe))
      archivos_necesarios ;;
  match faltantes with
  | _ :: _ =>
    print (py "Advertencia: Faltan plantillas en "
           ++ str_of_path TEMPLATES_DIR ++ py ":") ;;
    for_each faltantes (fun f => print (py "  - " ++ f)) ;;
    print []
  | [] => ret tt
  end.

(** The document written when the template of the type is missing *)
Definition tex_minimo (info_tipo : tipo_info) (nombre autor fecha : str) : str :=
  py "\documentclass{" ++ clase info_tipo ++ py "}" ++ nl
  ++ py "\title{" ++ nombre ++ py "}" ++ nl
  ++ py "\author{" ++ autor ++ py "}" ++ nl
  ++ py "\date{" ++ fecha ++ py "}" ++ nl
  ++ py "\begin{document}" ++ nl
  ++ py "\maketitle" ++ nl ++ nl
  ++ py "\end{document}" ++ nl.

(** [f"{hoy.day} de {meses_es[hoy.month]} de {hoy.year}"] *)
Definition formato_fecha (hoy : datetime) (mes : str) : str :=
  str_of_N (day hoy) ++ py " de " ++ mes ++ py " de " ++ str_of_N (year hoy).

Definition variables_de (nombre autor fecha slug : str)
    : list (list N * list N) :=
  [ (py "TITULO", nombre); (py "AUTOR", autor); (py "FECHA", fecha);
    (py "NOMBRE_ARCHIVO", slug) ].

Definition crear_proyecto (nombre tipo autor : str) (directorio_base : path)
    : M unit :=
  (match assoc tipo TIPOS with
   | None =>
     print (py "Error: Tipo '" ++ tipo ++ py "' no reconocido.") ;;
     print (py "Tipos disponibles: "
            ++ str_join (py ", ") (List.map fst TIPOS)) ;;
     sys_exit 1
   | Some _ => ret tt
   end) ;;
  verificar_plantillas ;;
  let slug := slugify nombre in
  info_tipo <- dict_get TIPOS tipo ;;
  hoy <- datetime_now ;;
  mes <- dict_get meses_es (month hoy) ;;
  let fecha := formato_fecha hoy mes in
  let variables := variables_de nombre autor fecha slug in
  let dir_proyecto := directorio_base </> slug in
  (existe <- path_exists dir_proyecto ;;
   if existe then
     print (py "Error: El directorio '" ++ str_of_path dir_proyecto
            ++ py "' ya existe.") ;;
     print (py "Elige otro nombre o elimina el directorio existente.") ;;
     sys_exit 1
   else ret tt) ;;
  path_mkdir true dir_proyecto ;;
  path_mkdir false (dir_proyecto </> py "figuras") ;;
  let plantilla_origen := TEMPLATES_DIR </> plantilla info_tipo in
  let archivo_tex := dir_proyecto </> (slug ++ py ".tex") in
  (existe <- path_exists plantilla_origen ;;
   if existe then copiar_plantilla plantilla_origen archivo_tex variables
   else
     print (py "Advertencia: No se encontró " ++ str_of_path plantilla_origen) ;;
     print (py "Creando archivo .tex mínimo...") ;;
     write_text archivo_tex (tex_minimo info_tipo nombre autor fecha)) ;;
  let bib_origen := TEMPLATES_DIR </> py "referencias.bib" in
  (existe <- path_exists bib_origen ;;
   if existe then
     copiar_plantilla bib_origen (dir_proyecto </> py "referencias.bib") variables
   else write_text (dir_proyecto </> py "referencias.bib") bib_minima) ;;
  let makefile_origen := TEMPLATES_DIR </> py "Makefile" in
  (existe <- path_exists makefile_origen ;;
   if existe then
     copiar_plantilla makefile_origen (dir_proyecto </> py "Makefile") variables
   else ret tt) ;;
  write_text (dir_proyecto </> py ".gitignore") gitignore_contenido ;;
  print [] ;;
  print (py "  ✓ Proyecto creado exitosamente") ;;
  print (py "  ─────────────────────────────────────") ;;
  print (py "  Tipo:      " ++ descripcion info_tipo) ;;
  print (py "  Título:    " ++ nombre) ;;
  print (py "  Autor:     " ++ autor) ;;
  print (py "  Directorio: " ++ str_of_path dir_proyecto ++ py "/") ;;
  print [] ;;
  print (py "  Archivos generados:") ;;
  print (py "    " ++ slug ++ py ".tex         ← Documento principal") ;;
  print (py "    referencias.bib    ← Bibliografía") ;;
  print (py "    Makefile           ← Compilación") ;;
  print (py "    figuras/           ← Directorio para imágenes") ;;
  print (py "    .gitignore         ← Exclusiones de Git") ;;
  print [] ;;
  print (py "  Para compilar:") ;;
  print (py "    cd " ++ str_of_path dir_proyecto) ;;
  print (py "    make               # Compilación completa") ;;
  print (py "    make quick         # Solo pdflatex (sin bibliografía)") ;;
  print (py "    make watch         # Compilación continua (requiere latexmk)") ;;
  print [].

(** What [verificar_plantillas] prints when the directory is missing, and
    when it is there *)
Definition guia : list (list N) :=
  [ py "Error: No se encontró el directorio de plantillas: "
    ++ str_of_path TEMPLATES_DIR;
    [];
    py "Para instalar las plantillas, ejecuta:";
    py "  mkdir -p " ++ str_of_path TEMPLATES_DIR;
    py "  cp plantillas/* " ++ str_of_path TEMPLATES_DIR ++ py "/";
    [];
    py "O define LATEX_TEMPLATES_DIR apuntando a tu directorio de plantillas." ].

Definition faltantes_en (n : node) : list (list N) :=
  List.filter (fun a => negb (exists_in n (TEMPLATES_DIR </> a)))
    archivos_necesarios.

Definition avisos (n : node) : list (list N) :=
  match faltantes_en n with
  | [] => []
  | _ :: _ =>
    [py "Advertencia: Faltan plantillas en " ++ str_of_path TEMPLATES_DIR
     ++ py ":"]
    ++ List.map (fun f => py "  - " ++ f) (faltantes_en n) ++ [[]]
  end.

Definition error_tipo (tipo : str) : list (list N) :=
  [ py "Error: Tipo '" ++ tipo ++ py "' no reconocido.";
    py "Tipos disponibles: " ++ str_join (py ", ") (List.map fst TIPOS) ].

Definition colision (dir_proyecto : path) : list (list N) :=
  [ py "Error: El directorio '" ++ str_of_path dir_proyecto ++ py "' ya existe.";
    py "Elige otro nombre o elimina el directorio existente." ].

End Program.

Definition printed (w : world) (lines : list (list N)) : world :=
  {| fs := fs w; stdout := stdout w ++ lines; clock := clock w |}.

(** ** A store and a working directory

    The store [/plantillas] holds the template of the articles and the build
    file, and no bibliography; [/home/ana] is an empty directory. *)

Definition plantillas_ejemplo : list (list N) := [py "plantillas"].

Definition raiz_ejemplo : node :=
  Dir (<[py "plantillas" :=
           Dir (<[py "articulo.tex" :=
                    File (py "\title{{{TITULO}}} \author{{{AUTOR}}} \date{{{FECHA}}}")]>
                (<[py "Makefile" := File (py "DOC = {{NOMBRE_ARCHIVO}}")]> ∅))]>
       (<[py "home" := Dir (<[py "ana" := Dir ∅]> ∅)]> ∅)).

Definition mundo_ejemplo : world :=
  {| fs := raiz_ejemplo; stdout := [];
     clock := {| year := 2026; month := 11; day := 4 |} |}.

(** ** The statements of [crear_proyecto] after its checks

    [escribir_proyecto] is the body of [crear_proyecto] from the creation of
    the directory of the project on, with the values that the statements
    before it have computed. *)

Section Writing.
Variable TEMPLATES_DIR : path.

Definition escribir_proyecto (info_tipo : tipo_info)
    (nombre autor fecha slug : str) (dir_proyecto : path) : M unit :=
  let variables := variables_de nombre autor fecha slug in
  path_mkdir true dir_proyecto ;;
  path_mkdir false (dir_proyecto </> py "figuras") ;;
  let plantilla_origen := TEMPLATES_DIR </> plantilla info_tipo in
  let archivo_tex := dir_proyecto </> (slug ++ py ".tex") in
  (existe <- path_exists plantilla_origen ;;
   if existe then copiar_plantilla plantilla_origen archivo_tex variables
   else
     print (py "Advertencia: No se encontró " ++ str_of_path plantilla_origen) ;;
     print (py "Creando archivo .tex mínimo...") ;;
     write_text archivo_tex (tex_minimo info_tipo nombre autor fecha)) ;;
  let bib_origen := TEMPLATES_DIR </> py "referencias.bib" in
  (existe <- path_exists bib_origen ;;
   if existe then
     copiar_plantilla bib_origen (dir_proyecto </> py "referencias.bib") variables
   else write_text (dir_proyecto </> py "referencias.bib") bib_minima) ;;
  let makefile_origen := TEMPLATES_DIR </> py "Makefile" in
  (existe <- path_exists makefile_origen ;;
   if existe then
     copiar_plantilla makefile_origen (dir_proyecto </> py "Makefile") variables
   else ret tt) ;;
  write_text (dir_proyecto </> py ".gitignore") gitignore_contenido ;;
  print [] ;;
  print (py "  ✓ Proyecto creado exitosamente") ;;
  print (py "  ─────────────────────────────────────") ;;
  print (py "  Tipo:      " ++ descripcion info_tipo) ;;
  print (py "  Título:    " ++ nombre) ;;
  print (py "  Autor:     " ++ autor) ;;
  print (py "  Directorio: " ++ str_of_path dir_proyecto ++ py "/") ;;
  print [] ;;
  print (py "  Archivos generados:") ;;
  print (py "    " ++ slug ++ py ".tex         ← Documento principal") ;;
  print (py "    referencias.bib    ← Bibliografía") ;;
  print (py "    Makefile           ← Compilación") ;;
  print (py "    figuras/           ← Directorio para imágenes") ;;
  print (py "    .gitignore         ← Exclusiones de Git") ;;
  print [] ;;
  print (py "  Para compilar:") ;;
  print (py "    cd " ++ str_of_path dir_proyecto) ;;
  print (py "    make               # Compilación completa") ;;
  print (py "    make quick         # Solo pdflatex (sin bibliografía)") ;;
  print (py "    make watch         # Compilación continua (requiere latexmk)") ;;
  print [].

(** The two lines printed when the template of the type is missing *)
Definition aviso_tex (info_tipo : tipo_info) : list (list N) :=
  [ py "Advertencia: No se encontró "
    ++ str_of_path (TEMPLATES_DIR </> plantilla info_tipo);
    py "Creando archivo .tex mínimo..." ].

End Writing.

(** The summary that ends a run *)
Definition resumen (info_tipo : tipo_info) (nombre autor slug : str)
    (dir_proyecto : path) : list (list N) :=
  [ [];
    py "  ✓ Proyecto creado exitosamente";
    py "  ─────────────────────────────────────";
    py "  Tipo:      " ++ descripcion info_tipo;
    py "  Título:    " ++ nombre;
    py "  Autor:     " ++ autor;
    py "  Directorio: " ++ str_of_path dir_proyecto ++ py "/";
    [];
    py "  Archivos generados:";
    py "    " ++ slug ++ py ".tex         ← Documento principal";
    py "    referencias.bib    ← Bibliografía";
    py "    Makefile           ← Compilación";
    py "    figuras/           ← Directorio para imágenes";
    py "    .gitignore         ← Exclusiones de Git";
    [];
    py "  Para compilar:";
    py "    cd " ++ str_of_path dir_proyecto;
    py "    make               # Compilación completa";
    py "    make quick         # Solo pdflatex (sin bibliografía)";
    py "    make watch         # Compilación continua (requiere latexmk)";
    [] ].

(** ** What a call may do to the world *)

(** Whatever the outcome of [m], the world it leaves is related by [R] to
    the world it found. *)
Definition keeps {A} (R : world -> world -> Prop) (m : M A) : Prop :=
  forall w, R w (snd (m w)).

(** [m] does not leave through [sys.exit]. *)
Definition never_exits {A} (m : M A) : Prop :=
  forall w status, fst (m w) <> Exit status.

(** The clock has not moved; what is not under [dir] and existed, or does
    not lie on the way to [dir], is as it was. *)
Definition solo_bajo (dir : path) (w w' : world) : Prop :=
  clock w' = clock w
  /\ forall q, ~ dir `prefix_of` q ->
               (kind_at (fs w) q = Absent -> ~ q `prefix_of` dir) ->
               kind_at (fs w') q = kind_at (fs w) q.

(** ** Templates cut at their placeholders *)

(** The value of a name, or its wrapped form when the mapping has no such
    key *)
Definition valor_de (variables : list (str * str)) (nombre : str) : str :=
  match assoc nombre variables with
  | Some valor => valor
  | None => wrap nombre
  end.

(** A template given by the texts that stand before its placeholders, each
    with the name of the placeholder after it, and by the text after the
    last placeholder *)
Definition armar (tramos : list (str * str)) (final : str) : str :=
  flat_map (fun '(texto, nombre) => texto ++ wrap nombre) tramos ++ final.

(** The same template with every placeholder replaced at once *)
Definition llenar (variables : list (str * str)) (tramos : list (str * str))
    (final : str) : str :=
  flat_map (fun '(texto, nombre) => texto ++ valor_de variables nombre) tramos
  ++ final.

(** No two opening braces stand side by side. *)
Definition sin_apertura (t : str) : bool :=
  negb (contains [open_brace; open_brace] t).

(** The names of what a run writes in the directory of the project *)
Definition artefactos (slug : str) : list (list N) :=
  [ py "figuras"; slug ++ py ".tex"; py "referencias.bib"; py "Makefile";
    py ".gitignore" ].
(** ** Facts on the string methods *)

(** A property checked on each of the first [n] code points *)
Lemma forall_below (n : nat) (P : codepoint -> bool) :
  forallb P (List.map N.of_nat (seq 0 n)) = true ->
  forall c, c < N.of_nat n -> P c = true.
Proof.
  intros H c Hc. rewrite forallb_forall in H. apply H.
  apply in_map_iff. exists (N.to_nat c). split; [apply N2Nat.id|].
  apply in_seq. lia.
Qed.

Section TextFacts.
Context {U : UnicodeData}.

Lemma starts_with_app (old rest : str) : starts_with old (old ++ rest) = true.
Proof.
  induction old as [|c old IH]; simpl; [reflexivity|].
  now rewrite N.eqb_refl, IH.
Qed.

Lemma replace_from_skip (old new l rest : str) :
  replace_from old new (length l) (l ++ rest) = replace_from old new 0 rest.
Proof.
  induction l as [|c l IH]; simpl; [|exact IH].
  destruct rest; reflexivity.
Qed.

(** Replacing one character by one character maps the string. *)
Lemma str_replace_char (a b : codepoint) (s : str) :
  str_replace s [a] [b] = List.map (fun c => if c =? a then b else c) s.
Proof.
  unfold str_replace.
  induction s as [|c s IH]; simpl; [reflexivity|].
  destruct (c =? a); simpl; now rewrite IH.
Qed.

Lemma replace_table (tbl : list (str * str)) (n : N) (s : str) :
  forallb (char_pair n) tbl = true ->
  fold_left (fun t '(original, reemplazo) => str_replace t original reemplazo)
    tbl s = List.map (fun c => fold_left replace_char tbl c) s.
Proof.
  revert s. induction tbl as [|[o r] tbl IH]; intros s H.
  - simpl. now rewrite List.map_id.
  - simpl in H. apply andb_prop in H as [He H].
    destruct o as [|a [|]]; try discriminate.
    destruct r as [|b [|]]; try discriminate.
    cbn [fold_left]. rewrite str_replace_char, (IH _ H), List.map_map.
    reflexivity.
Qed.

Lemma replace_char_far (tbl : list (str * str)) (n c : N) :
  forallb (char_pair n) tbl = true -> n <= c ->
  fold_left replace_char tbl c = c
  /\ List.find (fun '(original, _) => starts_with original [c]) tbl = None
  /\ existsb (fun '(original, _) => starts_with original [c]) tbl = false.
Proof.
  intros H Hc. induction tbl as [|[o r] tbl IH]; [now repeat split|].
  simpl in H. apply andb_prop in H as [He H].
  destruct o as [|a [|]]; try discriminate.
  destruct r as [|b [|]]; try discriminate.
  apply N.ltb_lt in He.
  assert ((c =? a) = false) as E by (apply N.eqb_neq; lia).
  cbn [fold_left replace_char List.find existsb starts_with]. rewrite E.
  cbn [andb orb]. now apply IH.
Qed.

Lemma reemplazos_chars : forallb (char_pair 256) reemplazos = true.
Proof. reflexivity. Qed.

Lemma unaccent_chain (c : codepoint) :
  fold_left replace_char reemplazos c = unaccent c.
Proof.
  destruct (N.lt_ge_cases c 256) as [Hc|Hc].
  - apply N.eqb_eq. revert c Hc.
    apply (forall_below 256
             (fun c => fold_left replace_char reemplazos c =? unaccent c)).
    vm_compute. reflexivity.
  - destruct (replace_char_far reemplazos 256 c reemplazos_chars Hc) as (E & F & _).
    unfold unaccent. now rewrite E, F.
Qed.

Lemma replace_accents (s : str) :
  fold_left (fun t '(original, reemplazo) => str_replace t original reemplazo)
    reemplazos s = List.map unaccent s.
Proof.
  rewrite (replace_table _ _ _ reemplazos_chars).
  apply List.map_ext. intros c. apply unaccent_chain.
Qed.

Lemma accented_below (c : codepoint) : is_accented c = true -> c < 256.
Proof.
  intros H. destruct (N.lt_ge_cases c 256) as [Hc|Hc]; [exact Hc|].
  destruct (replace_char_far reemplazos 256 c reemplazos_chars Hc) as (_ & _ & E).
  unfold is_accented in H. congruence.
Qed.

Lemma unaccent_id (c : codepoint) : is_accented c = false -> unaccent c = c.
Proof.
  destruct (N.lt_ge_cases c 256) as [Hc|Hc].
  - revert c Hc. intros c Hc H. apply N.eqb_eq. revert H.
    generalize (forall_below 256
      (fun c => is_accented c || (unaccent c =? c)) eq_refl c Hc).
    cbv beta. intros E H. now rewrite H in E.
  - intros _. unfold unaccent.
    destruct (replace_char_far reemplazos 256 c reemplazos_chars Hc) as (_ & E & _).
    now rewrite E.
Qed.

Lemma unaccent_plain (c : codepoint) : is_accented (unaccent c) = false.
Proof.
  destruct (N.lt_ge_cases c 256) as [Hc|Hc].
  - apply negb_true_iff. revert c Hc.
    apply (forall_below 256 (fun c => negb (is_accented (unaccent c)))).
    reflexivity.
  - destruct (replace_char_far reemplazos 256 c reemplazos_chars Hc) as (_ & E & F).
    unfold unaccent. rewrite E. exact F.
Qed.

Lemma unaccent_ascii (c : codepoint) :
  c < 128 \/ is_accented c = true -> unaccent c < 128.
Proof.
  intros H.
  assert (c < 256) as Hc by (destruct H as [H|H]; [lia|now apply accented_below]).
  assert (((c <? 128) || is_accented c) = true) as K.
  { destruct H as [H| ->]; [|apply orb_true_r].
    apply N.ltb_lt in H. now rewrite H. }
  apply N.ltb_lt. revert K.
  generalize (forall_below 256
    (fun c => negb ((c <? 128) || is_accented c) || (unaccent c <? 128))
    eq_refl c Hc).
  cbv beta. intros E K. now rewrite K in E.
Qed.

End TextFacts.

(** ** The normal form of a slug *)

Section SlugFacts.
Context {U : UnicodeData}.

Lemma drop_filter (s : str) :
  re_sub (Class (fun c => negb (re_word c || re_space c || (c =? hyphen))))
    [] s = List.filter keep s.
Proof.
  unfold re_sub, keep. induction s as [|c s IH]; simpl; [reflexivity|].
  rewrite IH. now destruct (re_word c || re_space c || (c =? hyphen)).
Qed.

Lemma runs_runs (s : str) (b1 b2 : bool) :
  (b1 = true -> b2 = true) ->
  sub_runs (fun c => c =? hyphen) [hyphen] b2
    (sub_runs (fun c => re_space c || (c =? underscore)) [hyphen] b1 s)
  = sub_runs sep [hyphen] b2 s.
Proof.
  revert b1 b2. induction s as [|c s IH]; intros b1 b2 H; [reflexivity|].
  cbn [sub_runs]. unfold sep at 1.
  destruct (re_space c || (c =? underscore)) eqn:E; cbn [orb].
  - destruct b1.
    + rewrite (H eq_refl). cbn [app]. now apply IH.
    + cbn [app sub_runs]. rewrite N.eqb_refl, (IH true true); auto.
  - cbn [sub_runs]. destruct (c =? hyphen).
    + rewrite (IH false true); [reflexivity|discriminate].
    + now rewrite (IH false false).
Qed.

Lemma eager_lazy (t : str) (p : bool) :
  (if p then [hyphen] else []) ++ sub_runs sep [hyphen] p t
  = join_words p t ++ (if ends_pending p t then [hyphen] else []).
Proof.
  revert p. induction t as [|c t IH]; intros p.
  - destruct p; reflexivity.
  - cbn [sub_runs join_words ends_pending]. destruct (sep c).
    + rewrite <- (IH true). now destruct p.
    + rewrite <- app_assoc, <- (IH false). now destruct p.
Qed.

Lemma sep_hyphen (c : codepoint) : sep c = false -> (c =? hyphen) = false.
Proof. unfold sep. intros H. apply orb_false_elim in H. tauto. Qed.

Lemma lstrip_runs (t : str) (b : bool) :
  lstrip_by (fun c => c =? hyphen) (sub_runs sep [hyphen] b t)
  = sub_runs sep [hyphen] false (lstrip_by sep t).
Proof.
  revert b. induction t as [|c t IH]; intros b; [reflexivity|].
  cbn [sub_runs lstrip_by]. destruct (sep c) eqn:E.
  - rewrite <- (IH true). now destruct b.
  - cbn [lstrip_by sub_runs]. now rewrite (sep_hyphen c E), E.
Qed.

Lemma lstrip_start (p : codepoint -> bool) (t : str) :
  lstrip_by p t = [] \/ exists c r, lstrip_by p t = c :: r /\ p c = false.
Proof.
  induction t as [|c t IH]; [now left|]. simpl.
  destruct (p c) eqn:E; [exact IH|]. right. now exists c, t.
Qed.

Lemma lstrip_ext (p q : codepoint -> bool) (t : str) :
  (forall c, p c = q c) -> lstrip_by p t = lstrip_by q t.
Proof.
  intros H. induction t as [|c t IH]; [reflexivity|].
  simpl. now rewrite H, IH.
Qed.

Lemma strip_ext (p q : codepoint -> bool) (t : str) :
  (forall c, p c = q c) -> strip_by p t = strip_by q t.
Proof.
  intros H. unfold strip_by, rstrip_by.
  now rewrite (lstrip_ext p q t H), (lstrip_ext p q _ H).
Qed.

Lemma lstrip_fixed (p : codepoint -> bool) (c : codepoint) (t : str) :
  p c = false -> lstrip_by p (c :: t) = c :: t.
Proof. intros H. simpl. now rewrite H. Qed.

Lemma rstrip_keep (p : codepoint -> bool) (y : str) (c : codepoint) :
  p c = false -> rstrip_by p (y ++ [c]) = y ++ [c].
Proof.
  intros H. unfold rstrip_by. rewrite rev_app_distr. cbn [rev app].
  rewrite (lstrip_fixed p c _ H). cbn [rev]. now rewrite rev_involutive.
Qed.

Lemma rstrip_drop (p : codepoint -> bool) (y : str) (c : codepoint) :
  p c = true -> rstrip_by p (y ++ [c]) = rstrip_by p y.
Proof.
  intros H. unfold rstrip_by. rewrite rev_app_distr. cbn [rev app lstrip_by].
  now rewrite H.
Qed.

Lemma join_words_end (t : str) (p : bool) :
  join_words p t = [] \/
  exists y c, join_words p t = y ++ [c] /\ sep c = false.
Proof.
  revert p. induction t as [|c t IH]; intros p; [now left|].
  cbn [join_words]. destruct (sep c) eqn:E; [apply IH|]. right.
  destruct (IH false) as [->|(y & d & -> & Hd)].
  - exists (if p then [hyphen] else []), c. split; [now destruct p|exact E].
  - exists ((if p then [hyphen; c] else [c]) ++ y), d.
    split; [now rewrite app_assoc|exact Hd].
Qed.

Lemma strip_runs (t : str) :
  strip_by (fun c => c =? hyphen) (sub_runs sep [hyphen] false t)
  = join_words false (lstrip_by sep t).
Proof.
  unfold strip_by. rewrite lstrip_runs.
  pose proof (eager_lazy (lstrip_by sep t) false) as E. cbn [app] in E.
  rewrite E.
  assert (rstrip_by (fun c => c =? hyphen) (join_words false (lstrip_by sep t))
          = join_words false (lstrip_by sep t)) as K.
  { destruct (join_words_end (lstrip_by sep t) false)
      as [->|(y & d & -> & Hd)]; [reflexivity|].
    apply rstrip_keep. now apply sep_hyphen. }
  destruct (ends_pending false (lstrip_by sep t)).
  - rewrite rstrip_drop; [exact K|reflexivity].
  - now rewrite app_nil_r.
Qed.

(** The whitespace stripped by [strip()] would be dropped anyway. *)

Lemma lstrip_split (p : codepoint -> bool) (x : str) :
  exists head, x = head ++ lstrip_by p x /\ forallb p head = true.
Proof.
  induction x as [|c x (head & E & H)]; [now exists []|].
  simpl. destruct (p c) eqn:Ec.
  - exists (c :: head). simpl. rewrite Ec, H. now rewrite <- E.
  - now exists [].
Qed.

Lemma rstrip_split (p : codepoint -> bool) (x : str) :
  exists tail, x = rstrip_by p x ++ tail /\ forallb p tail = true.
Proof.
  destruct (lstrip_split p (rev x)) as (head & E & H).
  exists (rev head). split.
  - unfold rstrip_by. rewrite <- rev_app_distr, <- E. now rewrite rev_involutive.
  - rewrite forallb_forall in *. intros c Hc. apply H. now apply in_rev.
Qed.

Lemma space_keep (c : codepoint) : re_space c = true -> keep c = true.
Proof. unfold keep. intros ->. now rewrite orb_true_r. Qed.

Lemma space_sep (c : codepoint) : re_space c = true -> sep c = true.
Proof. unfold sep. now intros ->. Qed.

Lemma words_head (head x : str) :
  forallb re_space head = true -> words_of (head ++ x) = words_of x.
Proof.
  unfold words_of. induction head as [|c head IH]; intros H; [reflexivity|].
  simpl in H. apply andb_prop in H as [Hc H].
  cbn [app List.filter]. rewrite (space_keep c Hc). cbn [lstrip_by].
  rewrite (space_sep c Hc). now apply IH.
Qed.

Lemma join_tail (a tail : str) (p : bool) :
  forallb sep tail = true -> join_words p (a ++ tail) = join_words p a.
Proof.
  intros H. revert p. induction a as [|c a IH]; intros p.
  - cbn [app]. revert p. induction tail as [|d tail IHt]; intros p; [reflexivity|].
    simpl in H. apply andb_prop in H as [Hd H].
    cbn [join_words]. rewrite Hd. now apply IHt.
  - cbn [app join_words]. now rewrite !IH.
Qed.

Lemma lstrip_all (p : codepoint -> bool) (t : str) :
  forallb p t = true -> lstrip_by p t = [].
Proof.
  induction t as [|c t IH]; [reflexivity|]. simpl.
  intros H. apply andb_prop in H as [-> H]. now apply IH.
Qed.

Lemma lstrip_tail (a tail : str) (p : bool) :
  forallb sep tail = true ->
  join_words p (lstrip_by sep (a ++ tail)) = join_words p (lstrip_by sep a).
Proof.
  intros H. induction a as [|c a IH].
  - cbn [app]. now rewrite (lstrip_all sep tail H).
  - cbn [app lstrip_by]. destruct (sep c); [exact IH|].
    now apply (join_tail (c :: a)).
Qed.

Lemma words_tail (x tail : str) :
  forallb re_space tail = true -> words_of (x ++ tail) = words_of x.
Proof.
  intros H. unfold words_of. rewrite List.filter_app. apply lstrip_tail.
  rewrite forallb_forall in *. intros c Hc.
  apply List.filter_In in Hc as [Hc _]. apply space_sep. now apply H.
Qed.

Lemma words_strip (x : str) : words_of (str_strip x) = words_of x.
Proof.
  unfold str_strip, strip_by.
  destruct (lstrip_split uni_isspace x) as (head & E & H).
  destruct (rstrip_split uni_isspace (lstrip_by uni_isspace x)) as (tail & F & G).
  rewrite E at 2. rewrite (words_head _ _ H).
  rewrite F at 2. now rewrite (words_tail _ _ G).
Qed.

(** [slugify] computes the normal form of the lowercased, unaccented text. *)
Lemma slugify_words (s : str) :
  slugify s = words_of (str_lower (List.map unaccent s)).
Proof.
  unfold slugify. rewrite replace_accents, drop_filter.
  unfold re_sub, str_strip_chars.
  rewrite (runs_runs _ false false (fun H => H)).
  rewrite (strip_ext _ (fun c => c =? hyphen)).
  - rewrite strip_runs. apply words_strip.
  - intros c. cbn [existsb]. apply orb_false_r.
Qed.

(** *** The characters and the hyphens of a normal form *)

Lemma sep_of_hyphen : sep hyphen = true.
Proof. unfold sep. now rewrite N.eqb_refl, orb_true_r. Qed.

Lemma join_words_in (t : str) (p : bool) (c : codepoint) :
  In c (join_words p t) -> c = hyphen \/ (sep c = false /\ In c t).
Proof.
  revert p. induction t as [|d t IH]; intros p H; [destruct H|].
  cbn [join_words] in H. destruct (sep d) eqn:E.
  - destruct (IH _ H) as [?|[? ?]]; [now left|].
    right. split; [assumption|now right].
  - apply in_app_or in H as [H|H].
    + assert (c = hyphen \/ c = d) as [->| ->].
      { destruct p; simpl in H; intuition. }
      * now left.
      * right. split; [exact E|now left].
    + destruct (IH _ H) as [?|[? ?]]; [now left|].
      right. split; [assumption|now right].
Qed.

Lemma lstrip_in (p : codepoint -> bool) (t : str) (c : codepoint) :
  In c (lstrip_by p t) -> In c t.
Proof.
  induction t as [|d t IH]; [trivial|]. simpl.
  destruct (p d); intros H; [right; auto|exact H].
Qed.

Lemma words_in (x : str) (c : codepoint) :
  In c (words_of x) ->
  c = hyphen \/ (keep c = true /\ sep c = false /\ In c x).
Proof.
  unfold words_of. intros H.
  apply join_words_in in H as [H|[Hs H]]; [now left|right].
  apply lstrip_in, List.filter_In in H as [Hx Hk]. auto.
Qed.

Lemma kept_word (c : codepoint) :
  keep c = true -> sep c = false ->
  uni_isalnum c = true /\ uni_isspace c = false /\ c <> underscore.
Proof.
  unfold keep, sep, re_word, re_space, underscore. intros Hk Hs.
  apply orb_false_elim in Hs as [Hs Hh].
  apply orb_false_elim in Hs as [Hsp Hu].
  rewrite Hsp, Hh, Hu, !orb_false_r in Hk.
  repeat split; [assumption..|]. now apply N.eqb_neq.
Qed.

Lemma apart_cons (c : codepoint) (l : str) :
  (c =? hyphen) = false -> hyphens_apart (c :: l) = hyphens_apart l.
Proof. intros H. destruct l; simpl; [reflexivity|]. now rewrite H. Qed.

Lemma apart_hyphen (d : codepoint) (l : str) :
  (d =? hyphen) = false ->
  hyphens_apart (hyphen :: d :: l) = hyphens_apart (d :: l).
Proof.
  intros H. change (hyphens_apart (hyphen :: d :: l))
    with (negb ((hyphen =? hyphen) && (d =? hyphen)) && hyphens_apart (d :: l)).
  now rewrite H, andb_false_r.
Qed.

Lemma join_words_apart (t : str) (p : bool) :
  hyphens_apart (join_words p t) = true.
Proof.
  revert p. induction t as [|c t IH]; intros p; [reflexivity|].
  cbn [join_words]. destruct (sep c) eqn:E; [apply IH|].
  pose proof (sep_hyphen c E) as Hc. destruct p; cbn [app].
  - now rewrite apart_hyphen, apart_cons.
  - now rewrite apart_cons.
Qed.

Lemma words_head_char (x : str) : head (words_of x) <> Some hyphen.
Proof.
  unfold words_of.
  destruct (lstrip_start sep (List.filter keep x)) as [->|(c & r & -> & Hc)];
    [discriminate|].
  cbn [join_words]. rewrite Hc. simpl. intros [= ->].
  now rewrite sep_of_hyphen in Hc.
Qed.

Lemma words_last_char (x : str) : last (words_of x) <> Some hyphen.
Proof.
  unfold words_of.
  destruct (join_words_end (lstrip_by sep (List.filter keep x)) false)
    as [->|(y & c & -> & Hc)]; [discriminate|].
  rewrite last_snoc. intros [= ->]. now rewrite sep_of_hyphen in Hc.
Qed.

Lemma words_nonempty (x : str) (c : codepoint) :
  In c x -> keep c = true -> sep c = false -> words_of x <> [].
Proof.
  intros Hx Hk Hs. unfold words_of.
  assert (In c (List.filter keep x)) as H by (now apply List.filter_In).
  induction (List.filter keep x) as [|d y IH]; [destruct H|].
  cbn [lstrip_by]. destruct (sep d) eqn:E.
  - apply IH. destruct H as [->|H]; [congruence|exact H].
  - cbn [join_words]. rewrite E. discriminate.
Qed.

(** *** A normal form is its own normal form *)

Lemma join_join (u : str) (p q : bool) :
  (q = true -> p = true) ->
  join_words q (join_words p u) = join_words p u.
Proof.
  revert p q. induction u as [|c u IH]; intros p q H; [reflexivity|].
  cbn [join_words]. destruct (sep c) eqn:E; [now apply IH|].
  destruct p; cbn [app join_words].
  - now rewrite sep_of_hyphen, E, (IH false false).
  - destruct q; [now discriminate H|]. now rewrite E, (IH false false).
Qed.

Lemma filter_all (f : codepoint -> bool) (l : str) :
  (forall c, In c l -> f c = true) -> List.filter f l = l.
Proof.
  induction l as [|c l IH]; intros H; [reflexivity|].
  simpl. rewrite (H c (or_introl eq_refl)). f_equal. apply IH.
  intros d Hd. apply H. now right.
Qed.

Lemma words_words (x : str) : words_of (words_of x) = words_of x.
Proof.
  assert (List.filter keep (words_of x) = words_of x) as K.
  { apply filter_all. intros c Hc.
    apply words_in in Hc as [->|(Hk & _)]; [|exact Hk].
    unfold keep. now rewrite N.eqb_refl, orb_true_r. }
  unfold words_of at 1. rewrite K. unfold words_of.
  destruct (lstrip_start sep (List.filter keep x)) as [->|(c & r & -> & Hc)];
    [reflexivity|].
  rewrite <- (join_join (c :: r) false false (fun H => H)) at 2.
  f_equal. cbn [join_words]. rewrite Hc. cbn [app]. now apply lstrip_fixed.
Qed.

(** *** Lowercasing *)

Lemma lower_in (x b : str) (d : codepoint) :
  In d (lower_from b x) ->
  exists c, In c x /\
    ((c = 0x3A3 /\ (d = 0x3C2 \/ d = 0x3C3))
     \/ (c <> 0x3A3 /\ In d (uni_tolower c))).
Proof.
  revert b. induction x as [|c x IH]; intros b H; [destruct H|].
  cbn [lower_from] in H. apply in_app_or in H as [H|H].
  - exists c. split; [now left|]. destruct (N.eqb_spec c 0x3A3) as [E|E].
    + left. split; [exact E|]. destruct H as [<-|[]]. unfold lower_sigma.
      repeat match goal with
      | |- context [match ?t with _ => _ end] => destruct t
      end; auto.
    + right. now split.
  - destruct (IH _ H) as (c' & Hc & K). exists c'. split; [now right|exact K].
Qed.

Lemma lower_same (x b : str) :
  (forall c, In c x -> c <> 0x3A3 /\ uni_tolower c = [c]) -> lower_from b x = x.
Proof.
  revert b. induction x as [|c x IH]; intros b H; [reflexivity|].
  cbn [lower_from]. destruct (H c (or_introl eq_refl)) as [Hn ->].
  apply N.eqb_neq in Hn. rewrite Hn. cbn [app]. f_equal.
  apply IH. intros d Hd. apply H. now right.
Qed.

End SlugFacts.

(** ** The tables of [latin1_data] satisfy the laws *)

Lemma decide_below (n : nat) (Q : codepoint -> Prop)
    `{!forall c, Decision (Q c)} :
  forallb (fun c => bool_decide (Q c)) (List.map N.of_nat (seq 0 n)) = true ->
  forall c, c < N.of_nat n -> Q c.
Proof.
  intros Hall c Hc. apply (bool_decide_eq_true_1 (Q c)).
  exact (forall_below n (fun c => bool_decide (Q c)) Hall c Hc).
Qed.

Lemma latin1_far (c : codepoint) :
  1024 <= c ->
  @uni_isalnum latin1_data c = false /\ @uni_isspace latin1_data c = false
  /\ @uni_tolower latin1_data c = [c].
Proof.
  intros H. cbn [uni_isalnum uni_isspace uni_tolower latin1_data].
  unfold greek_sigma.
  assert ((c <? 256) = false) as -> by (apply N.ltb_ge; lia).
  assert ((c =? 0x3A3) = false) as -> by (apply N.eqb_neq; lia).
  assert ((c =? 0x3C2) = false) as -> by (apply N.eqb_neq; lia).
  assert ((c =? 0x3C3) = false) as -> by (apply N.eqb_neq; lia).
  auto.
Qed.

Lemma accented_far (c : codepoint) : 1024 <= c -> is_accented c = false.
Proof.
  intros H. destruct (is_accented c) eqn:E; [|reflexivity].
  apply accented_below in E. lia.
Qed.

Lemma latin1_laws : UnicodeLaws latin1_data.
Proof.
  split.
  - apply (decide_below 128
      (fun c => @uni_isalnum latin1_data c = ascii_alnum c)).
    vm_compute. reflexivity.
  - apply (decide_below 128
      (fun c => @uni_isspace latin1_data c = ascii_space c)).
    vm_compute. reflexivity.
  - apply (decide_below 128
      (fun c => @uni_tolower latin1_data c
                = [if ascii_upper c then c + 32 else c])).
    vm_compute. reflexivity.
  - intros c H. pose proof (accented_below c H) as Hc. revert H. revert c Hc.
    apply (decide_below 256
      (fun c => is_accented c = true -> @uni_isalnum latin1_data c = true)).
    vm_compute. reflexivity.
  - reflexivity.
  - intros c. destruct (N.lt_ge_cases c 1024) as [Hc|Hc].
    + revert c Hc.
      apply (decide_below 1024
        (fun c => @uni_isalnum latin1_data c = true
                  -> @uni_isspace latin1_data c = false)).
      vm_compute. reflexivity.
    + intros _. apply (latin1_far c Hc).
  - intros c. destruct (N.lt_ge_cases c 1024) as [Hc|Hc].
    + revert c Hc.
      apply (decide_below 1024
        (fun c => Forall (fun d => d <> 0x3A3 /\ @uni_tolower latin1_data d = [d])
                    (@uni_tolower latin1_data c))).
      vm_compute. reflexivity.
    + destruct (latin1_far c Hc) as (_ & _ & E). rewrite E.
      constructor; [|constructor]. split; [lia|exact E].
  - split; reflexivity.
  - intros c. destruct (N.lt_ge_cases c 1024) as [Hc|Hc].
    + revert c Hc.
      apply (decide_below 1024
        (fun c => Forall (fun d => is_accented d = true -> is_accented c = true)
                    (@uni_tolower latin1_data c))).
      vm_compute. reflexivity.
    + destruct (latin1_far c Hc) as (_ & _ & E). rewrite E.
      constructor; [trivial|constructor].
  - intros c. destruct (N.lt_ge_cases c 1024) as [Hc|Hc].
    + revert c Hc.
      apply (decide_below 1024
        (fun c => @re_word latin1_data c = false ->
                  Forall (fun d => @re_word latin1_data d = false)
                    (@uni_tolower latin1_data c))).
      vm_compute. reflexivity.
    + intros H. destruct (latin1_far c Hc) as (_ & _ & E). rewrite E.
      constructor; [exact H|constructor].
Qed.

(** ** Slugs under the laws of the tables *)

Section SlugLaws.
Context {U : UnicodeData}.

Lemma lowered_fixed `{!UnicodeLaws U} (x b : str) (d : codepoint) :
  In d (lower_from b x) -> d <> 0x3A3 /\ uni_tolower d = [d].
Proof.
  intros H. apply lower_in in H as (c & _ & [[_ [-> | ->]]|[_ H]]).
  - split; [discriminate|apply sigma_fixed].
  - split; [discriminate|apply sigma_fixed].
  - pose proof (lower_fixed c) as K. rewrite List.Forall_forall in K. auto.
Qed.

Lemma lowered_plain `{!UnicodeLaws U} (x b : str) (d : codepoint) :
  (forall c, In c x -> is_accented c = false) ->
  In d (lower_from b x) -> is_accented d = false.
Proof.
  intros Hx H. apply lower_in in H as (c & Hc & [[_ [-> | ->]]|[_ H]]);
    [reflexivity..|].
  pose proof (lower_accent c) as K. rewrite List.Forall_forall in K.
  destruct (is_accented d) eqn:E; [|reflexivity].
  rewrite <- (Hx c Hc). symmetry. now apply (K d).
Qed.

Lemma lowered_ascii `{!UnicodeLaws U} (x b : str) (d : codepoint) :
  (forall c, In c x -> c < 128) ->
  In d (lower_from b x) -> d < 128 /\ ascii_upper d = false.
Proof.
  intros Hx H. apply lower_in in H as (c & Hc & [[-> _]|[_ H]]).
  - specialize (Hx _ Hc). lia.
  - specialize (Hx _ Hc). rewrite (ascii_lower_exact c Hx) in H.
    destruct H as [<-|[]].
    pose proof (forall_below 128
      (fun c => let d := if ascii_upper c then c + 32 else c in
                (d <? 128) && negb (ascii_upper d)) eq_refl c Hx) as K.
    cbv beta zeta in K. apply andb_prop in K as [K1 K2].
    split; [now apply N.ltb_lt|now apply negb_true_iff].
Qed.

Lemma lower_ascii_map `{!UnicodeLaws U} (x b : str) :
  (forall c, In c x -> c < 128) ->
  lower_from b x = List.map (fun c => if ascii_upper c then c + 32 else c) x.
Proof.
  revert b. induction x as [|c x IH]; intros b H; [reflexivity|].
  pose proof (H c (or_introl eq_refl)) as Hc.
  cbn [lower_from List.map].
  assert ((c =? 0x3A3) = false) as -> by (apply N.eqb_neq; lia).
  rewrite (ascii_lower_exact c Hc). cbn [app]. f_equal.
  apply IH. intros d Hd. apply H. now right.
Qed.

Lemma unaccented_ascii (s : str) :
  (forall c, In c s -> c < 128 \/ is_accented c = true) ->
  forall c, In c (List.map unaccent s) -> c < 128.
Proof.
  intros H c Hc. apply in_map_iff in Hc as (c0 & <- & Hc).
  apply unaccent_ascii. now apply H.
Qed.

Lemma ascii_word `{!UnicodeLaws U} (c : codepoint) :
  uni_isalnum c = true ->
  uni_isspace c = false /\ c <> underscore /\ c <> hyphen.
Proof.
  intros H. split; [now apply alnum_not_space|].
  split; intros ->; rewrite ascii_alnum_exact in H; try discriminate;
    unfold underscore, hyphen; lia.
Qed.

(** A title without word characters has the empty slug. *)
Lemma slugify_no_word `{!UnicodeLaws U} (s : str) :
  (forall c, In c s -> re_word c = false) -> slugify s = [].
Proof.
  intros H. rewrite slugify_words.
  assert (List.map unaccent s = s) as ->.
  { transitivity (List.map (fun c => c) s); [|apply List.map_id].
    apply List.map_ext_in. intros c Hc. apply unaccent_id.
    destruct (is_accented c) eqn:E; [|reflexivity].
    apply accent_alnum in E. specialize (H c Hc). unfold re_word in H.
    now rewrite E in H. }
  assert (forall d, In d (str_lower s) -> re_word d = false) as K.
  { intros d Hd. apply lower_in in Hd as (c & Hc & [[-> _]|[_ Hd]]).
    - specialize (H _ Hc). unfold re_word in H. now rewrite sigma_alnum in H.
    - pose proof (lower_word c (H c Hc)) as F.
      rewrite List.Forall_forall in F. auto. }
  unfold words_of. rewrite lstrip_all; [reflexivity|].
  apply forallb_forall. intros c Hc. apply List.filter_In in Hc as [Hc Hk].
  specialize (K c Hc). unfold keep in Hk. rewrite K in Hk. unfold sep.
  cbn [orb] in Hk. apply orb_prop in Hk as [-> | ->];
    [reflexivity|apply orb_true_r].
Qed.

End SlugLaws.

(** *** The slug of an ASCII or accented text does not depend on the tables *)

Lemma join_ext (U1 U2 : UnicodeData) (y : str) (p : bool) :
  (forall c, In c y -> @sep U1 c = @sep U2 c) ->
  @join_words U1 p y = @join_words U2 p y.
Proof.
  revert p. induction y as [|c y IH]; intros p H; [reflexivity|].
  cbn [join_words]. rewrite (H c (or_introl eq_refl)).
  destruct (@sep U2 c); [|f_equal]; apply IH; intros d Hd; apply H; now right.
Qed.

Lemma words_ext (U1 U2 : UnicodeData) (x : str) :
  (forall c, In c x -> @keep U1 c = @keep U2 c /\ @sep U1 c = @sep U2 c) ->
  @words_of U1 x = @words_of U2 x.
Proof.
  intros H. unfold words_of.
  rewrite (List.filter_ext_in (@keep U1) (@keep U2)) by (intros c Hc; now apply H).
  assert (forall c, In c (List.filter (@keep U2) x) -> @sep U1 c = @sep U2 c) as K.
  { intros c Hc. apply List.filter_In in Hc as [Hc _]. now apply H. }
  induction (List.filter (@keep U2) x) as [|c y IH]; [reflexivity|].
  cbn [lstrip_by]. rewrite (K c (or_introl eq_refl)). destruct (@sep U2 c).
  - apply IH. intros d Hd. apply K. now right.
  - now apply join_ext.
Qed.

Lemma slugify_agree (U1 U2 : UnicodeData)
    (L1 : UnicodeLaws U1) (L2 : UnicodeLaws U2) (s : str) :
  (forall c, In c s -> c < 128 \/ is_accented c = true) ->
  @slugify U1 s = @slugify U2 s.
Proof.
  intros H. rewrite !slugify_words. unfold str_lower.
  pose proof (unaccented_ascii s H) as Hx.
  rewrite !lower_ascii_map by assumption.
  apply words_ext. intros c Hc.
  assert (c < 128) as Hd.
  { apply (@lowered_ascii U1 L1 (List.map unaccent s) [] c Hx).
    now rewrite lower_ascii_map. }
  unfold keep, sep, re_word, re_space.
  now rewrite !ascii_alnum_exact, !ascii_space_exact.
Qed.

(** ** The properties of [slugify] *)

Lemma plain_text_check (s : str) :
  forallb (fun c => (c <? 128) || is_accented c) s = true ->
  forall c, In c s -> c < 128 \/ is_accented c = true.
Proof.
  intros H c Hc. rewrite forallb_forall in H.
  destruct (orb_prop _ _ (H c Hc)) as [K|K]; [left; now apply N.ltb_lt|now right].
Qed.

Lemma collapse_sub_runs (p : codepoint -> bool) (s : str) (b : bool) :
  (if b && match s with c :: _ => p c | [] => false end then [hyphen] else [])
    ++ sub_runs p [hyphen] b s
  = collapse_runs p s.
Proof.
  revert b. induction s as [|c s IH]; intros b.
  - now rewrite andb_false_r.
  - cbn [sub_runs collapse_runs]. destruct (p c) eqn:E.
    + rewrite andb_true_r. rewrite <- (IH true). cbn [andb].
      destruct s as [|d s]; [now destruct b|].
      now destruct b, (p d).
    + rewrite andb_false_r. cbn [app]. f_equal. apply (IH false).
Qed.

Lemma slugify_steps_words {U : UnicodeData} (s : str) :
  slugify_steps s = words_of (str_lower (List.map unaccent s)).
Proof.
  unfold slugify_steps.
  rewrite <- !(collapse_sub_runs _ _ false). cbn [andb app].
  rewrite (runs_runs _ false false (fun H => H)). apply strip_runs.
Qed.

(** C1, as amended. For every input the slug holds only hyphens and
    characters that the interpreter classes as alphanumeric and that come
    from the lowercased, unaccented text; no hyphen leads, none trails and no
    two are adjacent; the slug is empty only if that text holds no
    alphanumeric character. When the input holds only ASCII characters and
    accented letters of the table, the slug holds only lowercase ASCII
    letters, digits and hyphens. *)
Theorem slugify_shape (U : UnicodeData) (L : UnicodeLaws U) (s : str) :
  (forall c, In c (slugify s) ->
     c = hyphen \/
     (uni_isalnum c = true /\ c <> underscore
      /\ In c (str_lower (List.map unaccent s))))
  /\ head (slugify s) <> Some hyphen
  /\ last (slugify s) <> Some hyphen
  /\ hyphens_apart (slugify s) = true
  /\ (slugify s = [] ->
      forall c, In c (str_lower (List.map unaccent s)) -> uni_isalnum c = false)
  /\ ((forall c, In c s -> c < 128 \/ is_accented c = true) ->
      forall c, In c (slugify s) -> slug_char c = true).
Proof.
  rewrite slugify_words.
  assert (forall c, In c (words_of (str_lower (List.map unaccent s))) ->
     c = hyphen \/
     (uni_isalnum c = true /\ c <> underscore
      /\ In c (str_lower (List.map unaccent s)))) as Hin.
  { intros c Hc. apply words_in in Hc as [->|(Hk & Hs & Hc)]; [now left|].
    right. destruct (kept_word c Hk Hs) as (? & ? & ?). auto. }
  split; [exact Hin|].
  split; [apply words_head_char|].
  split; [apply words_last_char|].
  split; [apply join_words_apart|].
  split.
  - intros E c Hc. destruct (uni_isalnum c) eqn:Ha; [|reflexivity].
    exfalso. revert E. apply (words_nonempty _ c Hc).
    + unfold keep, re_word. now rewrite Ha.
    + destruct (ascii_word c Ha) as (Hs & Hu & Hh). unfold sep, re_space.
      rewrite Hs. apply N.eqb_neq in Hu, Hh. now rewrite Hu, Hh.
  - intros Hs c Hc. destruct (Hin c Hc) as [->|(Ha & _ & Hl)]; [reflexivity|].
    destruct (lowered_ascii _ _ c (unaccented_ascii s Hs) Hl) as [Hc128 Hup].
    rewrite (ascii_alnum_exact c Hc128) in Ha. unfold ascii_alnum in Ha.
    rewrite Hup in Ha. unfold slug_char. cbn [orb] in Ha. now rewrite Ha.
Qed.

Lemma slugify_shape_witness :
  let s := py "  Mi --- artículo!!  " in
  (forall c, In c (@slugify latin1_data s) ->
     c = hyphen \/
     (@uni_isalnum latin1_data c = true /\ c <> underscore
      /\ In c (@str_lower latin1_data (List.map unaccent s))))
  /\ head (@slugify latin1_data s) <> Some hyphen
  /\ last (@slugify latin1_data s) <> Some hyphen
  /\ hyphens_apart (@slugify latin1_data s) = true
  /\ (@slugify latin1_data s = [] ->
      forall c, In c (@str_lower latin1_data (List.map unaccent s)) ->
                @uni_isalnum latin1_data c = false)
  /\ ((forall c, In c s -> c < 128 \/ is_accented c = true) ->
      forall c, In c (@slugify latin1_data s) -> slug_char c = true).
Proof.
  exact (slugify_shape latin1_data latin1_laws (py "  Mi --- artículo!!  ")).
Defined.

(** The slug of "Façade" keeps the c with cedilla, which is a letter for the
    interpreter and is not in the table: it is not made of lowercase ASCII
    letters, digits and hyphens. *)
Lemma slugify_not_ascii :
  @slugify latin1_data (py "Façade") = py "façade"
  /\ ~ (forall c, In c (@slugify latin1_data (py "Façade")) -> slug_char c = true).
Proof.
  split; [vm_compute; reflexivity|].
  intros H. specialize (H 231). vm_compute in H.
  discriminate H. right. right. now left.
Qed.

(** C6. [slugify] replaces the accented characters of the table, lowercases,
    removes what is neither word character, space nor hyphen, collapses the
    runs of spaces and underscores and the runs of hyphens to single hyphens
    and strips the hyphens at both ends; "Ética en IA" gives "etica-en-ia"
    and "  Mi --- artículo!!  " gives "mi-articulo". *)
Theorem slugify_pipeline (U : UnicodeData) (L : UnicodeLaws U) :
  (forall s, slugify s = slugify_steps s)
  /\ List.map unaccent (py "áéíóúÁÉÍÓÚñÑüÜ") = py "aeiouAEIOUnNuU"
  /\ slugify (py "Ética en IA") = py "etica-en-ia"
  /\ slugify (py "  Mi --- artículo!!  ") = py "mi-articulo".
Proof.
  split; [intros s; now rewrite slugify_words, slugify_steps_words|].
  split; [vm_compute; reflexivity|].
  split.
  - rewrite (slugify_agree U latin1_data L latin1_laws).
    + vm_compute. reflexivity.
    + apply plain_text_check. vm_compute. reflexivity.
  - rewrite (slugify_agree U latin1_data L latin1_laws).
    + vm_compute. reflexivity.
    + apply plain_text_check. vm_compute. reflexivity.
Qed.

Lemma slugify_pipeline_witness :
  (forall s, @slugify latin1_data s = @slugify_steps latin1_data s)
  /\ List.map unaccent (py "áéíóúÁÉÍÓÚñÑüÜ") = py "aeiouAEIOUnNuU"
  /\ @slugify latin1_data (py "Ética en IA") = py "etica-en-ia"
  /\ @slugify latin1_data (py "  Mi --- artículo!!  ") = py "mi-articulo".
Proof. exact (slugify_pipeline latin1_data latin1_laws). Defined.

(** C9. [slugify] is idempotent: for every string, the slug of the slug is
    the slug. *)
Theorem slugify_idempotent (U : UnicodeData) (L : UnicodeLaws U) (s : str) :
  slugify (slugify s) = slugify s.
Proof.
  assert (forall c, In c (slugify s) ->
            c = hyphen \/ In c (str_lower (List.map unaccent s))) as H.
  { rewrite slugify_words. intros c Hc. apply words_in in Hc. tauto. }
  rewrite (slugify_words (slugify s)).
  assert (List.map unaccent (slugify s) = slugify s) as ->.
  { transitivity (List.map (fun c => c) (slugify s)); [|apply List.map_id].
    apply List.map_ext_in. intros c Hc. apply unaccent_id.
    destruct (H c Hc) as [->|Hd]; [reflexivity|].
    apply (lowered_plain (List.map unaccent s) [] c); [|exact Hd].
    intros d Hd'. apply in_map_iff in Hd' as (c0 & <- & _).
    apply unaccent_plain. }
  assert (str_lower (slugify s) = slugify s) as ->.
  { apply lower_same. intros c Hc. destruct (H c Hc) as [->|Hd].
    - split; [discriminate|].
      rewrite (ascii_lower_exact hyphen) by (unfold hyphen; lia). reflexivity.
    - exact (lowered_fixed (List.map unaccent s) [] c Hd). }
  rewrite slugify_words. apply words_words.
Qed.

Lemma slugify_idempotent_witness :
  @slugify latin1_data (@slugify latin1_data (py " El Niño -- ÁRBOL_Σ! "))
  = @slugify latin1_data (py " El Niño -- ÁRBOL_Σ! ").
Proof.
  exact (slugify_idempotent latin1_data latin1_laws (py " El Niño -- ÁRBOL_Σ! ")).
Defined.

(** ** Substitution of placeholders *)

Lemma starts_with_length (old s : str) :
  starts_with old s = true -> (length old <= length s)%nat.
Proof.
  revert s. induction old as [|a old IH]; intros [|c s] H; simpl in *;
    try lia; try discriminate.
  apply andb_prop in H as [_ H]. apply IH in H. lia.
Qed.

Lemma starts_with_more (old p rest : str) :
  starts_with old p = true -> starts_with old (p ++ rest) = true.
Proof.
  revert p. induction old as [|a old IH]; intros [|c p] H; simpl in *;
    try reflexivity; try discriminate.
  apply andb_prop in H as [-> H]. now apply IH.
Qed.

Lemma starts_with_less (old p rest : str) :
  starts_with old (p ++ rest) = true -> (length old <= length p)%nat ->
  starts_with old p = true.
Proof.
  revert p. induction old as [|a old IH]; intros [|c p] H Hl; simpl in *;
    try reflexivity; try lia.
  apply andb_prop in H as [-> H]. apply IH; [exact H|lia].
Qed.

(** A string without opening brace does not match across one. *)
Lemma starts_with_stop (old p rest : str) :
  (forall c, In c old -> c <> open_brace) ->
  starts_with old (p ++ open_brace :: rest) = true ->
  (length old <= length p)%nat.
Proof.
  revert p. induction old as [|a old IH]; intros p Ho H; [simpl; lia|].
  destruct p as [|c p]; cbn [app starts_with] in H; apply andb_prop in H as [E H].
  - apply N.eqb_eq in E. symmetry in E. now apply Ho in E; [|left].
  - simpl. apply le_n_S. apply IH; [|exact H].
    intros d Hd. apply Ho. now right.
Qed.

Lemma no_open_tail (clave : str) :
  (forall c, In c clave -> c <> open_brace) ->
  forall c, In c (clave ++ [close_brace; close_brace]) -> c <> open_brace.
Proof.
  intros H c Hc. apply in_app_or in Hc as [Hc|Hc]; [now apply H|].
  destruct Hc as [<-|[<-|[]]]; discriminate.
Qed.

(** An occurrence of a wrapped key that begins before two opening braces
    ends before them. *)
Lemma wrap_stops (clave p rest : str) :
  (forall c, In c clave -> c <> open_brace) ->
  p <> [] ->
  starts_with (wrap clave) (p ++ open_brace :: open_brace :: rest) = true ->
  (length (wrap clave) <= length p)%nat.
Proof.
  intros Hk Hp H. pose proof (no_open_tail clave Hk) as Ht.
  unfold wrap in *. cbn [app] in *.
  set (tail := clave ++ [close_brace; close_brace]) in *.
  assert (exists a tail', tail = a :: tail') as (a & tail' & Et).
  { subst tail. destruct clave; simpl; eauto. }
  clearbody tail.
  destruct p as [|c1 [|c2 p]]; [congruence| |].
  - exfalso. cbn [app starts_with] in H. rewrite Et in H.
    apply andb_prop in H as [_ H]. apply andb_prop in H as [_ H].
    apply andb_prop in H as [E _]. apply N.eqb_eq in E. symmetry in E.
    apply (Ht a); [rewrite Et; now left|exact E].
  - cbn [app starts_with] in H. apply andb_prop in H as [_ H]. apply andb_prop in H as [_ H].
    apply starts_with_stop in H; [cbn [length]; lia|exact Ht].
Qed.

(** The replacement before two opening braces does not depend on what
    follows them. *)
Lemma replace_before (clave new p rest : str) (skip : nat) :
  (forall c, In c clave -> c <> open_brace) ->
  (skip <= length p)%nat ->
  replace_from (wrap clave) new skip (p ++ open_brace :: open_brace :: rest)
  = replace_from (wrap clave) new skip p
    ++ replace_from (wrap clave) new 0 (open_brace :: open_brace :: rest).
Proof.
  intros Hk. revert skip. induction p as [|c p IH]; intros skip Hs.
  - cbn [length] in Hs. now replace skip with 0%nat by lia.
  - destruct skip as [|j].
    + cbn [app replace_from].
      destruct (starts_with (wrap clave)
                  (c :: p ++ open_brace :: open_brace :: rest)) eqn:E.
      * pose proof (wrap_stops clave (c :: p) rest Hk ltac:(discriminate) E) as Hl.
        rewrite (starts_with_less _ (c :: p) _ E Hl).
        rewrite <- app_assoc. f_equal. apply IH. cbn [length] in Hl. lia.
      * destruct (starts_with (wrap clave) (c :: p)) eqn:F.
        { apply (starts_with_more _ _ (open_brace :: open_brace :: rest)) in F.
          cbn [app] in F. congruence. }
        cbn [app]. f_equal. apply IH. lia.
    + cbn [app replace_from]. apply IH. cbn [length] in Hs. lia.
Qed.

(** Characters other than the opening brace pass through. *)
Lemma replace_plain (clave new t rest : str) :
  (forall c, In c t -> c <> open_brace) ->
  replace_from (wrap clave) new 0 (t ++ rest)
  = t ++ replace_from (wrap clave) new 0 rest.
Proof.
  intros H. induction t as [|c t IH]; [reflexivity|].
  cbn [app replace_from].
  assert (starts_with (wrap clave) (c :: t ++ rest) = false) as ->.
  { unfold wrap. cbn [app starts_with]. apply andb_false_intro1. apply N.eqb_neq.
    apply H. now left. }
  f_equal. apply IH. intros d Hd. apply H. now right.
Qed.

Lemma brace_free_spec (name : str) :
  brace_free name = true ->
  forall c, In c name -> c <> open_brace /\ c <> close_brace.
Proof.
  unfold brace_free. intros H c Hc. rewrite forallb_forall in H.
  apply H in Hc. apply negb_true_iff, orb_false_elim in Hc as [H1 H2].
  split; now apply N.eqb_neq.
Qed.

(** Two names without braces that match up to the closing braces are the
    same name. *)
Lemma same_name (k u rest : str) :
  brace_free k = true -> brace_free u = true ->
  starts_with (k ++ [close_brace; close_brace])
    (u ++ close_brace :: close_brace :: rest) = true ->
  k = u.
Proof.
  revert u. induction k as [|a k IH]; intros [|c u] Hk Hu H.
  - reflexivity.
  - cbn [app starts_with] in H. apply andb_prop in H as [E _]. apply N.eqb_eq in E.
    destruct (brace_free_spec _ Hu c (or_introl eq_refl)) as [_ K]. congruence.
  - cbn [app starts_with] in H. apply andb_prop in H as [E _]. apply N.eqb_eq in E.
    destruct (brace_free_spec _ Hk a (or_introl eq_refl)) as [_ K].
    symmetry in E. congruence.
  - cbn [app starts_with] in H; cbn [brace_free forallb] in Hk, Hu. apply andb_prop in H as [E H]. apply N.eqb_eq in E.
    apply andb_prop in Hk as [_ Hk]. apply andb_prop in Hu as [_ Hu].
    subst c. f_equal. now apply IH.
Qed.

(** The wrapped form of another name is not replaced. *)
Lemma replace_other (k u new rest : str) :
  brace_free k = true -> brace_free u = true -> k <> u ->
  replace_from (wrap k) new 0 (wrap u ++ rest)
  = wrap u ++ replace_from (wrap k) new 0 rest.
Proof.
  intros Hk Hu Hne.
  assert (forall c, In c (u ++ [close_brace; close_brace]) -> c <> open_brace) as Ht.
  { apply no_open_tail. intros c Hc. now apply (brace_free_spec u Hu). }
  remember (wrap k) as old eqn:Eo.
  unfold wrap. rewrite <- !app_assoc. cbn [app replace_from].
  assert (starts_with old
            (open_brace :: open_brace :: u ++ close_brace :: close_brace :: rest)
          = false) as ->.
  { destruct (starts_with _ _) eqn:E; [exfalso|reflexivity].
    subst old. unfold wrap in E. cbn [app starts_with] in E.
    rewrite !N.eqb_refl in E. cbn [andb] in E. now apply same_name in E. }
  assert (starts_with old
            (open_brace :: u ++ close_brace :: close_brace :: rest) = false) as ->.
  { subst old. unfold wrap. cbn [app starts_with]. rewrite N.eqb_refl.
    cbn [andb]. destruct u as [|c u]; cbn [app]; apply andb_false_intro1;
      apply N.eqb_neq; [discriminate|]. apply Ht. now left. }
  do 2 f_equal. subst old.
  change (u ++ close_brace :: close_brace :: rest)
    with (u ++ [close_brace; close_brace] ++ rest).
  rewrite app_assoc, (replace_plain k new _ _ Ht). now rewrite <- app_assoc.
Qed.

(** A replacement treats what stands before and after the wrapped form of
    another name apart. *)
Lemma replace_around (k u new pre post : str) :
  brace_free k = true -> brace_free u = true -> k <> u ->
  str_replace (pre ++ wrap u ++ post) (wrap k) new
  = str_replace pre (wrap k) new ++ wrap u ++ str_replace post (wrap k) new.
Proof.
  intros Hk Hu Hne. unfold str_replace.
  change (wrap k) with (open_brace :: (open_brace :: k ++ [close_brace; close_brace])).
  change (open_brace :: (open_brace :: k ++ [close_brace; close_brace]))
    with (wrap k).
  replace (pre ++ wrap u ++ post)
    with (pre ++ open_brace :: open_brace
              :: (u ++ [close_brace; close_brace]) ++ post)
    by (unfold wrap; now rewrite <- !app_assoc).
  rewrite replace_before;
    [|intros c Hc; now apply (brace_free_spec k Hk)|lia].
  f_equal.
  change (open_brace :: open_brace :: (u ++ [close_brace; close_brace]) ++ post)
    with (wrap u ++ post).
  now apply replace_other.
Qed.

(** The wrapped form of the key itself is replaced by the value, whatever
    the value holds. *)
Lemma replace_token (k new pre post : str) :
  (forall c, In c k -> c <> open_brace) ->
  str_replace (pre ++ wrap k ++ post) (wrap k) new
  = str_replace pre (wrap k) new ++ new ++ str_replace post (wrap k) new.
Proof.
  intros Hk. unfold str_replace.
  change (wrap k) with (open_brace :: (open_brace :: k ++ [close_brace; close_brace])).
  change (open_brace :: (open_brace :: k ++ [close_brace; close_brace]))
    with (wrap k).
  replace (pre ++ wrap k ++ post)
    with (pre ++ open_brace :: open_brace
              :: (k ++ [close_brace; close_brace]) ++ post)
    by (unfold wrap; now rewrite <- !app_assoc).
  rewrite replace_before; [|exact Hk|lia].
  f_equal.
  change (open_brace :: open_brace :: (k ++ [close_brace; close_brace]) ++ post)
    with (wrap k ++ post).
  destruct (wrap k ++ post) as [|c r] eqn:E; [discriminate E|].
  cbn [replace_from]. rewrite <- E, starts_with_app. f_equal.
  assert (r = (open_brace :: k ++ [close_brace; close_brace]) ++ post) as ->.
  { unfold wrap in E. cbn [app] in E. now injection E as _ <-. }
  replace (length (wrap k) - 1)%nat
    with (length (open_brace :: k ++ [close_brace; close_brace]))
    by (unfold wrap; simpl; lia).
  apply replace_from_skip.
Qed.

Lemma replace_absent (old new s : str) :
  contains old s = false -> str_replace s old new = s.
Proof.
  destruct old as [|a old]; [now destruct s|].
  unfold str_replace. induction s as [|c s IH]; [reflexivity|].
  cbn [contains replace_from]. intros H.
  apply orb_false_elim in H as [-> H]. f_equal. now apply IH.
Qed.

Lemma starts_with_spec (old s : str) :
  starts_with old s = true <-> exists post, s = old ++ post.
Proof.
  split.
  - revert s. induction old as [|a old IH]; intros s H; [now exists s|].
    destruct s as [|c s]; [discriminate|]. cbn [starts_with] in H.
    apply andb_prop in H as [E H]. apply N.eqb_eq in E. subst c.
    destruct (IH s H) as (post & ->). now exists post.
  - intros (post & ->). apply starts_with_app.
Qed.

(** [contains old s] tells whether [old] occurs in [s]. *)
Lemma contains_spec (old s : str) :
  contains old s = true <-> exists pre post, s = pre ++ old ++ post.
Proof.
  split.
  - induction s as [|c s IH]; cbn [contains]; intros H.
    + rewrite orb_false_r in H. apply starts_with_spec in H as (post & E).
      now exists [], post.
    + apply orb_prop in H as [H|H].
      * apply starts_with_spec in H as (post & E). now exists [], post.
      * destruct (IH H) as (pre & post & ->). now exists (c :: pre), post.
  - intros (pre & post & ->). induction pre as [|c pre IH].
    + cbn [app]. destruct (old ++ post) eqn:E; cbn [contains];
        rewrite <- E, starts_with_app; reflexivity.
    + cbn [app contains]. rewrite IH. apply orb_true_r.
Qed.

Lemma sustituir_app (body : str) (vars1 vars2 : list (str * str)) :
  sustituir_placeholders body (vars1 ++ vars2)
  = sustituir_placeholders (sustituir_placeholders body vars1) vars2.
Proof. unfold sustituir_placeholders. apply fold_left_app. Qed.

Lemma brace_free_no_open (k : str) :
  brace_free k = true -> forall c, In c k -> c <> open_brace.
Proof. intros H c Hc. now apply (brace_free_spec k H). Qed.

Lemma replace_whole (k v : str) :
  (forall c, In c k -> c <> open_brace) -> str_replace (wrap k) (wrap k) v = v.
Proof.
  intros H. pose proof (replace_token k v [] [] H) as E.
  change (str_replace [] (wrap k) v) with (@nil N) in E.
  cbn [app] in E. now rewrite !app_nil_r in E.
Qed.

(** C7. When the wrapped form of no key of the mapping occurs in the body,
    the substitution returns the body unchanged. *)
Theorem sustituir_identity (body : str) (variables : list (str * str)) :
  (forall clave valor pre post,
     In (clave, valor) variables -> body <> pre ++ wrap clave ++ post) ->
  sustituir_placeholders body variables = body.
Proof.
  unfold sustituir_placeholders.
  induction variables as [|[k v] vars IH]; intros H; [reflexivity|].
  cbn [fold_left]. rewrite replace_absent.
  - apply IH. intros k' v' pre post Hin. apply (H k' v'). now right.
  - destruct (contains (wrap k) body) eqn:E; [exfalso|reflexivity].
    apply contains_spec in E as (pre & post & E).
    now apply (H k v pre post (or_introl eq_refl)).
Qed.

Lemma sustituir_identity_witness :
  sustituir_placeholders (py "\section{Introducción} {{OTRO}} {TITULO}")
    [(py "TITULO", py "Mi artículo"); (py "AUTOR", py "Juan Pérez")]
  = py "\section{Introducción} {{OTRO}} {TITULO}".
Proof.
  apply sustituir_identity. intros clave valor pre post Hin E.
  assert (contains (wrap clave)
            (py "\section{Introducción} {{OTRO}} {TITULO}") = true) as K
    by (apply contains_spec; now exists pre, post).
  destruct Hin as [[= <- <-]|[[= <- <-]|[]]]; vm_compute in K; discriminate K.
Defined.

(** C2, as amended. The keys are applied one after the other in the order
    of the mapping, each by one pass of literal replacement over the text
    that the keys before it produced. A value is inserted as it is by the
    replacement of its own key, whatever it holds, and the keys before it
    never see it; the keys after it do replace their wrapped forms in it. *)
Theorem sustituir_in_order :
  (forall body vars1 clave valor vars2,
     sustituir_placeholders body (vars1 ++ (clave, valor) :: vars2)
     = sustituir_placeholders
         (str_replace (sustituir_placeholders body vars1) (wrap clave) valor)
         vars2)
  /\ (forall clave valor pre post,
        brace_free clave = true ->
        str_replace (pre ++ wrap clave ++ post) (wrap clave) valor
        = str_replace pre (wrap clave) valor ++ valor
          ++ str_replace post (wrap clave) valor)
  /\ (forall clave1 clave2 valor,
        brace_free clave1 = true -> brace_free clave2 = true ->
        sustituir_placeholders (wrap clave1)
          [(clave1, wrap clave2); (clave2, valor)] = valor).
Proof.
  split; [|split].
  - intros body vars1 k v vars2. now rewrite sustituir_app.
  - intros k v pre post Hk. apply replace_token.
    now apply brace_free_no_open.
  - intros k1 k2 v H1 H2. unfold sustituir_placeholders. cbn [fold_left].
    rewrite (replace_whole k1 _ (brace_free_no_open k1 H1)).
    apply (replace_whole k2 _ (brace_free_no_open k2 H2)).
Qed.

Lemma sustituir_in_order_witness :
  str_replace (py "de {{AUTOR}}, 2026") (wrap (py "AUTOR")) (py "{{AUTOR}} y {{FECHA}}")
  = str_replace (py "de ") (wrap (py "AUTOR")) (py "{{AUTOR}} y {{FECHA}}")
    ++ py "{{AUTOR}} y {{FECHA}}"
    ++ str_replace (py ", 2026") (wrap (py "AUTOR")) (py "{{AUTOR}} y {{FECHA}}").
Proof.
  apply (proj1 (proj2 sustituir_in_order) (py "AUTOR") (py "{{AUTOR}} y {{FECHA}}")
           (py "de ") (py ", 2026")).
  vm_compute. reflexivity.
Defined.

(** A title that holds the wrapped form of the key after it is not inserted
    as it is: the author replaces the placeholder in it. *)
Lemma value_rescanned :
  sustituir_placeholders (py "{{TITULO}}")
    [(py "TITULO", py "{{AUTOR}}"); (py "AUTOR", py "Juan")] = py "Juan"
  /\ sustituir_placeholders (py "{{TITULO}}")
       [(py "TITULO", py "{{AUTOR}}"); (py "AUTOR", py "Juan")]
     <> py "{{AUTOR}}".
Proof. split; [vm_compute; reflexivity|vm_compute; discriminate]. Qed.

(** C5, as amended. For names without braces: the wrapped form of a name
    that is not a key of the mapping stays where it is, and the substitution
    treats what stands before it and what stands after it apart; so
    "{{UNKNOWN}} {{TITLE}}" with TITLE set to "X" gives "{{UNKNOWN}} X". *)
Theorem unknown_token_verbatim :
  (forall (variables : list (str * str)) (name pre post : str),
     brace_free name = true ->
     (forall clave valor, In (clave, valor) variables ->
                          brace_free clave = true /\ clave <> name) ->
     sustituir_placeholders (pre ++ wrap name ++ post) variables
     = sustituir_placeholders pre variables ++ wrap name
       ++ sustituir_placeholders post variables)
  /\ sustituir_placeholders (py "{{UNKNOWN}} {{TITLE}}") [(py "TITLE", py "X")]
     = py "{{UNKNOWN}} X".
Proof.
  split; [|vm_compute; reflexivity].
  intros vars u. unfold sustituir_placeholders.
  induction vars as [|[k v] vars IH]; intros pre post Hu H; [reflexivity|].
  destruct (H k v (or_introl eq_refl)) as [Hk Hne].
  cbn [fold_left]. rewrite (replace_around k u v pre post Hk Hu Hne).
  apply IH; [exact Hu|]. intros k' v' Hin. apply (H k' v'). now right.
Qed.

Lemma unknown_token_verbatim_witness :
  sustituir_placeholders ([] ++ wrap (py "UNKNOWN") ++ py " {{TITLE}}")
    [(py "TITLE", py "X")]
  = sustituir_placeholders [] [(py "TITLE", py "X")] ++ wrap (py "UNKNOWN")
    ++ sustituir_placeholders (py " {{TITLE}}") [(py "TITLE", py "X")].
Proof.
  apply (proj1 unknown_token_verbatim); [vm_compute; reflexivity|].
  intros clave valor [[= <- <-]|[]].
  split; [vm_compute; reflexivity|vm_compute; discriminate].
Defined.

(** With a key that holds braces, the wrapped forms of two names that are
    not keys are replaced. *)
Lemma token_swallowed :
  let variables := [(py "a}}{{u", py "x")] in
  let body := py "{{a}}{{u}}" in
  ~ In (py "u") (List.map fst variables)
  /\ contains (wrap (py "u")) body = true
  /\ sustituir_placeholders body variables = py "x"
  /\ contains (wrap (py "u")) (sustituir_placeholders body variables) = false.
Proof.
  cbv zeta. split; [|vm_compute; auto].
  intros [H|[]]. vm_compute in H. discriminate H.
Qed.

(** ** The file system *)

Lemma lookup_app (n : node) (p q : list (list N)) :
  node_lookup n (p ++ q)
  = match node_lookup n p with
    | Some n' => node_lookup n' q
    | None => None
    end.
Proof.
  revert n. induction p as [|c p IH]; intros n; [reflexivity|].
  cbn [app node_lookup]. destruct n as [|m]; [reflexivity|].
  destruct (m !! c); [apply IH|reflexivity].
Qed.

Lemma kind_file (n : node) (p : list (list N)) (c : list N) :
  kind_at n p = IsFile c <-> node_lookup n p = Some (File c).
Proof.
  unfold kind_at. destruct (node_lookup n p) as [[|]|]; split; congruence.
Qed.

Lemma kind_dir (n : node) (p : list (list N)) :
  kind_at n p = IsDir <-> exists m, node_lookup n p = Some (Dir m).
Proof.
  unfold kind_at. destruct (node_lookup n p) as [[|m]|]; split;
    try congruence; try (intros (? & ?); congruence). eauto.
Qed.

Lemma kind_absent (n : node) (p : list (list N)) :
  kind_at n p = Absent <-> node_lookup n p = None.
Proof.
  unfold kind_at. destruct (node_lookup n p) as [[|]|]; split; congruence.
Qed.

Lemma exists_kind (n : node) (p : list (list N)) :
  exists_in n p = match kind_at n p with Absent => false | _ => true end.
Proof.
  unfold exists_in, kind_at. destruct (node_lookup n p) as [[|]|]; reflexivity.
Qed.

Lemma exists_absent (n : node) (p : list (list N)) :
  kind_at n p = Absent -> exists_in n p = false.
Proof. intros H. now rewrite exists_kind, H. Qed.

Lemma exists_present (n : node) (p : list (list N)) :
  kind_at n p <> Absent -> exists_in n p = true.
Proof.
  intros H. rewrite exists_kind. now destruct (kind_at n p).
Qed.

(** What stands above something is a directory. *)
Lemma above_is_dir (n : node) (p q : list (list N)) :
  q <> [] -> kind_at n (p ++ q) <> Absent -> kind_at n p = IsDir.
Proof.
  intros Hq H. unfold kind_at in *. rewrite lookup_app in H.
  destruct (node_lookup n p) as [[c|m]|]; try congruence.
  destruct q as [|d q]; [congruence|]. now cbn [node_lookup] in H.
Qed.

Lemma below_absent (n : node) (p q : list (list N)) :
  kind_at n p = Absent -> kind_at n (p ++ q) = Absent.
Proof.
  unfold kind_at. rewrite lookup_app.
  now destruct (node_lookup n p) as [[|]|].
Qed.

Lemma insert_step (m : gmap (list N) node) (c : list N)
    (rest : list (list N)) (new : node) :
  rest <> [] ->
  node_insert (Dir m) (c :: rest) new
  = match m !! c with
    | Some child =>
      match node_insert child rest new with
      | Some child' => Some (Dir (<[c := child']> m))
      | None => None
      end
    | None => None
    end.
Proof. intros H. destruct rest; [congruence|reflexivity]. Qed.

Lemma make_dirs_step (m : gmap (list N) node) (c : list N)
    (rest : list (list N)) :
  make_dirs (Dir m) (c :: rest)
  = match make_dirs (default (Dir ∅) (m !! c)) rest with
    | Some child' => Some (Dir (<[c := child']> m))
    | None => None
    end.
Proof. reflexivity. Qed.

Lemma snoc_not_nil {A} (l : list A) (x : A) : l ++ [x] <> [].
Proof. now destruct l. Qed.

(** Putting a node under a directory succeeds and changes nothing beside. *)
Lemma insert_under (n : node) (parent : list (list N)) (x : list N) (new : node) :
  kind_at n parent = IsDir ->
  exists n',
    node_insert n (parent ++ [x]) new = Some n'
    /\ (forall r, node_lookup n' (parent ++ [x] ++ r) = node_lookup new r)
    /\ (forall q, ~ (parent ++ [x]) `prefix_of` q -> kind_at n' q = kind_at n q).
Proof.
  revert n. induction parent as [|c parent IH]; intros n H.
  - apply kind_dir in H as (m & [= ->]). exists (Dir (<[x := new]> m)).
    split; [reflexivity|]. split.
    + intros r. cbn [app node_lookup]. now rewrite lookup_insert_eq.
    + intros [|d q] Hq; [reflexivity|]. unfold kind_at. cbn [node_lookup].
      rewrite lookup_insert_ne; [reflexivity|]. intros ->. apply Hq.
      now exists q.
  - apply kind_dir in H as (m & H). destruct n as [|m0]; [discriminate|].
    cbn [node_lookup] in H. destruct (m0 !! c) as [child|] eqn:Ec; [|discriminate].
    destruct (IH child) as (child' & E & Hin & Hout); [apply kind_dir; eauto|].
    exists (Dir (<[c := child']> m0)). split; [|split].
    + cbn [app]. rewrite insert_step, Ec by apply snoc_not_nil. now rewrite E.
    + intros r. cbn [app node_lookup]. rewrite lookup_insert_eq. apply Hin.
    + intros [|d q] Hq; [reflexivity|]. unfold kind_at. cbn [node_lookup].
      destruct (decide (c = d)) as [<-|Hne].
      * rewrite lookup_insert_eq, Ec. apply Hout. intros (r & ->).
        apply Hq. now exists r.
      * now rewrite lookup_insert_ne.
Qed.

(** Under an existing directory, [mkdir(parents=True)] creates one directory. *)
Lemma make_dirs_under (n : node) (parent : list (list N)) (x : list N) :
  kind_at n parent = IsDir -> kind_at n (parent ++ [x]) = Absent ->
  make_dirs n (parent ++ [x]) = node_insert n (parent ++ [x]) (Dir ∅).
Proof.
  revert n. induction parent as [|c parent IH]; intros n H Hx.
  - apply kind_dir in H as (m & [= ->]). apply kind_absent in Hx.
    cbn [app node_lookup] in Hx. cbn [app]. rewrite make_dirs_step.
    destruct (m !! x); [discriminate|reflexivity].
  - apply kind_dir in H as (m & H). destruct n as [|m0]; [discriminate|].
    cbn [node_lookup] in H. destruct (m0 !! c) as [child|] eqn:Ec; [|discriminate].
    unfold kind_at in Hx. cbn [app node_lookup] in Hx. rewrite Ec in Hx.
    cbn [app]. rewrite insert_step, make_dirs_step, Ec by apply snoc_not_nil.
    change (default (Dir ∅) (Some child)) with child.
    rewrite (IH child); [reflexivity|apply kind_dir; eauto|].
    exact Hx.
Qed.

(** A chain of directories made from nothing holds no file. *)
Lemma make_fresh (rest : list (list N)) (child' : node) :
  make_dirs (Dir ∅) rest = Some child' ->
  kind_at child' rest = IsDir
  /\ (forall y, kind_at child' (rest ++ [y]) = Absent)
  /\ (forall q c, kind_at child' q <> IsFile c).
Proof.
  revert child'. induction rest as [|d rest IH]; intros child' E.
  - injection E as <-. split; [reflexivity|]. split.
    + intros y. unfold kind_at. cbn [app node_lookup]. now rewrite lookup_empty.
    + intros [|d q] c; [unfold kind_at; cbn [node_lookup]; congruence|]. unfold kind_at. cbn [node_lookup].
      now rewrite lookup_empty.
  - rewrite make_dirs_step, lookup_empty in E.
    change (default (Dir ∅) None) with (Dir ∅) in E.
    destruct (make_dirs (Dir ∅) rest) as [ch|] eqn:Er; [|discriminate].
    injection E as <-. destruct (IH ch eq_refl) as (H1 & H2 & H3).
    split; [|split].
    + unfold kind_at in *. cbn [node_lookup]. now rewrite lookup_insert_eq.
    + intros y. unfold kind_at in *. cbn [app node_lookup].
      rewrite lookup_insert_eq. apply H2.
    + intros [|e q] c; [unfold kind_at; cbn [node_lookup]; congruence|]. unfold kind_at in *. cbn [node_lookup].
      destruct (decide (d = e)) as [<-|Hne].
      * rewrite lookup_insert_eq. apply H3.
      * rewrite lookup_insert_ne, lookup_empty by exact Hne. discriminate.
Qed.

(** [mkdir(parents=True)] on a path that does not exist makes it an empty
    directory, creates no file and removes nothing. *)
Lemma make_dirs_spec (n : node) (p : list (list N)) (n' : node) :
  make_dirs n p = Some n' -> kind_at n p = Absent ->
  kind_at n' p = IsDir
  /\ (forall y, kind_at n' (p ++ [y]) = Absent)
  /\ (forall q c, kind_at n' q = IsFile c -> kind_at n q = IsFile c)
  /\ (forall q, kind_at n q <> Absent -> kind_at n' q <> Absent).
Proof.
  revert n n'. induction p as [|d p IH]; intros n n' E Ha; [unfold kind_at in Ha; cbn [node_lookup] in Ha; now destruct n|].
  destruct n as [|m]; [discriminate E|].
  rewrite make_dirs_step in E.
  destruct (make_dirs (default (Dir ∅) (m !! d)) p) as [ch'|] eqn:Er;
    [|discriminate E].
  injection E as <-.
  assert (kind_at ch' p = IsDir
          /\ (forall y, kind_at ch' (p ++ [y]) = Absent)
          /\ (forall q c, kind_at ch' q = IsFile c ->
                          exists ch, m !! d = Some ch /\ kind_at ch q = IsFile c)
          /\ (forall q ch, m !! d = Some ch -> kind_at ch q <> Absent ->
                           kind_at ch' q <> Absent)) as (H1 & H2 & H3 & H4).
  { unfold kind_at in Ha. cbn [node_lookup] in Ha.
    destruct (m !! d) as [ch|] eqn:Ed.
    - change (default (Dir ∅) (Some ch)) with ch in Er.
      destruct (IH ch ch' Er) as (K1 & K2 & K3 & K4).
      { unfold kind_at. now destruct (node_lookup ch p) as [[|]|]. }
      split; [exact K1|]. split; [exact K2|]. split.
      + intros q c Hq. exists ch. split; [reflexivity|now apply K3].
      + intros q ch0 [= <-]. apply K4.
    - change (default (Dir ∅) None) with (Dir ∅) in Er.
      destruct (make_fresh p ch' Er) as (K1 & K2 & K3).
      split; [exact K1|]. split; [exact K2|]. split.
      + intros q c Hq. now apply K3 in Hq.
      + intros q ch0 [=]. }
  split; [|split; [|split]].
  - unfold kind_at in *. cbn [node_lookup]. now rewrite lookup_insert_eq.
  - intros y. unfold kind_at in *. cbn [app node_lookup].
    rewrite lookup_insert_eq. apply H2.
  - intros [|e q] c; [unfold kind_at; cbn [node_lookup]; congruence|]. unfold kind_at. cbn [node_lookup].
    destruct (decide (d = e)) as [<-|Hne].
    + rewrite lookup_insert_eq. intros Hq.
      destruct (H3 q c Hq) as (ch & -> & Hc). exact Hc.
    + now rewrite lookup_insert_ne.
  - intros [|e q]; [unfold kind_at; cbn [node_lookup]; congruence|]. unfold kind_at. cbn [node_lookup].
    destruct (decide (d = e)) as [<-|Hne].
    + rewrite lookup_insert_eq. destruct (m !! d) as [ch|] eqn:Ed; [|congruence].
      apply (H4 q ch eq_refl).
    + now rewrite lookup_insert_ne.
Qed.

(** ** Runs *)

Lemma bind_Ret {A B} (m : M A) (k : A -> M B) (w w' : world) (a : A) :
  m w = (Ret a, w') -> bind m k w = k a w'.
Proof. unfold bind. now intros ->. Qed.

Lemma bind_Exit {A B} (m : M A) (k : A -> M B) (w w' : world) (status : Z) :
  m w = (Exit status, w') -> bind m k w = (Exit status, w').
Proof. unfold bind. now intros ->. Qed.

Lemma bind_Raise {A B} (m : M A) (k : A -> M B) (w w' : world) (e : exn) :
  m w = (Raise e, w') -> bind m k w = (Raise e, w').
Proof. unfold bind. now intros ->. Qed.

Lemma print_run (line : list N) (w : world) :
  print line w = (Ret tt, printed w [line]).
Proof. reflexivity. Qed.

Lemma printed_nil (w : world) : printed w [] = w.
Proof. destruct w. unfold printed. cbn [fs stdout clock]. now rewrite app_nil_r. Qed.

Lemma printed_app (w : world) (a b : list (list N)) :
  printed (printed w a) b = printed w (a ++ b).
Proof. unfold printed. cbn [fs stdout clock]. now rewrite app_assoc. Qed.

Lemma for_each_print {A} (l : list A) (g : A -> list N) (w : world) :
  for_each l (fun a => print (g a)) w = (Ret tt, printed w (List.map g l)).
Proof.
  revert w. induction l as [|a l IH]; intros w.
  - cbn [for_each List.map]. now rewrite printed_nil.
  - cbn [for_each List.map]. rewrite (bind_Ret _ _ _ _ _ (print_run _ _)), IH.
    now rewrite printed_app.
Qed.

Lemma filter_m_exists (f : list N -> list (list N)) (l : list (list N))
    (w : world) :
  filter_m (fun a => existe <- path_exists (f a) ;; ret (negb existe)) l w
  = (Ret (List.filter (fun a => negb (exists_in (fs w) (f a))) l), w).
Proof.
  induction l as [|a l IH]; [reflexivity|].
  cbn [filter_m List.filter]. unfold bind at 1 2. unfold path_exists at 1.
  unfold ret at 1. unfold bind at 1. rewrite IH. reflexivity.
Qed.

Section Runs.
Context {U : UnicodeData}.
Variable TEMPLATES_DIR : list (list N).

Lemma verificar_missing (w : world) :
  exists_in (fs w) TEMPLATES_DIR = false ->
  verificar_plantillas TEMPLATES_DIR w = (Exit 1, printed w (guia TEMPLATES_DIR)).
Proof.
  intros H. unfold verificar_plantillas.
  apply bind_Exit. erewrite bind_Ret by reflexivity. rewrite H. cbn [negb].
  repeat (erewrite bind_Ret by apply print_run; rewrite ?printed_app).
  reflexivity.
Qed.

Lemma verificar_present (w : world) :
  exists_in (fs w) TEMPLATES_DIR = true ->
  verificar_plantillas TEMPLATES_DIR w
  = (Ret tt, printed w (avisos TEMPLATES_DIR (fs w))).
Proof.
  intros H. unfold verificar_plantillas.
  erewrite bind_Ret; cycle 1.
  { erewrite bind_Ret by reflexivity. rewrite H. reflexivity. }
  erewrite bind_Ret by apply filter_m_exists.
  unfold avisos. fold (faltantes_en TEMPLATES_DIR (fs w)).
  destruct (faltantes_en TEMPLATES_DIR (fs w)) as [|a l] eqn:E.
  - now rewrite printed_nil.
  - erewrite bind_Ret by apply print_run.
    erewrite bind_Ret by apply for_each_print.
    rewrite print_run, !printed_app. reflexivity.
Qed.

Lemma mes_valido (m : N) :
  1 <= m <= 12 -> exists mes, assoc m meses_es = Some mes.
Proof.
  intros [H1 H2]. revert H1.
  apply (decide_below 13 (fun m => 1 <= m -> is_Some (assoc m meses_es)));
    [vm_compute; reflexivity|lia].
Qed.

(** The runs that stop before anything is written *)
Lemma crear_tipo_desconocido (nombre tipo autor : list N)
    (base : list (list N)) (w : world) :
  assoc tipo TIPOS = None ->
  crear_proyecto TEMPLATES_DIR nombre tipo autor base w
  = (Exit 1, printed w (error_tipo tipo)).
Proof.
  intros Ht. unfold crear_proyecto. rewrite Ht. apply bind_Exit.
  repeat (erewrite bind_Ret by apply print_run; rewrite ?printed_app).
  reflexivity.
Qed.

Lemma crear_sin_plantillas (nombre tipo autor : list N)
    (base : list (list N)) (w : world) (info : tipo_info) :
  assoc tipo TIPOS = Some info ->
  exists_in (fs w) TEMPLATES_DIR = false ->
  crear_proyecto TEMPLATES_DIR nombre tipo autor base w
  = (Exit 1, printed w (guia TEMPLATES_DIR)).
Proof.
  intros Ht Hs. unfold crear_proyecto. rewrite Ht.
  erewrite bind_Ret by reflexivity.
  apply bind_Exit. now apply verificar_missing.
Qed.

Lemma crear_colision (nombre tipo autor : list N) (base : list (list N))
    (w : world) (info : tipo_info) (mes : list N) :
  assoc tipo TIPOS = Some info ->
  exists_in (fs w) TEMPLATES_DIR = true ->
  assoc (month (clock w)) meses_es = Some mes ->
  exists_in (fs w) (base </> slugify nombre) = true ->
  crear_proyecto TEMPLATES_DIR nombre tipo autor base w
  = (Exit 1, printed w (avisos TEMPLATES_DIR (fs w)
                        ++ colision (base </> slugify nombre))).
Proof.
  intros Ht Hs Em Hd.
  unfold crear_proyecto. rewrite Ht.
  erewrite bind_Ret by reflexivity.
  erewrite bind_Ret by (apply verificar_present; exact Hs).
  cbv zeta. unfold dict_get at 1. rewrite Ht.
  erewrite bind_Ret by reflexivity.
  erewrite bind_Ret by reflexivity.
  unfold dict_get at 1. cbn [printed clock]. rewrite Em.
  erewrite bind_Ret by reflexivity.
  apply bind_Exit. erewrite bind_Ret by reflexivity.
  cbn [printed fs]. rewrite Hd.
  repeat (erewrite bind_Ret by apply print_run; rewrite ?printed_app).
  unfold sys_exit, colision. now rewrite <- app_assoc.
Qed.

(** *** Steps under an existing directory *)

Lemma path_join_snoc (p : list (list N)) (x : list N) :
  x <> [] -> p </> x = p ++ [x].
Proof. intros H. destruct x; [congruence|reflexivity]. Qed.

Lemma not_prefix_sibling (dir : list (list N)) (x y : list N) :
  x <> y -> ~ (dir ++ [x]) `prefix_of` (dir ++ [y]).
Proof.
  intros H (k & E). rewrite <- app_assoc in E. apply app_inv_head in E.
  cbn [app] in E. congruence.
Qed.

Lemma not_prefix_parent (dir : list (list N)) (x : list N) :
  ~ (dir ++ [x]) `prefix_of` dir.
Proof.
  intros (k & E). apply (f_equal length) in E.
  rewrite !length_app in E. cbn [length] in E. lia.
Qed.

Lemma not_prefix_weaken (dir q : list (list N)) (x : list N) :
  ~ dir `prefix_of` q -> ~ (dir ++ [x]) `prefix_of` q.
Proof. intros H (k & ->). apply H. exists ([x] ++ k). now rewrite app_assoc. Qed.

Lemma mkdir_under (parents : bool) (w : world) (dir : list (list N))
    (x : list N) :
  kind_at (fs w) dir = IsDir -> kind_at (fs w) (dir ++ [x]) = Absent ->
  exists w',
    path_mkdir parents (dir ++ [x]) w = (Ret tt, w')
    /\ clock w' = clock w
    /\ kind_at (fs w') (dir ++ [x]) = IsDir
    /\ (forall y, kind_at (fs w') ((dir ++ [x]) ++ [y]) = Absent)
    /\ (forall q, ~ (dir ++ [x]) `prefix_of` q ->
                  kind_at (fs w') q = kind_at (fs w) q).
Proof.
  intros Hd Hx.
  destruct (insert_under (fs w) dir x (Dir ∅) Hd) as (n' & E & Hin & Hout).
  exists (with_fs w n'). split; [|split; [reflexivity|]].
  - unfold path_mkdir. rewrite (exists_absent _ _ Hx).
    destruct parents; [rewrite (make_dirs_under _ _ _ Hd Hx)|]; now rewrite E.
  - cbn [fs with_fs]. split; [|split; [|exact Hout]].
    + unfold kind_at. specialize (Hin []). rewrite !app_nil_r in Hin.
      now rewrite Hin.
    + intros y. unfold kind_at. rewrite <- app_assoc, Hin.
      cbn [node_lookup]. now rewrite lookup_empty.
Qed.

(** *** The names of the project and of the store *)

Lemma in_check (c : N) (l : list N) : existsb (N.eqb c) l = true -> In c l.
Proof.
  intros H. apply existsb_exists in H as (d & Hd & E).
  apply N.eqb_eq in E. now subst d.
Qed.

Lemma tipos_plantilla (tipo : list N) (info : tipo_info) :
  assoc tipo TIPOS = Some info -> In 46 (plantilla info).
Proof.
  unfold TIPOS. cbn [assoc].
  repeat destruct (decide _); intros [= <-]; apply in_check; reflexivity.
Qed.

Lemma tex_last (slug : list N) : last (slug ++ py ".tex") = Some 120.
Proof.
  change (py ".tex") with ([46; 116; 101] ++ [120]).
  now rewrite app_assoc, last_snoc.
Qed.

Lemma tex_not_name (slug t : list N) :
  last t <> Some 120 -> slug ++ py ".tex" <> t.
Proof. intros H <-. now rewrite tex_last in H. Qed.

End Runs.

(** ** A whole run *)

Ltac names_differ :=
  first
    [ assumption
    | apply tex_not_name; vm_compute; discriminate
    | apply not_eq_sym; apply tex_not_name; vm_compute; discriminate
    | let E := fresh in intros E; vm_compute in E; discriminate E ].

Ltac outside :=
  first
    [ assumption
    | apply not_prefix_parent
    | apply not_prefix_sibling; names_differ
    | apply not_prefix_weaken; assumption ].
(** ** The checks of [crear_proyecto] and the statements after them *)

Section Cases.
Context {U : UnicodeData}.
Variable TEMPLATES_DIR : list (list N).

(** A run is one of the four ways out of the checks, or the writing of the
    project in the world where the warnings have been printed. *)
Lemma crear_proyecto_cases (nombre tipo autor : list N)
    (base : list (list N)) (w : world) :
  crear_proyecto TEMPLATES_DIR nombre tipo autor base w
  = match assoc tipo TIPOS with
    | None => (Exit 1, printed w (error_tipo tipo))
    | Some info =>
      if exists_in (fs w) TEMPLATES_DIR then
        match assoc (month (clock w)) meses_es with
        | None => (Raise KeyError, printed w (avisos TEMPLATES_DIR (fs w)))
        | Some mes =>
          if exists_in (fs w) (base </> slugify nombre) then
            (Exit 1, printed w (avisos TEMPLATES_DIR (fs w)
                                ++ colision (base </> slugify nombre)))
          else
            escribir_proyecto TEMPLATES_DIR info nombre autor
              (formato_fecha (clock w) mes) (slugify nombre)
              (base </> slugify nombre)
              (printed w (avisos TEMPLATES_DIR (fs w)))
        end
      else (Exit 1, printed w (guia TEMPLATES_DIR))
    end.
Proof.
  destruct (assoc tipo TIPOS) as [info|] eqn:Ht;
    [|now apply crear_tipo_desconocido].
  destruct (exists_in (fs w) TEMPLATES_DIR) eqn:Hs;
    [|now apply (crear_sin_plantillas TEMPLATES_DIR _ _ _ _ _ info)].
  destruct (assoc (month (clock w)) meses_es) as [mes|] eqn:Em.
  - destruct (exists_in (fs w) (base </> slugify nombre)) eqn:Hd;
      [now apply (crear_colision TEMPLATES_DIR _ _ _ _ _ info mes)|].
    unfold crear_proyecto. rewrite Ht.
    erewrite bind_Ret by reflexivity.
    erewrite bind_Ret by (apply verificar_present; exact Hs).
    unfold dict_get at 1. rewrite Ht.
    erewrite bind_Ret by reflexivity.
    erewrite bind_Ret by reflexivity.
    unfold dict_get at 1. cbn [printed clock]. rewrite Em.
    erewrite bind_Ret by reflexivity.
    cbv zeta.
    erewrite bind_Ret; cycle 1.
    { erewrite bind_Ret by reflexivity. cbn [printed fs]. rewrite Hd.
      reflexivity. }
    reflexivity.
  - unfold crear_proyecto. rewrite Ht.
    erewrite bind_Ret by reflexivity.
    erewrite bind_Ret by (apply verificar_present; exact Hs).
    unfold dict_get at 1. rewrite Ht.
    erewrite bind_Ret by reflexivity.
    erewrite bind_Ret by reflexivity.
    unfold dict_get at 1. cbn [printed clock]. rewrite Em.
    apply bind_Raise. reflexivity.
Qed.

End Cases.

(** ** Changes of the file system, whatever the paths *)

Lemma prefix_cons_inv {A} (c : A) (p q : list A) :
  (c :: p) `prefix_of` (c :: q) <-> p `prefix_of` q.
Proof.
  split; intros (k & E).
  - exists k. now injection E.
  - exists k. cbn [app]. now rewrite E.
Qed.

(** A node put at [p] changes nothing that is not at [p] or under it. *)
Lemma insert_frame (n n' : node) (p : list (list N)) (new : node) :
  node_insert n p new = Some n' ->
  forall q, ~ p `prefix_of` q -> kind_at n' q = kind_at n q.
Proof.
  revert n n'. induction p as [|c rest IH]; intros n n' E q Hq.
  - exfalso. apply Hq. now exists q.
  - destruct n as [|m]; [discriminate E|].
    destruct q as [|e q]; [|destruct (decide (c = e)) as [<-|Hne]].
    + destruct rest as [|r0 rs].
      * cbn [node_insert] in E. now injection E as <-.
      * rewrite insert_step in E by discriminate.
        destruct (m !! c); [|discriminate E].
        destruct (node_insert _ _ _); [|discriminate E]. now injection E as <-.
    + destruct rest as [|r0 rs].
      * exfalso. apply Hq. now exists q.
      * rewrite insert_step in E by discriminate.
        destruct (m !! c) as [child|] eqn:Ec; [|discriminate E].
        destruct (node_insert child (r0 :: rs) new) as [child'|] eqn:Ei;
          [|discriminate E].
        injection E as <-. unfold kind_at. cbn [node_lookup].
        rewrite lookup_insert_eq, Ec. apply (IH child child' Ei).
        intros H. apply Hq. now apply prefix_cons_inv.
    + assert (exists m', n' = Dir m' /\ m' !! e = m !! e) as (m' & -> & Em).
      { destruct rest as [|r0 rs].
        - cbn [node_insert] in E. injection E as <-. eexists. split; [reflexivity|].
          now apply lookup_insert_ne.
        - rewrite insert_step in E by discriminate.
          destruct (m !! c); [|discriminate E].
          destruct (node_insert _ _ _); [|discriminate E]. injection E as <-.
          eexists. split; [reflexivity|]. now apply lookup_insert_ne. }
      unfold kind_at. cbn [node_lookup]. now rewrite Em.
Qed.

Lemma insert_lookup (n n' : node) (p : list (list N)) (new : node) :
  node_insert n p new = Some n' -> node_lookup n' p = Some new.
Proof.
  revert n n'. induction p as [|c rest IH]; intros n n' E.
  - cbn [node_insert] in E. now injection E as <-.
  - destruct n as [|m]; [discriminate E|]. destruct rest as [|r0 rs].
    + cbn [node_insert] in E. injection E as <-. cbn [node_lookup].
      now rewrite lookup_insert_eq.
    + rewrite insert_step in E by discriminate.
      destruct (m !! c) as [child|]; [|discriminate E].
      destruct (node_insert child (r0 :: rs) new) as [child'|] eqn:Ei;
        [|discriminate E].
      injection E as <-. cbn [node_lookup]. rewrite lookup_insert_eq.
      now apply (IH child).
Qed.

(** [mkdir(parents=True)] changes nothing but the missing directories on the
    way to [p]. *)
Lemma make_dirs_frame (n n' : node) (p : list (list N)) :
  make_dirs n p = Some n' ->
  forall q, ~ p `prefix_of` q ->
            (kind_at n q = Absent -> ~ q `prefix_of` p) ->
            kind_at n' q = kind_at n q.
Proof.
  revert n n'. induction p as [|d p IH]; intros n n' E q Hq Ha.
  - cbn [make_dirs] in E. now injection E as <-.
  - destruct n as [|m]; [discriminate E|]. rewrite make_dirs_step in E.
    destruct (make_dirs (default (Dir ∅) (m !! d)) p) as [ch'|] eqn:Er;
      [|discriminate E].
    injection E as <-.
    destruct q as [|e q]; [reflexivity|].
    unfold kind_at. cbn [node_lookup].
    destruct (decide (d = e)) as [<-|Hne]; [|now rewrite lookup_insert_ne].
    rewrite lookup_insert_eq.
    assert (~ p `prefix_of` q) as Hq'
      by (intros H; apply Hq; now apply prefix_cons_inv).
    destruct (m !! d) as [ch|] eqn:Ed.
    + change (default (Dir ∅) (Some ch)) with ch in Er.
      apply (IH ch ch' Er q Hq'). intros K H. revert K.
      unfold kind_at in Ha. cbn [node_lookup] in Ha. rewrite Ed in Ha.
      intros K. apply (Ha K). now apply prefix_cons_inv.
    + change (default (Dir ∅) None) with (Dir ∅) in Er.
      unfold kind_at in Ha. cbn [node_lookup] in Ha. rewrite Ed in Ha.
      assert (~ q `prefix_of` p) as Hp
        by (intros H; apply (Ha eq_refl); now apply prefix_cons_inv).
      assert (kind_at (Dir ∅) q = Absent) as K0.
      { destruct q as [|f q]; [exfalso; apply Hp; now exists p|].
        unfold kind_at. cbn [node_lookup]. now rewrite lookup_empty. }
      pose proof (IH (Dir ∅) ch' Er q Hq' (fun _ => Hp)) as K.
      rewrite K0 in K. exact K.
Qed.

(** A file on the way stops [mkdir(parents=True)]. *)
Lemma make_dirs_blocked (n : node) (p r : list (list N)) (c : list N) :
  kind_at n p = IsFile c -> r <> [] -> make_dirs n (p ++ r) = None.
Proof.
  revert n. induction p as [|d p IH]; intros n H Hr.
  - apply kind_file in H. cbn [node_lookup] in H. injection H as ->.
    destruct r; [congruence|reflexivity].
  - apply kind_file in H. destruct n as [|m]; [discriminate H|].
    cbn [node_lookup] in H. destruct (m !! d) as [ch|] eqn:Ed; [|discriminate H].
    cbn [app]. rewrite make_dirs_step, Ed.
    change (default (Dir ∅) (Some ch)) with ch.
    rewrite (IH ch); [reflexivity|now apply kind_file|exact Hr].
Qed.

(** Without a file on the way, [mkdir(parents=True)] goes through. *)
Lemma make_dirs_free (n : node) (p : list (list N)) :
  (forall q c, q `prefix_of` p -> kind_at n q <> IsFile c) ->
  exists n', make_dirs n p = Some n'.
Proof.
  revert n. induction p as [|d p IH]; intros n H; [now exists n|].
  destruct n as [c|m].
  - exfalso. apply (H [] c); [now exists (d :: p)|reflexivity].
  - rewrite make_dirs_step.
    destruct (IH (default (Dir ∅) (m !! d))) as (ch' & ->); [|eauto].
    intros q c Hq K. destruct (m !! d) as [ch|] eqn:Ed.
    + change (default (Dir ∅) (Some ch)) with ch in K.
      apply (H (d :: q) c); [now apply prefix_cons_inv|].
      unfold kind_at in *. cbn [node_lookup]. now rewrite Ed.
    + change (default (Dir ∅) None) with (Dir ∅) in K.
      destruct q as [|e q]; [discriminate K|].
      unfold kind_at in K. cbn [node_lookup] in K.
      now rewrite lookup_empty in K.
Qed.

(** After [mkdir(parents=True)] of a path that did not exist, the path and
    what leads to it are directories. *)
Lemma make_dirs_way (n n' : node) (p : list (list N)) :
  make_dirs n p = Some n' -> kind_at n p = Absent ->
  forall q, q `prefix_of` p -> kind_at n' q = IsDir.
Proof.
  intros E Ha q (r & ->).
  destruct (make_dirs_spec _ _ _ E Ha) as (D & _).
  destruct r as [|x r]; [now rewrite app_nil_r in D|].
  apply (above_is_dir n' q (x :: r)); [discriminate|]. now rewrite D.
Qed.

(** ** What the calls keep *)

Lemma keeps_bind {A B} (R : world -> world -> Prop) (m : M A) (k : A -> M B) :
  Transitive R -> keeps R m -> (forall a, keeps R (k a)) -> keeps R (bind m k).
Proof.
  intros HR Hm Hk w. unfold bind. specialize (Hm w).
  destruct (m w) as [[a|status|e] w1]; cbn [snd] in *; [|exact Hm..].
  exact (HR _ _ _ Hm (Hk a w1)).
Qed.

Lemma never_exits_bind {A B} (m : M A) (k : A -> M B) :
  never_exits m -> (forall a, never_exits (k a)) -> never_exits (bind m k).
Proof.
  intros Hm Hk w status. unfold bind. specialize (Hm w).
  destruct (m w) as [[a|status'|e] w1]; cbn [fst] in *.
  - apply Hk.
  - now destruct (Hm status').
  - discriminate.
Qed.

Lemma solo_bajo_refl (dir : list (list N)) (w w' : world) :
  fs w' = fs w -> clock w' = clock w -> solo_bajo dir w w'.
Proof. intros Hf Hc. split; [exact Hc|]. intros q _ _. now rewrite Hf. Qed.

Lemma solo_bajo_trans (dir : list (list N)) :
  Transitive (solo_bajo dir).
Proof.
  intros w1 w2 w3 [C1 F1] [C2 F2]. split; [congruence|].
  intros q Hq Ha. rewrite F2, F1; auto.
  rewrite F1 by auto. exact Ha.
Qed.

Section Kept.
Variable dir : list (list N).

Lemma keeps_ret {A} (a : A) : keeps (solo_bajo dir) (ret a).
Proof. intros w. now apply solo_bajo_refl. Qed.

Lemma keeps_print (line : list N) : keeps (solo_bajo dir) (print line).
Proof. intros w. now apply solo_bajo_refl. Qed.

Lemma keeps_exists (p : list (list N)) : keeps (solo_bajo dir) (path_exists p).
Proof. intros w. now apply solo_bajo_refl. Qed.

Lemma keeps_read (p : list (list N)) : keeps (solo_bajo dir) (read_text p).
Proof.
  intros w. apply solo_bajo_refl; unfold read_text;
    destruct (node_lookup (fs w) p) as [[c|]|]; try reflexivity;
    now destruct (utf8_text c).
Qed.

Lemma keeps_mkdir (parents : bool) (p : list (list N)) :
  dir `prefix_of` p -> (parents = true -> p = dir) ->
  keeps (solo_bajo dir) (path_mkdir parents p).
Proof.
  intros Hp Hd w. unfold path_mkdir.
  destruct (exists_in (fs w) p); [now apply solo_bajo_refl|].
  destruct parents.
  - rewrite (Hd eq_refl).
    destruct (make_dirs (fs w) dir) as [n|] eqn:E; [|now apply solo_bajo_refl].
    split; [reflexivity|]. intros q Hq Ha. cbn [snd with_fs fs].
    now apply (make_dirs_frame _ _ _ E).
  - destruct (node_insert (fs w) p (Dir ∅)) as [n|] eqn:E;
      [|now apply solo_bajo_refl].
    split; [reflexivity|]. intros q Hq _. cbn [snd with_fs fs].
    apply (insert_frame _ _ _ _ E). intros H. apply Hq.
    now transitivity p.
Qed.

Lemma keeps_write (p : list (list N)) (contenido : list N) :
  dir `prefix_of` p -> keeps (solo_bajo dir) (write_text p contenido).
Proof.
  intros Hp w. unfold write_text.
  assert (forall new o,
            keeps (solo_bajo dir)
              (fun w => match node_insert (fs w) p new with
                        | Some n => (o, with_fs w n)
                        | None => (Raise (access_error (fs w) p), w)
                        end : outcome unit * world)) as Hi.
  { intros new o w0.
    destruct (node_insert (fs w0) p new) as [n|] eqn:E;
      [|now apply solo_bajo_refl].
    split; [reflexivity|]. intros q Hq _. cbn [snd with_fs fs].
    apply (insert_frame _ _ _ _ E). intros H. apply Hq. now transitivity p. }
  destruct (node_lookup (fs w) p) as [[|]|];
    try (now apply solo_bajo_refl);
    (destruct (utf8_text contenido);
     [exact (Hi (File contenido) (Ret tt) w)
     |exact (Hi (File []) (Raise UnicodeEncodeError) w)]).
Qed.

Lemma keeps_copiar (origen destino : list (list N))
    (variables : list (list N * list N)) :
  dir `prefix_of` destino ->
  keeps (solo_bajo dir) (copiar_plantilla origen destino variables).
Proof.
  intros Hp. apply keeps_bind; [apply solo_bajo_trans|apply keeps_read|].
  intros contenido. now apply keeps_write.
Qed.

Lemma join_under (x : list N) : dir `prefix_of` (dir </> x).
Proof.
  destruct x as [|c x]; [reflexivity|]. cbn [path_join]. now exists [c :: x].
Qed.

End Kept.

Lemma never_exits_ret {A} (a : A) : never_exits (ret a).
Proof. intros w status. discriminate. Qed.

Lemma never_exits_print (line : list N) : never_exits (print line).
Proof. intros w status. discriminate. Qed.

Lemma never_exits_exists (p : list (list N)) : never_exits (path_exists p).
Proof. intros w status. discriminate. Qed.

Lemma never_exits_read (p : list (list N)) : never_exits (read_text p).
Proof.
  intros w status. unfold read_text.
  destruct (node_lookup (fs w) p) as [[c|]|]; try discriminate.
  now destruct (utf8_text c).
Qed.

Lemma never_exits_mkdir (parents : bool) (p : list (list N)) :
  never_exits (path_mkdir parents p).
Proof.
  intros w status. unfold path_mkdir.
  destruct (exists_in (fs w) p); [discriminate|].
  destruct parents; [now destruct (make_dirs (fs w) p)|].
  now destruct (node_insert (fs w) p (Dir ∅)).
Qed.

Lemma never_exits_write (p : list (list N)) (contenido : list N) :
  never_exits (write_text p contenido).
Proof.
  intros w status. unfold write_text.
  destruct (node_lookup (fs w) p) as [[|]|]; try discriminate;
    (destruct (utf8_text contenido);
     [now destruct (node_insert (fs w) p (File contenido))
     |now destruct (node_insert (fs w) p (File []))]).
Qed.

Lemma never_exits_copiar (origen destino : list (list N))
    (variables : list (list N * list N)) :
  never_exits (copiar_plantilla origen destino variables).
Proof.
  apply never_exits_bind; [apply never_exits_read|].
  intros contenido. apply never_exits_write.
Qed.

(** The statements after the checks keep what is not under the directory of
    the project, and none of them is a [sys.exit]. *)
Lemma escribir_keeps (TEMPLATES_DIR : list (list N)) (info : tipo_info)
    (nombre autor fecha slug : list N) (dir : list (list N)) :
  keeps (solo_bajo dir)
    (escribir_proyecto TEMPLATES_DIR info nombre autor fecha slug dir).
Proof.
  unfold escribir_proyecto. cbv zeta.
  repeat lazymatch goal with
  | |- keeps _ (bind _ _) => apply keeps_bind; [apply solo_bajo_trans| |intros ?]
  | |- keeps _ (if ?b then _ else _) => destruct b
  | |- keeps _ (print _) => apply keeps_print
  | |- keeps _ (ret _) => apply keeps_ret
  | |- keeps _ (path_exists _) => apply keeps_exists
  | |- keeps _ (path_mkdir true _) =>
    apply keeps_mkdir; [reflexivity|reflexivity]
  | |- keeps _ (path_mkdir false _) =>
    apply keeps_mkdir; [apply join_under|discriminate]
  | |- keeps _ (write_text _ _) => apply keeps_write; apply join_under
  | |- keeps _ (copiar_plantilla _ _ _) => apply keeps_copiar; apply join_under
  end.
Qed.

Lemma escribir_never_exits (TEMPLATES_DIR : list (list N)) (info : tipo_info)
    (nombre autor fecha slug : list N) (dir : list (list N)) :
  never_exits
    (escribir_proyecto TEMPLATES_DIR info nombre autor fecha slug dir).
Proof.
  unfold escribir_proyecto. cbv zeta.
  repeat lazymatch goal with
  | |- never_exits (bind _ _) => apply never_exits_bind; [|intros ?]
  | |- never_exits (if ?b then _ else _) => destruct b
  | |- never_exits (print _) => apply never_exits_print
  | |- never_exits (ret _) => apply never_exits_ret
  | |- never_exits (path_exists _) => apply never_exits_exists
  | |- never_exits (path_mkdir _ _) => apply never_exits_mkdir
  | |- never_exits (write_text _ _) => apply never_exits_write
  | |- never_exits (copiar_plantilla _ _ _) => apply never_exits_copiar
  end.
Qed.

(** ** The writing of a project *)

Lemma mkdir_stdout (parents : bool) (p : list (list N)) (w w' : world)
    (o : outcome unit) :
  path_mkdir parents p w = (o, w') -> stdout w' = stdout w.
Proof.
  unfold path_mkdir. destruct (exists_in (fs w) p); [now intros [= _ <-]|].
  destruct parents.
  - destruct (make_dirs (fs w) p); now intros [= _ <-].
  - destruct (node_insert (fs w) p (Dir ∅)); now intros [= _ <-].
Qed.

Lemma write_stdout (p : list (list N)) (contenido : list N) (w w' : world)
    (o : outcome unit) :
  write_text p contenido w = (o, w') -> stdout w' = stdout w.
Proof.
  unfold write_text.
  destruct (node_lookup (fs w) p) as [[|]|]; try (now intros [= _ <-]);
    (destruct (utf8_text contenido);
     [destruct (node_insert (fs w) p (File contenido))
     |destruct (node_insert (fs w) p (File []))]; now intros [= _ <-]).
Qed.

Lemma copiar_stdout (origen destino : list (list N))
    (variables : list (list N * list N)) (w w' : world) (o : outcome unit) :
  copiar_plantilla origen destino variables w = (o, w') -> stdout w' = stdout w.
Proof.
  unfold copiar_plantilla, bind, read_text.
  destruct (node_lookup (fs w) origen) as [[c|]|]; try (now intros [= _ <-]).
  destruct (utf8_text c); [|now intros [= _ <-]].
  apply write_stdout.
Qed.

Lemma not_prefix_cousin (dir r : list (list N)) (x y : list N) :
  x <> y -> ~ (dir ++ [x]) `prefix_of` (dir ++ y :: r).
Proof.
  intros H (k & E). rewrite <- app_assoc in E. apply app_inv_head in E.
  cbn [app] in E. congruence.
Qed.

(** [mkdir(parents=True)] of a path that does not exist, with no file on
    the way *)
Lemma mkdir_parents (w : world) (dir : list (list N)) :
  kind_at (fs w) dir = Absent ->
  (forall q c, q `prefix_of` dir -> kind_at (fs w) q <> IsFile c) ->
  exists w',
    path_mkdir true dir w = (Ret tt, w')
    /\ clock w' = clock w
    /\ stdout w' = stdout w
    /\ (forall q, q `prefix_of` dir -> kind_at (fs w') q = IsDir)
    /\ (forall y r, kind_at (fs w') (dir ++ y :: r) = Absent)
    /\ (forall q, ~ dir `prefix_of` q ->
                  (kind_at (fs w) q = Absent -> ~ q `prefix_of` dir) ->
                  kind_at (fs w') q = kind_at (fs w) q).
Proof.
  intros Ha Hf. destruct (make_dirs_free _ _ Hf) as (n' & E).
  exists (with_fs w n'). unfold path_mkdir.
  rewrite (exists_absent _ _ Ha), E. split; [reflexivity|].
  split; [reflexivity|]. split; [reflexivity|]. cbn [with_fs fs].
  destruct (make_dirs_spec _ _ _ E Ha) as (_ & N2 & _).
  split; [now apply (make_dirs_way _ _ _ E)|].
  split; [|now apply (make_dirs_frame _ _ _ E)].
  intros y r. change (y :: r) with ([y] ++ r). rewrite app_assoc.
  apply below_absent, N2.
Qed.

Lemma camino_check (n : node) (dir : list (list N)) :
  forallb (fun k => match kind_at n (take k dir) with
                    | IsFile _ => false
                    | _ => true
                    end) (seq 0 (S (length dir))) = true ->
  forall q c, q `prefix_of` dir -> kind_at n q <> IsFile c.
Proof.
  intros H q c (k & ->) K. rewrite forallb_forall in H.
  specialize (H (length q)). rewrite take_app_length, K in H.
  discriminate H. apply in_seq. rewrite length_app. lia.
Qed.


(** ** What a call that returned has done *)

Lemma bind_ret_inv {A B} (m : M A) (k : A -> M B) (w w' : world) (b : B) :
  bind m k w = (Ret b, w') ->
  exists a w1, m w = (Ret a, w1) /\ k a w1 = (Ret b, w').
Proof.
  unfold bind. destruct (m w) as [[a|status|e] w1]; try discriminate.
  intros E. now exists a, w1.
Qed.

Lemma write_ret (p : list (list N)) (contenido : list N) (w w' : world) :
  write_text p contenido w = (Ret tt, w') ->
  utf8_text contenido = true
  /\ clock w' = clock w
  /\ stdout w' = stdout w
  /\ kind_at (fs w') p = IsFile contenido
  /\ (forall q, ~ p `prefix_of` q -> kind_at (fs w') q = kind_at (fs w) q).
Proof.
  intros E.
  assert (utf8_text contenido = true
          /\ exists n, node_insert (fs w) p (File contenido) = Some n
                       /\ w' = with_fs w n) as (Hu & n & Ei & ->).
  { unfold write_text in E.
    destruct (node_lookup (fs w) p) as [[|]|]; try discriminate E;
      (destruct (utf8_text contenido);
       [destruct (node_insert (fs w) p (File contenido)) as [n|];
        [|discriminate E]
       |destruct (node_insert (fs w) p (File [])); discriminate E]);
      apply pair_equal_spec in E as [_ <-]; eauto. }
  split; [exact Hu|]. split; [reflexivity|]. split; [reflexivity|].
  cbn [with_fs fs]. split.
  - apply kind_file. now apply (insert_lookup _ _ _ _ Ei).
  - now apply (insert_frame _ _ _ _ Ei).
Qed.

Lemma read_ret (p : list (list N)) (leido : list N) (w w' : world) :
  read_text p w = (Ret leido, w') ->
  w' = w
  /\ exists c, kind_at (fs w) p = IsFile c /\ utf8_text c = true
               /\ leido = universal_newlines c.
Proof.
  unfold read_text, kind_at.
  destruct (node_lookup (fs w) p) as [[c|]|]; try discriminate.
  destruct (utf8_text c) eqn:Hu; [|discriminate].
  intros E. apply pair_equal_spec in E as [E <-]. injection E as <-.
  split; [reflexivity|]. now exists c.
Qed.

Lemma copiar_ret (origen destino : list (list N))
    (variables : list (list N * list N)) (w w' : world) :
  copiar_plantilla origen destino variables w = (Ret tt, w') ->
  exists c,
    kind_at (fs w) origen = IsFile c
    /\ utf8_text c = true
    /\ utf8_text (sustituir_placeholders (universal_newlines c) variables)
       = true
    /\ clock w' = clock w
    /\ stdout w' = stdout w
    /\ kind_at (fs w') destino
       = IsFile (sustituir_placeholders (universal_newlines c) variables)
    /\ (forall q, ~ destino `prefix_of` q ->
                  kind_at (fs w') q = kind_at (fs w) q).
Proof.
  intros E. unfold copiar_plantilla in E.
  apply bind_ret_inv in E as (leido & w1 & Er & Ew).
  apply read_ret in Er as (-> & c & Kc & Hu & ->).
  apply write_ret in Ew as (He & Hc & Hs & Kd & Hf).
  exists c. auto 10.
Qed.

(** An artifact is copied from its template when the template is there;
    [alt] runs otherwise. The step has returned in a world [w] that comes
    from [w0], where the template was what it is. *)
Lemma etapa_ret (w0 w w' : world) (origen destino : list (list N))
    (variables : list (list N * list N)) (alt : M unit) (otherwise : kind)
    (lines : list (list N)) :
  (kind_at (fs w) origen = IsDir \/ kind_at (fs w) origen = kind_at (fs w0) origen) ->
  (forall w'', alt w = (Ret tt, w'') ->
     clock w'' = clock w
     /\ stdout w'' = stdout w ++ lines
     /\ kind_at (fs w'') destino = otherwise
     /\ (forall q, ~ destino `prefix_of` q ->
                   kind_at (fs w'') q = kind_at (fs w) q)) ->
  (existe <- path_exists origen ;;
   if existe then copiar_plantilla origen destino variables else alt) w
  = (Ret tt, w') ->
  clock w' = clock w
  /\ stdout w' = stdout w ++ (if exists_in (fs w0) origen then [] else lines)
  /\ kind_at (fs w') destino
     = match kind_at (fs w0) origen with
       | IsFile c =>
         IsFile (sustituir_placeholders (universal_newlines c) variables)
       | _ => otherwise
       end
  /\ (forall q, ~ destino `prefix_of` q ->
                kind_at (fs w') q = kind_at (fs w) q).
Proof.
  intros H0 Halt E. erewrite bind_Ret in E by reflexivity.
  rewrite (exists_kind (fs w0)). rewrite exists_kind in E.
  destruct (kind_at (fs w) origen) as [|c|] eqn:K.
  - destruct H0 as [H0|H0]; [discriminate H0|]. rewrite <- H0.
    now apply Halt.
  - destruct H0 as [H0|H0]; [discriminate H0|]. rewrite <- H0.
    apply copiar_ret in E as (c' & Kc & _ & _ & Hc & Hs & Kd & Hf).
    rewrite K in Kc. injection Kc as <-. rewrite app_nil_r. auto.
  - exfalso. apply copiar_ret in E as (c' & Kc & _). rewrite K in Kc.
    discriminate Kc.
Qed.

Section Returned.
Context {U : UnicodeData}.
Variable TEMPLATES_DIR : list (list N).

(** The store lies outside a target that does not exist yet. *)
Lemma target_outside (n : node) (dir : list (list N)) (x t : list N) :
  exists_in n TEMPLATES_DIR = true -> kind_at n dir = Absent ->
  ~ (dir ++ [x]) `prefix_of` (TEMPLATES_DIR ++ [t]).
Proof.
  intros Hs Hd (k & E).
  destruct k as [|z k _] using rev_ind.
  - rewrite app_nil_r in E. apply app_inj_tail in E as [E _].
    rewrite exists_kind, E, Hd in Hs. discriminate Hs.
  - rewrite app_assoc in E. apply app_inj_tail in E as [E _].
    rewrite <- app_assoc in E.
    rewrite exists_kind, E, (below_absent _ _ _ Hd) in Hs. discriminate Hs.
Qed.

Lemma target_apart (n : node) (dir : list (list N)) (x : list N) :
  exists_in n TEMPLATES_DIR = true -> kind_at n dir = Absent ->
  ~ (dir ++ [x]) `prefix_of` TEMPLATES_DIR.
Proof.
  intros Hs Hd (k & E). rewrite <- app_assoc in E.
  rewrite exists_kind, E, (below_absent _ _ _ Hd) in Hs. discriminate Hs.
Qed.

(** A template that is a directory cannot be read. *)
Lemma etapa_dir (w : world) (origen destino : list (list N))
    (variables : list (list N * list N)) (alt : M unit) :
  kind_at (fs w) origen = IsDir ->
  (existe <- path_exists origen ;;
   if existe then copiar_plantilla origen destino variables else alt) w
  = (Raise IsADirectoryError, w).
Proof.
  intros H. erewrite bind_Ret by reflexivity.
  rewrite exists_present by congruence. unfold copiar_plantilla.
  apply bind_Raise. unfold read_text. apply kind_dir in H as (m & ->).
  reflexivity.
Qed.

End Returned.

Section Written.
Variable TEMPLATES_DIR : list (list N).

(** The statements after the checks, when they return: the directory and
    what leads to it are directories, each artifact is the copy of its
    template or what the program writes without template, nothing else
    stands in the directory, the store is still there, and the summary is
    printed. *)
Lemma escribir_ret (info : tipo_info) (nombre autor fecha slug : list N)
    (dir : list (list N)) (w w' : world) :
  plantilla info <> [] ->
  exists_in (fs w) TEMPLATES_DIR = true ->
  kind_at (fs w) dir = Absent ->
  escribir_proyecto TEMPLATES_DIR info nombre autor fecha slug dir w
  = (Ret tt, w') ->
  let variables := variables_de nombre autor fecha slug in
  clock w' = clock w
  /\ stdout w'
     = stdout w
       ++ (if exists_in (fs w) (TEMPLATES_DIR </> plantilla info) then []
           else aviso_tex TEMPLATES_DIR info)
       ++ resumen info nombre autor slug dir
  /\ exists_in (fs w') TEMPLATES_DIR = true
  /\ (forall q, q `prefix_of` dir -> kind_at (fs w') q = IsDir)
  /\ kind_at (fs w') (dir </> py "figuras") = IsDir
  /\ (forall y, kind_at (fs w') ((dir </> py "figuras") ++ [y]) = Absent)
  /\ kind_at (fs w') (dir </> (slug ++ py ".tex"))
     = match kind_at (fs w) (TEMPLATES_DIR </> plantilla info) with
       | IsFile c =>
         IsFile (sustituir_placeholders (universal_newlines c) variables)
       | _ => IsFile (tex_minimo info nombre autor fecha)
       end
  /\ kind_at (fs w') (dir </> py "referencias.bib")
     = match kind_at (fs w) (TEMPLATES_DIR </> py "referencias.bib") with
       | IsFile c =>
         IsFile (sustituir_placeholders (universal_newlines c) variables)
       | _ => IsFile bib_minima
       end
  /\ kind_at (fs w') (dir </> py "Makefile")
     = match kind_at (fs w) (TEMPLATES_DIR </> py "Makefile") with
       | IsFile c =>
         IsFile (sustituir_placeholders (universal_newlines c) variables)
       | _ => Absent
       end
  /\ kind_at (fs w') (dir </> py ".gitignore") = IsFile gitignore_contenido
  /\ (forall y, ~ In y (artefactos slug) ->
                kind_at (fs w') (dir ++ [y]) = Absent).
Proof.
  intros Hne Hs Hfree E variables.
  unfold escribir_proyecto in E. unfold aviso_tex. cbv zeta in E.
  fold variables in E.
  rewrite (path_join_snoc _ (plantilla info) Hne) in *.
  rewrite !(path_join_snoc _ (py "figuras")) in * by (vm_compute; discriminate).
  rewrite !(path_join_snoc _ (py "referencias.bib")) in *
    by (vm_compute; discriminate).
  rewrite !(path_join_snoc _ (py "Makefile")) in * by (vm_compute; discriminate).
  rewrite !(path_join_snoc _ (py ".gitignore")) in *
    by (vm_compute; discriminate).
  rewrite !(path_join_snoc _ (slug ++ py ".tex")) in *
    by (apply tex_not_name; vm_compute; discriminate).
  (* the target and what leads to it *)
  destruct (make_dirs (fs w) dir) as [n2|] eqn:Emk; cycle 1.
  { erewrite bind_Raise in E; [discriminate E|].
    unfold path_mkdir. now rewrite (exists_absent _ _ Hfree), Emk. }
  erewrite bind_Ret in E; cycle 1.
  { unfold path_mkdir. now rewrite (exists_absent _ _ Hfree), Emk. }
  destruct (make_dirs_spec _ _ _ Emk Hfree) as (D2 & N2 & B2 & M2).
  pose proof (make_dirs_way _ _ _ Emk Hfree) as W2.
  set (w2 := with_fs w n2) in *.
  destruct (mkdir_under false w2 dir (py "figuras") D2 (N2 _))
    as (w3 & E3 & C3 & K3 & M3 & F3).
  rewrite (bind_Ret _ _ _ _ _ E3) in E.
  pose proof (mkdir_stdout _ _ _ _ _ E3) as S3.
  (* a template is in the new worlds what it was, unless it has become a
     directory *)
  assert (forall q, kind_at n2 q = IsDir
                    \/ kind_at n2 q = kind_at (fs w) q) as H2.
  { intros q. destruct (kind_at n2 q) as [|c|] eqn:K; [|right|now left].
    - right. destruct (kind_at (fs w) q) eqn:K0; [reflexivity| |];
        exfalso; apply (M2 q); congruence.
    - symmetry. now apply B2. }
  assert (forall x t, ~ (dir ++ [x]) `prefix_of` (TEMPLATES_DIR ++ [t])) as Ho
    by (intros x t; now apply (target_outside _ (fs w))).
  assert (forall x, ~ (dir ++ [x]) `prefix_of` TEMPLATES_DIR) as Hap
    by (intros x; now apply (target_apart _ (fs w))).
  assert (forall q, q `prefix_of` dir -> forall x,
            ~ (dir ++ [x]) `prefix_of` q) as Hup.
  { intros q (k' & E') x (k & Ek).
    rewrite Ek, <- !app_assoc in E'. apply (f_equal length) in E'.
    rewrite !length_app in E'. cbn [length] in E'. lia. }
  assert (kind_at (fs w3) dir = IsDir) as D3 by (rewrite F3 by outside; exact D2).
  assert (forall y, py "figuras" <> y -> kind_at (fs w3) (dir ++ [y]) = Absent)
    as A3.
  { intros y Hy. rewrite F3 by outside. apply N2. }
  (* the main document *)
  apply bind_ret_inv in E as ([] & w4 & E4 & E).
  apply (etapa_ret w _ _ _ _ _ _
           (IsFile (tex_minimo info nombre autor fecha))
           [py "Advertencia: No se encontró "
            ++ str_of_path (TEMPLATES_DIR ++ [plantilla info]);
            py "Creando archivo .tex mínimo..."]) in E4
    as (C4 & S4 & K4 & F4); cycle 1.
  { rewrite F3 by apply Ho. apply H2. }
  { intros wx Ex. erewrite bind_Ret in Ex by apply print_run.
    erewrite bind_Ret in Ex by apply print_run.
    apply write_ret in Ex as (_ & Hc & Hst & Hk & Hf).
    cbn [printed fs clock stdout] in Hc, Hst, Hf.
    rewrite <- app_assoc in Hst. auto. }
  assert (forall y, py "figuras" <> y -> slug ++ py ".tex" <> y ->
                    kind_at (fs w4) (dir ++ [y]) = Absent) as A4.
  { intros y Hy Hy'. rewrite F4 by outside. now apply A3. }
  (* the bibliography *)
  apply bind_ret_inv in E as ([] & w5 & E5 & E).
  apply (etapa_ret w _ _ _ _ _ _ (IsFile bib_minima) []) in E5
    as (C5 & S5 & K5 & F5); cycle 1.
  { rewrite F4, F3 by apply Ho. apply H2. }
  { intros wx Ex. apply write_ret in Ex as (_ & Hc & Hst & Hk & Hf).
    rewrite app_nil_r. auto. }
  assert (forall y, py "figuras" <> y -> slug ++ py ".tex" <> y ->
                    py "referencias.bib" <> y ->
                    kind_at (fs w5) (dir ++ [y]) = Absent) as A5.
  { intros y Hy Hy' Hy''. rewrite F5 by outside. now apply A4. }
  (* the build file *)
  apply bind_ret_inv in E as ([] & w6 & E6 & E).
  apply (etapa_ret w _ _ _ _ _ _ Absent []) in E6
    as (C6 & S6 & K6 & F6); cycle 1.
  { rewrite F5, F4, F3 by apply Ho. apply H2. }
  { intros wx Ex. apply pair_equal_spec in Ex as [_ <-].
    rewrite app_nil_r. split; [reflexivity|]. split; [reflexivity|].
    split; [apply A5; names_differ|reflexivity]. }
  (* the ignore list *)
  apply bind_ret_inv in E as ([] & w7 & E7 & E).
  apply write_ret in E7 as (_ & C7 & S7 & K7 & F7).
  repeat (erewrite bind_Ret in E by apply print_run; rewrite ?printed_app in E).
  rewrite print_run, printed_app in E.
  apply pair_equal_spec in E as [_ <-]. cbn [printed fs clock stdout].
  split; [rewrite C7, C6, C5, C4, C3; reflexivity|].
  split.
  { rewrite S7, S6, S5, S4, S3. cbn [w2 with_fs stdout].
    unfold resumen.
    destruct (exists_in (fs w) (TEMPLATES_DIR ++ [py "referencias.bib"])),
      (exists_in (fs w) (TEMPLATES_DIR ++ [py "Makefile"])),
      (exists_in (fs w) (TEMPLATES_DIR ++ [plantilla info]));
      rewrite ?app_nil_r, <- ?app_assoc; reflexivity. }
  split.
  { apply exists_present. rewrite F7, F6, F5, F4, F3 by apply Hap.
    apply M2. intros K. rewrite exists_kind, K in Hs. discriminate Hs. }
  split.
  { intros q Hq. rewrite F7, F6, F5, F4, F3 by now apply Hup.
    now apply W2. }
  split; [rewrite F7, F6, F5, F4 by outside; exact K3|].
  split.
  { intros y.
    rewrite F7, F6, F5, F4
      by (rewrite <- app_assoc; apply not_prefix_cousin; names_differ).
    apply M3. }
  split; [rewrite F7, F6, F5 by outside; exact K4|].
  split; [rewrite F7, F6 by outside; exact K5|].
  split; [rewrite F7 by outside; exact K6|].
  split; [exact K7|].
  intros y Hy. unfold artefactos in Hy. cbn [In] in Hy.
  rewrite F7 by (apply not_prefix_sibling; intros ?; tauto).
  rewrite F6 by (apply not_prefix_sibling; intros ?; tauto).
  apply A5; intros ?; tauto.
Qed.

End Written.

Section Outcomes.
Context {U : UnicodeData}.
Variable TEMPLATES_DIR : list (list N).

(** A run that returns has passed the four checks and has written the
    project. *)
Lemma crear_proyecto_ret_inv (nombre tipo autor : list N)
    (base : list (list N)) (w w' : world) :
  crear_proyecto TEMPLATES_DIR nombre tipo autor base w = (Ret tt, w') ->
  exists info mes,
    assoc tipo TIPOS = Some info
    /\ assoc (month (clock w)) meses_es = Some mes
    /\ plantilla info <> []
    /\ exists_in (fs w) TEMPLATES_DIR = true
    /\ kind_at (fs w) (base </> slugify nombre) = Absent
    /\ escribir_proyecto TEMPLATES_DIR info nombre autor
         (formato_fecha (clock w) mes) (slugify nombre)
         (base </> slugify nombre) (printed w (avisos TEMPLATES_DIR (fs w)))
       = (Ret tt, w').
Proof.
  rewrite crear_proyecto_cases.
  destruct (assoc tipo TIPOS) as [info|] eqn:Ht; [|discriminate].
  destruct (exists_in (fs w) TEMPLATES_DIR) eqn:Hs; [|discriminate].
  destruct (assoc (month (clock w)) meses_es) as [mes|]; [|discriminate].
  destruct (exists_in (fs w) (base </> slugify nombre)) eqn:Hd; [discriminate|].
  intros E. exists info, mes.
  split; [reflexivity|]. split; [reflexivity|]. split.
  { pose proof (tipos_plantilla _ _ Ht) as Hdot. intros K.
    rewrite K in Hdot. destruct Hdot. }
  split; [reflexivity|]. split; [|exact E].
  rewrite exists_kind in Hd.
  destruct (kind_at (fs w) (base </> slugify nombre));
    [reflexivity|discriminate Hd..].
Qed.

(** What a run that returns has done *)
Lemma crear_proyecto_ret (nombre tipo autor : list N) (base : list (list N))
    (w w' : world) :
  crear_proyecto TEMPLATES_DIR nombre tipo autor base w = (Ret tt, w') ->
  let dir := base </> slugify nombre in
  (exists info, assoc tipo TIPOS = Some info)
  /\ (exists mes, assoc (month (clock w)) meses_es = Some mes)
  /\ exists_in (fs w) TEMPLATES_DIR = true
  /\ kind_at (fs w) dir = Absent
  /\ clock w' = clock w
  /\ kind_at (fs w') dir = IsDir
  /\ exists_in (fs w') TEMPLATES_DIR = true
  /\ (kind_at (fs w) (TEMPLATES_DIR </> py "referencias.bib") = Absent ->
      kind_at (fs w') (dir </> py "referencias.bib") = IsFile bib_minima).
Proof.
  intros E dir.
  destruct (crear_proyecto_ret_inv _ _ _ _ _ _ E)
    as (info & mes & Ht & Em & Hne & Hs & Hfree & Ew).
  destruct (escribir_ret TEMPLATES_DIR _ _ _ _ _ _
              (printed w (avisos TEMPLATES_DIR (fs w))) _ Hne Hs Hfree Ew)
    as (Hc & _ & Hs' & Hway & _ & _ & _ & Kbib & _).
  cbn [printed fs clock] in Hc, Kbib.
  split; [eauto|]. split; [eauto|]. split; [exact Hs|]. split; [exact Hfree|].
  split; [exact Hc|]. split; [apply Hway; reflexivity|]. split; [exact Hs'|].
  intros Hb. fold dir in Kbib. rewrite Kbib, Hb. reflexivity.
Qed.

End Outcomes.

(** ** Properties of the runs *)

Lemma avisos_falta (TEMPLATES_DIR : list (list N)) (n : node) (a : list N) :
  In a archivos_necesarios ->
  exists_in n (TEMPLATES_DIR </> a) = false ->
  exists rest,
    avisos TEMPLATES_DIR n
    = (py "Advertencia: Faltan plantillas en " ++ str_of_path TEMPLATES_DIR
       ++ py ":") :: rest
    /\ In (py "  - " ++ a) rest.
Proof.
  intros Ha He.
  assert (In a (faltantes_en TEMPLATES_DIR n)) as Hin.
  { unfold faltantes_en. apply List.filter_In. split; [exact Ha|].
    now rewrite He. }
  unfold avisos. destruct (faltantes_en TEMPLATES_DIR n) as [|b l] eqn:E;
    [destruct Hin|].
  eexists. split; [reflexivity|]. apply in_or_app. left.
  now apply (in_map (fun f => py "  - " ++ f)).
Qed.

(** C3. When the target directory exists (the type being known and the
    store being there), the run leaves through [sys.exit(1)] after printing
    the collision error, and the file system is the one it found. A run that
    returned is followed, with the same arguments, by such a run. *)
Theorem target_collision (U : UnicodeData) (TEMPLATES_DIR : list (list N))
    (nombre tipo autor : list N) (base : list (list N)) :
  (forall w info,
     assoc tipo TIPOS = Some info ->
     exists_in (fs w) TEMPLATES_DIR = true ->
     1 <= month (clock w) <= 12 ->
     exists_in (fs w) (base </> slugify nombre) = true ->
     crear_proyecto TEMPLATES_DIR nombre tipo autor base w
     = (Exit 1,
        {| fs := fs w;
           stdout := stdout w ++ avisos TEMPLATES_DIR (fs w)
                     ++ colision (base </> slugify nombre);
           clock := clock w |}))
  /\ (forall w w1,
        crear_proyecto TEMPLATES_DIR nombre tipo autor base w = (Ret tt, w1) ->
        crear_proyecto TEMPLATES_DIR nombre tipo autor base w1
        = (Exit 1,
           {| fs := fs w1;
              stdout := stdout w1 ++ avisos TEMPLATES_DIR (fs w1)
                        ++ colision (base </> slugify nombre);
              clock := clock w1 |})).
Proof.
  split.
  - intros w info Ht Hs Hm Hd. destruct (mes_valido _ Hm) as (mes & Em).
    now apply (crear_colision TEMPLATES_DIR _ _ _ _ _ info mes).
  - intros w w1 E.
    destruct (crear_proyecto_ret TEMPLATES_DIR _ _ _ _ _ _ E)
      as ((info & Ht) & (mes & Em) & _ & _ & Hc & Hd & Hs & _).
    apply (crear_colision TEMPLATES_DIR _ _ _ _ _ info mes); auto.
    + now rewrite Hc.
    + apply exists_present. rewrite Hd. discriminate.
Qed.

Lemma target_collision_witness :
  let w1 := snd (@crear_proyecto latin1_data plantillas_ejemplo
                   (py "Mi artículo") (py "art") (py "Juan Pérez")
                   [py "home"; py "ana"] mundo_ejemplo) in
  @crear_proyecto latin1_data plantillas_ejemplo
    (py "Mi artículo") (py "art") (py "Juan Pérez") [py "home"; py "ana"] w1
  = (Exit 1,
     {| fs := fs w1;
        stdout := stdout w1 ++ avisos plantillas_ejemplo (fs w1)
                  ++ colision ([py "home"; py "ana"]
                               </> @slugify latin1_data (py "Mi artículo"));
        clock := clock w1 |}).
Proof.
  intros w1.
  apply (proj2 (target_collision latin1_data plantillas_ejemplo
                  (py "Mi artículo") (py "art") (py "Juan Pérez")
                  [py "home"; py "ana"]) mundo_ejemplo w1).
  subst w1. rewrite (surjective_pairing (crear_proyecto _ _ _ _ _ _)) at 1.
  f_equal; vm_compute; reflexivity.
Defined.




(** C8. When the store has no [referencias.bib] and the run returns, the
    project holds a [referencias.bib] whose text is the one comment line. *)
Theorem bibliografia_minima (U : UnicodeData) (TEMPLATES_DIR : list (list N))
    (nombre tipo autor : list N) (base : list (list N)) (w w' : world) :
  crear_proyecto TEMPLATES_DIR nombre tipo autor base w = (Ret tt, w') ->
  kind_at (fs w) (TEMPLATES_DIR </> py "referencias.bib") = Absent ->
  kind_at (fs w') (base </> slugify nombre </> py "referencias.bib")
  = IsFile bib_minima
  /\ bib_minima = py "% Referencias bibliográficas" ++ [10].
Proof.
  intros E H. split; [|reflexivity].
  destruct (crear_proyecto_ret TEMPLATES_DIR _ _ _ _ _ _ E)
    as (_ & _ & _ & _ & _ & _ & _ & K).
  exact (K H).
Qed.

Lemma bibliografia_minima_witness :
  kind_at
    (fs (snd (@crear_proyecto latin1_data plantillas_ejemplo
                (py "Mi artículo") (py "art") (py "Juan Pérez")
                [py "home"; py "ana"] mundo_ejemplo)))
    ([py "home"; py "ana"] </> @slugify latin1_data (py "Mi artículo")
     </> py "referencias.bib")
  = IsFile bib_minima
  /\ bib_minima = py "% Referencias bibliográficas" ++ [10].
Proof.
  apply (bibliografia_minima latin1_data plantillas_ejemplo
           (py "Mi artículo") (py "art") (py "Juan Pérez")
           [py "home"; py "ana"] mundo_ejemplo).
  - rewrite (surjective_pairing (crear_proyecto _ _ _ _ _ _)) at 1.
    f_equal; vm_compute; reflexivity.
  - vm_compute. reflexivity.
Defined.

(** C10, as amended. A title without word characters has the empty slug, and
    the target is the base directory itself. If that directory exists, the
    run leaves through [sys.exit(1)] and the file system is the one it found;
    with a known type and an existing store what it prints is the collision
    error on the base directory, and otherwise the error of the unknown type
    or the guide of the missing store: no message is about the title. *)
Theorem empty_slug_collision (U : UnicodeData) (L : UnicodeLaws U)
    (TEMPLATES_DIR : list (list N)) (nombre tipo autor : list N)
    (base : list (list N)) (w : world) :
  (forall c, In c nombre -> re_word c = false) ->
  exists_in (fs w) base = true ->
  1 <= month (clock w) <= 12 ->
  slugify nombre = []
  /\ base </> slugify nombre = base
  /\ crear_proyecto TEMPLATES_DIR nombre tipo autor base w
     = (Exit 1,
        {| fs := fs w;
           stdout :=
             stdout w ++
             match assoc tipo TIPOS with
             | None => error_tipo tipo
             | Some _ =>
               if exists_in (fs w) TEMPLATES_DIR
               then avisos TEMPLATES_DIR (fs w) ++ colision base
               else guia TEMPLATES_DIR
             end;
           clock := clock w |}).
Proof.
  intros Hn Hb Hm.
  pose proof (slugify_no_word nombre Hn) as Es.
  assert (base </> slugify nombre = base) as Ed by now rewrite Es.
  split; [exact Es|]. split; [exact Ed|].
  destruct (assoc tipo TIPOS) as [info|] eqn:Ht.
  - destruct (exists_in (fs w) TEMPLATES_DIR) eqn:Hs.
    + destruct (mes_valido _ Hm) as (mes & Em).
      rewrite (crear_colision TEMPLATES_DIR _ _ _ _ _ info mes Ht Hs Em);
        rewrite Ed; [reflexivity|exact Hb].
    + now apply (crear_sin_plantillas TEMPLATES_DIR _ _ _ _ _ info).
  - now apply crear_tipo_desconocido.
Qed.

Lemma empty_slug_collision_witness :
  @slugify latin1_data (py "¡¿ ... ?!") = []
  /\ [py "home"; py "ana"] </> @slugify latin1_data (py "¡¿ ... ?!")
     = [py "home"; py "ana"]
  /\ @crear_proyecto latin1_data plantillas_ejemplo (py "¡¿ ... ?!") (py "art")
       (py "Juan Pérez") [py "home"; py "ana"] mundo_ejemplo
     = (Exit 1,
        {| fs := fs mundo_ejemplo;
           stdout :=
             stdout mundo_ejemplo ++
             match assoc (py "art") TIPOS with
             | None => error_tipo (py "art")
             | Some _ =>
               if exists_in (fs mundo_ejemplo) plantillas_ejemplo
               then avisos plantillas_ejemplo (fs mundo_ejemplo)
                    ++ colision [py "home"; py "ana"]
               else guia plantillas_ejemplo
             end;
           clock := clock mundo_ejemplo |}).
Proof.
  apply (empty_slug_collision latin1_data latin1_laws plantillas_ejemplo
           (py "¡¿ ... ?!") (py "art") (py "Juan Pérez")
           [py "home"; py "ana"] mundo_ejemplo).
  - apply List.Forall_forall. vm_compute. repeat constructor.
  - vm_compute. reflexivity.
  - cbn [mundo_ejemplo clock month]. lia.
Defined.

(** Without store, the run on an empty slug stops on the missing store and
    prints no collision error. *)
Lemma empty_slug_other_error :
  let r := @crear_proyecto latin1_data [py "sin-plantillas"] (py "!!!")
             (py "art") (py "Juan Pérez") [py "home"; py "ana"] mundo_ejemplo in
  @slugify latin1_data (py "!!!") = []
  /\ exists_in (fs mundo_ejemplo) [py "home"; py "ana"] = true
  /\ fst r = Exit 1
  /\ stdout (snd r) = guia [py "sin-plantillas"]
  /\ ~ In (py "Elige otro nombre o elimina el directorio existente.")
         (stdout (snd r)).
Proof.
  cbv zeta. split; [vm_compute; reflexivity|].
  split; [vm_compute; reflexivity|]. split; [vm_compute; reflexivity|].
  split; [vm_compute; reflexivity|].
  intros H. apply list_elem_of_In in H. revert H.
  apply (bool_decide_eq_false_1 _). vm_compute. reflexivity.
Qed.

(** ** Further properties of the runs *)

(** X9. A run that leaves through [sys.exit] has the status 1, has printed one
    of the three errors (unknown type, missing store, existing target) and
    leaves the file system and the clock as it found them. *)
Theorem salida_limpia (U : UnicodeData) (TEMPLATES_DIR : list (list N))
    (nombre tipo autor : list N) (base : list (list N)) (w w' : world)
    (status : Z) :
  crear_proyecto TEMPLATES_DIR nombre tipo autor base w = (Exit status, w') ->
  status = 1%Z
  /\ fs w' = fs w
  /\ clock w' = clock w
  /\ (stdout w' = stdout w ++ error_tipo tipo
      \/ stdout w' = stdout w ++ guia TEMPLATES_DIR
      \/ stdout w' = stdout w ++ avisos TEMPLATES_DIR (fs w)
                     ++ colision (base </> slugify nombre)).
Proof.
  rewrite crear_proyecto_cases.
  destruct (assoc tipo TIPOS) as [info|];
    [|intros [= <- <-]; cbn [printed fs clock stdout];
      repeat (split; [reflexivity|]); left; reflexivity].
  destruct (exists_in (fs w) TEMPLATES_DIR);
    [|intros [= <- <-]; cbn [printed fs clock stdout];
      repeat (split; [reflexivity|]); right; left; reflexivity].
  destruct (assoc (month (clock w)) meses_es) as [mes|]; [|discriminate].
  destruct (exists_in (fs w) (base </> slugify nombre)).
  { intros E. apply pair_equal_spec in E as [E1 E2].
    injection E1 as <-. subst w'. cbn [printed fs clock stdout].
    split; [reflexivity|]. split; [reflexivity|]. split; [reflexivity|].
    right. right. reflexivity. }
  intros E. exfalso.
  apply (escribir_never_exits TEMPLATES_DIR info nombre autor
           (formato_fecha (clock w) mes) (slugify nombre)
           (base </> slugify nombre)
           (printed w (avisos TEMPLATES_DIR (fs w))) status).
  now rewrite E.
Qed.

Lemma salida_limpia_witness :
  (1 = 1)%Z
  /\ fs (printed mundo_ejemplo (error_tipo (py "tesis"))) = fs mundo_ejemplo
  /\ clock (printed mundo_ejemplo (error_tipo (py "tesis")))
     = clock mundo_ejemplo
  /\ (stdout (printed mundo_ejemplo (error_tipo (py "tesis")))
      = stdout mundo_ejemplo ++ error_tipo (py "tesis")
      \/ stdout (printed mundo_ejemplo (error_tipo (py "tesis")))
         = stdout mundo_ejemplo ++ guia plantillas_ejemplo
      \/ stdout (printed mundo_ejemplo (error_tipo (py "tesis")))
         = stdout mundo_ejemplo ++ avisos plantillas_ejemplo (fs mundo_ejemplo)
           ++ colision ([py "home"; py "ana"]
                        </> @slugify latin1_data (py "Mi tesis"))).
Proof.
  apply (salida_limpia latin1_data plantillas_ejemplo (py "Mi tesis")
           (py "tesis") (py "Ana") [py "home"; py "ana"] mundo_ejemplo).
  vm_compute. reflexivity.
Defined.

(** X10. Whatever its arguments, the world and its outcome, a run moves no clock,
    changes nothing that existed (no file is rewritten or removed, no
    directory becomes a file) and creates nothing but on the way to the
    directory of the project and under it. *)
Theorem nada_se_pierde (U : UnicodeData) (TEMPLATES_DIR : list (list N))
    (nombre tipo autor : list N) (base : list (list N)) (w : world) :
  let w' := snd (crear_proyecto TEMPLATES_DIR nombre tipo autor base w) in
  let dir := base </> slugify nombre in
  clock w' = clock w
  /\ (forall q, kind_at (fs w) q <> Absent ->
                kind_at (fs w') q = kind_at (fs w) q)
  /\ (forall q, ~ q `prefix_of` dir -> ~ dir `prefix_of` q ->
                kind_at (fs w') q = kind_at (fs w) q).
Proof.
  cbv zeta. rewrite crear_proyecto_cases.
  destruct (assoc tipo TIPOS) as [info|]; [|now repeat split].
  destruct (exists_in (fs w) TEMPLATES_DIR); [|now repeat split].
  destruct (assoc (month (clock w)) meses_es) as [mes|]; [|now repeat split].
  destruct (exists_in (fs w) (base </> slugify nombre)) eqn:Hd;
    [now repeat split|].
  destruct (escribir_keeps TEMPLATES_DIR info nombre autor
              (formato_fecha (clock w) mes) (slugify nombre)
              (base </> slugify nombre)
              (printed w (avisos TEMPLATES_DIR (fs w)))) as [Hc Hf].
  cbn [printed fs clock] in Hc, Hf.
  split; [exact Hc|]. split.
  - intros q Hq. apply Hf; [|congruence].
    intros (k & ->). apply Hq. apply below_absent.
    rewrite exists_kind in Hd.
    destruct (kind_at (fs w) (base </> slugify nombre));
      [reflexivity|discriminate Hd..].
  - intros q H1 H2. apply Hf; [exact H2|]. intros _. exact H1.
Qed.

(** X11. A run that has returned was of a known type, in a month of the
    table, and nothing stood at the directory of the project. After it,
    the directory of the project and everything that leads to it are
    directories; [figuras] is an empty directory; the document, the
    bibliography and the build file hold the text read from their templates
    (line ends as [read_text] gives them) with TITULO, AUTOR, FECHA and
    NOMBRE_ARCHIVO replaced in this order, or else the minimal document, the
    minimal bibliography and no build file; the ignore list is written; and
    the directory holds nothing else. *)
Theorem proyecto_completo (U : UnicodeData) (TEMPLATES_DIR : list (list N))
    (nombre tipo autor : list N) (base : list (list N)) (w w' : world) :
  crear_proyecto TEMPLATES_DIR nombre tipo autor base w = (Ret tt, w') ->
  exists info mes,
    assoc tipo TIPOS = Some info
    /\ assoc (month (clock w)) meses_es = Some mes
    /\ let slug := slugify nombre in
       let dir := base </> slug in
       let variables :=
         [ (py "TITULO", nombre); (py "AUTOR", autor);
           (py "FECHA", formato_fecha (clock w) mes);
           (py "NOMBRE_ARCHIVO", slug) ] in
       kind_at (fs w) dir = Absent
       /\ (forall q, q `prefix_of` dir -> kind_at (fs w') q = IsDir)
       /\ kind_at (fs w') (dir </> py "figuras") = IsDir
       /\ (forall y, kind_at (fs w') ((dir </> py "figuras") ++ [y]) = Absent)
       /\ kind_at (fs w') (dir </> (slug ++ py ".tex"))
          = match kind_at (fs w) (TEMPLATES_DIR </> plantilla info) with
            | IsFile c =>
              IsFile (sustituir_placeholders (universal_newlines c) variables)
            | _ => IsFile (tex_minimo info nombre autor
                             (formato_fecha (clock w) mes))
            end
       /\ kind_at (fs w') (dir </> py "referencias.bib")
          = match kind_at (fs w) (TEMPLATES_DIR </> py "referencias.bib") with
            | IsFile c =>
              IsFile (sustituir_placeholders (universal_newlines c) variables)
            | _ => IsFile bib_minima
            end
       /\ kind_at (fs w') (dir </> py "Makefile")
          = match kind_at (fs w) (TEMPLATES_DIR </> py "Makefile") with
            | IsFile c =>
              IsFile (sustituir_placeholders (universal_newlines c) variables)
            | _ => Absent
            end
       /\ kind_at (fs w') (dir </> py ".gitignore")
          = IsFile gitignore_contenido
       /\ (forall y, ~ In y (artefactos slug) ->
                     kind_at (fs w') (dir ++ [y]) = Absent).
Proof.
  intros E.
  destruct (crear_proyecto_ret_inv TEMPLATES_DIR _ _ _ _ _ _ E)
    as (info & mes & Ht & Em & Hne & Hs & Hfree & Ew).
  destruct (escribir_ret TEMPLATES_DIR _ _ _ _ _ _
              (printed w (avisos TEMPLATES_DIR (fs w))) _ Hne Hs Hfree Ew)
    as (_ & _ & _ & H).
  exists info, mes. split; [exact Ht|]. split; [exact Em|].
  split; [exact Hfree|]. exact H.
Qed.

(** X12. A run that has returned was of a known type, and its output is what
    it was before, then the warning on the files that the store lacks, the
    two lines on the minimal document when the template of the type is
    missing, and the summary of twenty-one lines. *)
Theorem resumen_impreso (U : UnicodeData) (TEMPLATES_DIR : list (list N))
    (nombre tipo autor : list N) (base : list (list N)) (w w' : world) :
  crear_proyecto TEMPLATES_DIR nombre tipo autor base w = (Ret tt, w') ->
  exists info,
    assoc tipo TIPOS = Some info
    /\ stdout w'
       = stdout w
         ++ avisos TEMPLATES_DIR (fs w)
         ++ (if exists_in (fs w) (TEMPLATES_DIR </> plantilla info) then []
             else aviso_tex TEMPLATES_DIR info)
         ++ resumen info nombre autor (slugify nombre)
              (base </> slugify nombre)
    /\ length (resumen info nombre autor (slugify nombre)
                 (base </> slugify nombre)) = 21%nat.
Proof.
  intros E.
  destruct (crear_proyecto_ret_inv TEMPLATES_DIR _ _ _ _ _ _ E)
    as (info & mes & Ht & Em & Hne & Hs & Hfree & Ew).
  destruct (escribir_ret TEMPLATES_DIR _ _ _ _ _ _
              (printed w (avisos TEMPLATES_DIR (fs w))) _ Hne Hs Hfree Ew)
    as (_ & S & _).
  exists info. split; [exact Ht|]. split; [|reflexivity].
  rewrite S. cbn [printed stdout fs]. rewrite <- app_assoc. reflexivity.
Qed.

(** X13. When the store has no [Makefile], a run that has returned has written
    none in the project, and yet its summary lists the [Makefile] among the
    files generated and tells to run [make]. *)
Theorem makefile_anunciado (U : UnicodeData) (TEMPLATES_DIR : list (list N))
    (nombre tipo autor : list N) (base : list (list N)) (w w' : world) :
  crear_proyecto TEMPLATES_DIR nombre tipo autor base w = (Ret tt, w') ->
  kind_at (fs w) (TEMPLATES_DIR </> py "Makefile") = Absent ->
  kind_at (fs w') (base </> slugify nombre </> py "Makefile") = Absent
  /\ In (py "    Makefile           ← Compilación") (stdout w')
  /\ In (py "    make               # Compilación completa") (stdout w').
Proof.
  intros E Hk.
  destruct (crear_proyecto_ret_inv TEMPLATES_DIR _ _ _ _ _ _ E)
    as (info & mes & Ht & Em & Hne & Hs & Hfree & Ew).
  destruct (escribir_ret TEMPLATES_DIR _ _ _ _ _ _
              (printed w (avisos TEMPLATES_DIR (fs w))) _ Hne Hs Hfree Ew)
    as (_ & S & _ & _ & _ & _ & _ & _ & K & _).
  split; [cbn [printed fs] in K; rewrite K, Hk; reflexivity|].
  rewrite S.
  split; apply in_or_app; right; apply in_or_app; right; unfold resumen.
  - do 11 right. left. reflexivity.
  - do 17 right. left. reflexivity.
Qed.

Lemma proyecto_completo_witness :
  let w' := snd (@crear_proyecto latin1_data plantillas_ejemplo
                   (py "Mi artículo") (py "art") (py "Juan Pérez")
                   [py "home"; py "ana"; py "docs"] mundo_ejemplo) in
  kind_at (fs w') [py "home"; py "ana"; py "docs"] = IsDir
  /\ kind_at (fs w')
       [py "home"; py "ana"; py "docs"; py "mi-articulo";
        py "mi-articulo.tex"]
     = IsFile (py "\title{Mi artículo} \author{Juan Pérez} \date{4 de noviembre de 2026}").
Proof.
  intros w'.
  destruct (proyecto_completo latin1_data plantillas_ejemplo
              (py "Mi artículo") (py "art") (py "Juan Pérez")
              [py "home"; py "ana"; py "docs"] mundo_ejemplo w')
    as (info & mes & Ht & Em & _ & Hway & _ & _ & Ktex & _).
  - subst w'. rewrite (surjective_pairing (crear_proyecto _ _ _ _ _ _)) at 1.
    f_equal; vm_compute; reflexivity.
  - split.
    + apply Hway. exists [py "mi-articulo"]. vm_compute. reflexivity.
    + vm_compute in Ht. injection Ht as <-.
      vm_compute in Em. injection Em as <-.
      vm_compute in Ktex. vm_compute. exact Ktex.
Defined.

Lemma resumen_impreso_witness :
  let w' := snd (@crear_proyecto latin1_data plantillas_ejemplo
                   (py "Ética en IA") (py "ens") (py "María López")
                   [py "home"; py "ana"] mundo_ejemplo) in
  length (stdout w') = (5 + 2 + 21)%nat.
Proof.
  intros w'.
  destruct (resumen_impreso latin1_data plantillas_ejemplo
              (py "Ética en IA") (py "ens") (py "María López")
              [py "home"; py "ana"] mundo_ejemplo w')
    as (info & Ht & S & _).
  - subst w'. rewrite (surjective_pairing (crear_proyecto _ _ _ _ _ _)) at 1.
    f_equal; vm_compute; reflexivity.
  - vm_compute in Ht. injection Ht as <-.
    rewrite S. vm_compute. reflexivity.
Defined.

Lemma makefile_anunciado_witness :
  let w' := snd (@crear_proyecto latin1_data [py "home"] (py "Mi artículo")
                   (py "art") (py "Juan Pérez") [py "home"; py "ana"]
                   mundo_ejemplo) in
  kind_at (fs w')
    ([py "home"; py "ana"] </> @slugify latin1_data (py "Mi artículo")
     </> py "Makefile") = Absent
  /\ In (py "    Makefile           ← Compilación") (stdout w')
  /\ In (py "    make               # Compilación completa") (stdout w').
Proof.
  intros w'.
  apply (makefile_anunciado latin1_data [py "home"] (py "Mi artículo")
           (py "art") (py "Juan Pérez") [py "home"; py "ana"] mundo_ejemplo
           w').
  - subst w'. rewrite (surjective_pairing (crear_proyecto _ _ _ _ _ _)) at 1.
    f_equal; vm_compute; reflexivity.
  - vm_compute. reflexivity.
Defined.

(** X14. A title without word characters has the empty slug, so the directory
    of the project is the base directory itself. A run on such a title that
    has returned found no base directory: it has made it, and the project is
    in it, with the hidden file [.tex] as its document, which the summary
    lists under this name. *)
Theorem slug_vacio_base_nueva (U : UnicodeData) (L : UnicodeLaws U)
    (TEMPLATES_DIR : list (list N)) (nombre tipo autor : list N)
    (base : list (list N)) (w w' : world) :
  (forall c, In c nombre -> re_word c = false) ->
  crear_proyecto TEMPLATES_DIR nombre tipo autor base w = (Ret tt, w') ->
  exists info mes,
    assoc tipo TIPOS = Some info
    /\ assoc (month (clock w)) meses_es = Some mes
    /\ slugify nombre = []
    /\ kind_at (fs w) base = Absent
    /\ kind_at (fs w') base = IsDir
    /\ kind_at (fs w') (base ++ [py "figuras"]) = IsDir
    /\ kind_at (fs w') (base ++ [py ".tex"])
       = match kind_at (fs w) (TEMPLATES_DIR </> plantilla info) with
         | IsFile c =>
           IsFile (sustituir_placeholders (universal_newlines c)
                     [ (py "TITULO", nombre); (py "AUTOR", autor);
                       (py "FECHA", formato_fecha (clock w) mes);
                       (py "NOMBRE_ARCHIVO", []) ])
         | _ => IsFile (tex_minimo info nombre autor
                          (formato_fecha (clock w) mes))
         end
    /\ In (py "    .tex         ← Documento principal") (stdout w').
Proof.
  intros Hn E. pose proof (slugify_no_word nombre Hn) as Es.
  destruct (crear_proyecto_ret_inv TEMPLATES_DIR _ _ _ _ _ _ E)
    as (info & mes & Ht & Em & Hne & Hs & Hfree & Ew).
  rewrite Es in Hfree, Ew.
  change (base </> []) with base in Hfree, Ew.
  destruct (escribir_ret TEMPLATES_DIR _ _ _ _ _ _
              (printed w (avisos TEMPLATES_DIR (fs w))) _ Hne Hs Hfree Ew)
    as (_ & S & _ & Hway & Kfig & _ & Ktex & _).
  exists info, mes.
  split; [exact Ht|]. split; [exact Em|]. split; [exact Es|].
  split; [exact Hfree|]. split; [apply Hway; reflexivity|].
  split; [exact Kfig|]. split; [exact Ktex|].
  rewrite S. apply in_or_app. right. apply in_or_app. right.
  unfold resumen. do 9 right. left. vm_compute. reflexivity.
Qed.

Lemma slug_vacio_base_nueva_witness :
  let w' := snd (@crear_proyecto latin1_data plantillas_ejemplo
                   (py "¡¿ ... ?!") (py "art") (py "Juan Pérez")
                   [py "home"; py "ana"; py "nuevo"] mundo_ejemplo) in
  kind_at (fs mundo_ejemplo) [py "home"; py "ana"; py "nuevo"] = Absent
  /\ kind_at (fs w') [py "home"; py "ana"; py "nuevo"] = IsDir
  /\ kind_at (fs w') [py "home"; py "ana"; py "nuevo"; py ".tex"]
     = IsFile (py "\title{¡¿ ... ?!} \author{Juan Pérez} \date{4 de noviembre de 2026}").
Proof.
  intros w'.
  destruct (slug_vacio_base_nueva latin1_data latin1_laws plantillas_ejemplo
              (py "¡¿ ... ?!") (py "art") (py "Juan Pérez")
              [py "home"; py "ana"; py "nuevo"] mundo_ejemplo w')
    as (info & mes & Ht & Em & _ & Ka & Kb & _ & Ktex & _).
  - apply List.Forall_forall. vm_compute. repeat constructor.
  - subst w'. rewrite (surjective_pairing (crear_proyecto _ _ _ _ _ _)) at 1.
    f_equal; vm_compute; reflexivity.
  - split; [exact Ka|]. split; [exact Kb|].
    vm_compute in Ht. injection Ht as <-.
    vm_compute in Em. injection Em as <-.
    vm_compute in Ktex. vm_compute. exact Ktex.
Defined.

(** X8. A type that is none of [art], [ens] and [pres] (letter case counts)
    stops the run before the store is looked at and before anything is
    written: two lines are printed, which name the type and list the three
    types, and the run leaves through [sys.exit(1)]. *)
Theorem tipo_no_reconocido (U : UnicodeData) (TEMPLATES_DIR : list (list N))
    (nombre tipo autor : list N) (base : list (list N)) (w : world) :
  tipo <> py "art" -> tipo <> py "ens" -> tipo <> py "pres" ->
  crear_proyecto TEMPLATES_DIR nombre tipo autor base w
  = (Exit 1,
     {| fs := fs w;
        stdout := stdout w
                  ++ [ py "Error: Tipo '" ++ tipo ++ py "' no reconocido.";
                       py "Tipos disponibles: art, ens, pres" ];
        clock := clock w |}).
Proof.
  intros H1 H2 H3.
  assert (assoc tipo TIPOS = None) as Ht.
  { unfold TIPOS. cbn [assoc].
    repeat (destruct (decide _) as [K|_]; [congruence|]). reflexivity. }
  assert (py "Tipos disponibles: " ++ str_join (py ", ") (List.map fst TIPOS)
          = py "Tipos disponibles: art, ens, pres") as Ej
    by (vm_compute; reflexivity).
  rewrite (crear_tipo_desconocido TEMPLATES_DIR _ _ _ _ _ Ht).
  unfold printed, error_tipo. now rewrite Ej.
Qed.

Lemma tipo_no_reconocido_witness :
  @crear_proyecto latin1_data [py "sin-plantillas"] (py "Mi tesis") (py "ART")
    (py "Ana") [py "home"; py "ana"] mundo_ejemplo
  = (Exit 1,
     {| fs := fs mundo_ejemplo;
        stdout := stdout mundo_ejemplo
                  ++ [ py "Error: Tipo '" ++ py "ART" ++ py "' no reconocido.";
                       py "Tipos disponibles: art, ens, pres" ];
        clock := clock mundo_ejemplo |}).
Proof.
  apply (tipo_no_reconocido latin1_data [py "sin-plantillas"] (py "Mi tesis")
           (py "ART") (py "Ana") [py "home"; py "ana"] mundo_ejemplo);
    vm_compute; discriminate.
Defined.

(** X15. When the template of the type, in the store, is a directory, the run
    raises [IsADirectoryError] after the directory of the project and its
    [figuras] have been made: they stay behind, with nothing else in the
    project, and the same call then stops on the existing directory. *)
Theorem plantilla_directorio (U : UnicodeData) (TEMPLATES_DIR : list (list N))
    (nombre tipo autor : list N) (base : list (list N)) (w : world)
    (info : tipo_info) :
  assoc tipo TIPOS = Some info ->
  1 <= month (clock w) <= 12 ->
  kind_at (fs w) (base </> slugify nombre) = Absent ->
  (forall q c, q `prefix_of` (base </> slugify nombre) ->
               kind_at (fs w) q <> IsFile c) ->
  kind_at (fs w) (TEMPLATES_DIR </> plantilla info) = IsDir ->
  let dir := base </> slugify nombre in
  exists w',
    crear_proyecto TEMPLATES_DIR nombre tipo autor base w
    = (Raise IsADirectoryError, w')
    /\ kind_at (fs w') dir = IsDir
    /\ kind_at (fs w') (dir </> py "figuras") = IsDir
    /\ (forall y, y <> py "figuras" -> kind_at (fs w') (dir ++ [y]) = Absent)
    /\ fst (crear_proyecto TEMPLATES_DIR nombre tipo autor base w') = Exit 1.
Proof.
  intros Ht Hm Hfree Hway Hdir dir. destruct (mes_valido _ Hm) as (mes & Em).
  pose proof (tipos_plantilla _ _ Ht) as Hdot.
  assert (plantilla info <> []) as Hne by (intros E; now rewrite E in Hdot).
  rewrite (path_join_snoc _ (plantilla info) Hne) in Hdir.
  assert (exists_in (fs w) TEMPLATES_DIR = true) as Hs.
  { apply exists_present.
    rewrite (above_is_dir _ TEMPLATES_DIR [plantilla info]);
      [discriminate|discriminate|]. rewrite Hdir. discriminate. }
  rewrite crear_proyecto_cases, Ht, Hs, Em, (exists_absent _ _ Hfree).
  fold dir in Hfree, Hway |- *.
  set (w1 := printed w (avisos TEMPLATES_DIR (fs w))).
  destruct (mkdir_parents w1 dir Hfree Hway)
    as (w2 & E2 & C2 & _ & D2 & N2 & F2).
  assert (kind_at (fs w2) dir = IsDir) as D2' by (apply D2; reflexivity).
  destruct (mkdir_under false w2 dir (py "figuras") D2' (N2 _ []))
    as (w3 & E3 & C3 & K3 & _ & F3).
  assert (kind_at (fs w3) (TEMPLATES_DIR ++ [plantilla info]) = IsDir) as K.
  { rewrite F3, F2.
    - exact Hdir.
    - intros (k & E). change (fs w1) with (fs w) in Hfree.
      rewrite E, (below_absent _ _ k Hfree) in Hdir. discriminate Hdir.
    - change (fs w1) with (fs w). intros Ha. rewrite Ha in Hdir.
      discriminate Hdir.
    - intros (k & E). rewrite <- app_assoc in E.
      change (fs w1) with (fs w) in Hfree.
      rewrite E, (below_absent _ _ _ Hfree) in Hdir. discriminate Hdir. }
  assert (kind_at (fs w3) dir = IsDir) as D3 by (rewrite F3 by outside; exact D2').
  exists w3. split.
  { unfold escribir_proyecto. cbv zeta.
    rewrite (path_join_snoc _ (plantilla info) Hne).
    rewrite !(path_join_snoc _ (py "figuras")) by (vm_compute; discriminate).
    rewrite (bind_Ret _ _ _ _ _ E2), (bind_Ret _ _ _ _ _ E3).
    apply bind_Raise. apply etapa_dir. exact K. }
  split; [exact D3|].
  split.
  { rewrite (path_join_snoc _ (py "figuras")) by (vm_compute; discriminate).
    exact K3. }
  split.
  { intros y Hy. rewrite F3 by (apply not_prefix_sibling; congruence).
    apply N2. }
  assert (exists_in (fs w3) TEMPLATES_DIR = true) as Hs3.
  { apply exists_present.
    rewrite (above_is_dir _ TEMPLATES_DIR [plantilla info]);
      [discriminate|discriminate|]. rewrite K. discriminate. }
  assert (exists_in (fs w3) dir = true) as Hd3
    by (apply exists_present; rewrite D3; discriminate).
  rewrite crear_proyecto_cases, Ht, Hs3, C3, C2. cbn [w1 printed clock].
  rewrite Em. fold dir. rewrite Hd3. reflexivity.
Qed.

Lemma plantilla_directorio_witness :
  exists w',
    @crear_proyecto latin1_data [py "home"] (py "Mi artículo") (py "art")
      (py "Ana") [py "home"; py "ana"]
      {| fs := Dir (<[py "home" :=
                        Dir (<[py "articulo.tex" := Dir ∅]>
                             (<[py "ana" := Dir ∅]> ∅))]> ∅);
         stdout := [];
         clock := {| year := 2026; month := 11; day := 4 |} |}
    = (Raise IsADirectoryError, w')
    /\ kind_at (fs w') [py "home"; py "ana"; py "mi-articulo"] = IsDir.
Proof.
  destruct (plantilla_directorio latin1_data [py "home"] (py "Mi artículo")
              (py "art") (py "Ana") [py "home"; py "ana"]
              {| fs := Dir (<[py "home" :=
                                Dir (<[py "articulo.tex" := Dir ∅]>
                                     (<[py "ana" := Dir ∅]> ∅))]> ∅);
                 stdout := [];
                 clock := {| year := 2026; month := 11; day := 4 |} |}
              {| plantilla := py "articulo.tex";
                 descripcion := py "Artículo (article)";
                 clase := py "article" |})
    as (w' & E & D & _).
  - vm_compute. reflexivity.
  - cbn [clock month]. lia.
  - vm_compute. reflexivity.
  - apply camino_check. vm_compute. reflexivity.
  - vm_compute. reflexivity.
  - exists w'. split; [exact E|]. vm_compute in D. vm_compute. exact D.
Defined.

(** X16. When a file stands on the way to the directory of the project (the base
    directory is a file, or lies under one), the run raises
    [NotADirectoryError] after the warnings of the store, and the file
    system is the one it found. *)
Theorem archivo_en_el_camino (U : UnicodeData) (TEMPLATES_DIR : list (list N))
    (nombre tipo autor : list N) (base : list (list N)) (w : world)
    (info : tipo_info) (p r : list (list N)) (c : list N) :
  assoc tipo TIPOS = Some info ->
  1 <= month (clock w) <= 12 ->
  exists_in (fs w) TEMPLATES_DIR = true ->
  kind_at (fs w) p = IsFile c ->
  r <> [] ->
  base </> slugify nombre = p ++ r ->
  crear_proyecto TEMPLATES_DIR nombre tipo autor base w
  = (Raise NotADirectoryError,
     {| fs := fs w; stdout := stdout w ++ avisos TEMPLATES_DIR (fs w);
        clock := clock w |}).
Proof.
  intros Ht Hm Hs Hp Hr Ed. destruct (mes_valido _ Hm) as (mes & Em).
  assert (exists_in (fs w) (p ++ r) = false) as Hd.
  { unfold exists_in. rewrite lookup_app. apply kind_file in Hp. rewrite Hp.
    destruct r; [congruence|reflexivity]. }
  rewrite crear_proyecto_cases, Ht, Hs, Em, Ed, Hd.
  unfold escribir_proyecto. cbv zeta. apply bind_Raise.
  unfold path_mkdir. cbn [printed fs].
  now rewrite Hd, (make_dirs_blocked _ _ _ _ Hp Hr).
Qed.

Lemma archivo_en_el_camino_witness :
  @crear_proyecto latin1_data plantillas_ejemplo (py "Mi artículo") (py "art")
    (py "Ana") [py "plantillas"; py "Makefile"; py "docs"] mundo_ejemplo
  = (Raise NotADirectoryError,
     {| fs := fs mundo_ejemplo;
        stdout := stdout mundo_ejemplo
                  ++ avisos plantillas_ejemplo (fs mundo_ejemplo);
        clock := clock mundo_ejemplo |}).
Proof.
  apply (archivo_en_el_camino latin1_data plantillas_ejemplo
           (py "Mi artículo") (py "art") (py "Ana")
           [py "plantillas"; py "Makefile"; py "docs"] mundo_ejemplo
           {| plantilla := py "articulo.tex";
              descripcion := py "Artículo (article)";
              clase := py "article" |}
           [py "plantillas"; py "Makefile"] [py "docs"; py "mi-articulo"]
           (py "DOC = {{NOMBRE_ARCHIVO}}")).
  - vm_compute. reflexivity.
  - cbn [mundo_ejemplo clock month]. lia.
  - vm_compute. reflexivity.
  - vm_compute. reflexivity.
  - discriminate.
  - vm_compute. reflexivity.
Defined.

(** X17. After a run that returned, a run in the same base directory on a title
    with the same slug stops on the existing directory, whatever its title,
    its type and its author are. *)
Theorem mismo_slug (U : UnicodeData) (TEMPLATES_DIR : list (list N))
    (nombre tipo autor nombre' tipo' autor' : list N) (base : list (list N))
    (w w1 : world) (info : tipo_info) :
  crear_proyecto TEMPLATES_DIR nombre tipo autor base w = (Ret tt, w1) ->
  slugify nombre' = slugify nombre ->
  assoc tipo' TIPOS = Some info ->
  crear_proyecto TEMPLATES_DIR nombre' tipo' autor' base w1
  = (Exit 1,
     {| fs := fs w1;
        stdout := stdout w1 ++ avisos TEMPLATES_DIR (fs w1)
                  ++ colision (base </> slugify nombre);
        clock := clock w1 |}).
Proof.
  intros E Es Ht.
  destruct (crear_proyecto_ret TEMPLATES_DIR _ _ _ _ _ _ E)
    as (_ & (mes & Em) & _ & _ & Hc & Hd & Hs & _).
  rewrite <- Es.
  apply (crear_colision TEMPLATES_DIR _ _ _ _ _ info mes); auto.
  - now rewrite Hc.
  - apply exists_present. rewrite Es, Hd. discriminate.
Qed.

Lemma mismo_slug_witness :
  let w1 := snd (@crear_proyecto latin1_data plantillas_ejemplo
                   (py "Mi artículo") (py "art") (py "Juan Pérez")
                   [py "home"; py "ana"] mundo_ejemplo) in
  @crear_proyecto latin1_data plantillas_ejemplo
    (py "MI  ARTICULO!") (py "pres") (py "Ana") [py "home"; py "ana"] w1
  = (Exit 1,
     {| fs := fs w1;
        stdout := stdout w1 ++ avisos plantillas_ejemplo (fs w1)
                  ++ colision ([py "home"; py "ana"]
                               </> @slugify latin1_data (py "Mi artículo"));
        clock := clock w1 |}).
Proof.
  intros w1.
  apply (mismo_slug latin1_data plantillas_ejemplo
           (py "Mi artículo") (py "art") (py "Juan Pérez")
           (py "MI  ARTICULO!") (py "pres") (py "Ana")
           [py "home"; py "ana"] mundo_ejemplo w1
           {| plantilla := py "presentacion.tex";
              descripcion := py "Presentación (beamer)";
              clase := py "beamer" |}).
  - subst w1. rewrite (surjective_pairing (crear_proyecto _ _ _ _ _ _)) at 1.
    f_equal; vm_compute; reflexivity.
  - vm_compute. reflexivity.
  - vm_compute. reflexivity.
Defined.

(** ** The copy of a template and the check of the store *)

Lemma access_error_cases (n : node) (p : list (list N)) :
  access_error n p = FileNotFoundError
  \/ access_error n p = NotADirectoryError.
Proof.
  revert n. induction p as [|d p IH]; intros n; [now left|].
  cbn [access_error]. destruct n as [|m]; [now right|].
  destruct (m !! d); [apply IH|now left].
Qed.

Lemma read_raise (p : list (list N)) (e : exn) (w w' : world) :
  read_text p w = (Raise e, w') ->
  w' = w
  /\ e <> UnicodeEncodeError
  /\ (kind_at (fs w) p = IsDir -> e = IsADirectoryError)
  /\ (kind_at (fs w) p = Absent ->
      e = FileNotFoundError \/ e = NotADirectoryError).
Proof.
  unfold read_text, kind_at.
  destruct (node_lookup (fs w) p) as [[c|m]|].
  - destruct (utf8_text c); [discriminate|].
    intros E. apply pair_equal_spec in E as [E <-]. injection E as <-.
    split; [reflexivity|]. split; [discriminate|].
    split; discriminate.
  - intros E. apply pair_equal_spec in E as [E <-]. injection E as <-.
    split; [reflexivity|]. split; [discriminate|].
    split; [reflexivity|discriminate].
  - intros E. apply pair_equal_spec in E as [E <-]. injection E as <-.
    split; [reflexivity|].
    pose proof (access_error_cases (fs w) p) as H.
    split; [destruct H as [-> | ->]; discriminate|].
    split; [discriminate|]. intros _. exact H.
Qed.

Lemma write_raise (p : list (list N)) (contenido : list N) (e : exn)
    (w w' : world) :
  write_text p contenido w = (Raise e, w') ->
  stdout w' = stdout w /\ clock w' = clock w
  /\ (forall q, ~ p `prefix_of` q -> kind_at (fs w') q = kind_at (fs w) q)
  /\ (e <> UnicodeEncodeError -> w' = w)
  /\ (e = UnicodeEncodeError ->
      kind_at (fs w') p = IsFile [] /\ utf8_text contenido = false).
Proof.
  intros E.
  assert ((w' = w /\ e <> UnicodeEncodeError)
          \/ (e = UnicodeEncodeError /\ utf8_text contenido = false
              /\ exists n, node_insert (fs w) p (File []) = Some n
                           /\ w' = with_fs w n)) as [[-> He]|(-> & Hu & n & Ei & ->)].
  { unfold write_text in E.
    pose proof (access_error_cases (fs w) p) as Ha.
    assert (access_error (fs w) p <> UnicodeEncodeError) as Hn
      by (destruct Ha as [-> | ->]; discriminate).
    destruct (node_lookup (fs w) p) as [[c0|m]|];
      [|apply pair_equal_spec in E as [E <-]; injection E as <-;
        left; split; [reflexivity|discriminate]|];
      (destruct (utf8_text contenido);
       [destruct (node_insert (fs w) p (File contenido)) as [n|];
        [discriminate E|];
        apply pair_equal_spec in E as [E <-]; injection E as <-;
        left; split; [reflexivity|exact Hn]
       |destruct (node_insert (fs w) p (File [])) as [n|] eqn:Ei;
        apply pair_equal_spec in E as [E <-]; injection E as <-;
        [right; split; [reflexivity|]; split; [reflexivity|];
         exists n; split; [reflexivity|reflexivity]
        |left; split; [reflexivity|exact Hn]]]). }
  - split; [reflexivity|]. split; [reflexivity|]. split; [reflexivity|].
    split; [reflexivity|]. intros K. destruct (He K).
  - cbn [with_fs fs stdout clock].
    split; [reflexivity|]. split; [reflexivity|].
    split; [now apply (insert_frame _ _ _ _ Ei)|].
    split; [intros K; now destruct K|]. intros _.
    split; [|exact Hu]. apply kind_file. now apply (insert_lookup _ _ _ _ Ei).
Qed.

(** X5. [copiar_plantilla] never leaves through [sys.exit], prints nothing and
    touches nothing outside the destination. When it returns, the origin was
    a file of valid UTF-8, and the destination is a file that holds the text
    read from the origin (every line end as a line feed) after the
    substitution: an existing file is rewritten, also the origin itself when
    it is the destination. When it raises [UnicodeEncodeError] (the text to
    write holds a surrogate), the destination has been created or emptied;
    with any other error the world is the one it found. It raises when the
    origin is a directory, and when the origin is missing the error is
    [FileNotFoundError] or [NotADirectoryError]. *)
Theorem copiar_plantilla_outcome (origen destino : list (list N))
    (variables : list (list N * list N)) (w : world) :
  match copiar_plantilla origen destino variables w with
  | (Ret _, w') =>
    exists c,
      kind_at (fs w) origen = IsFile c
      /\ utf8_text c = true
      /\ utf8_text (sustituir_placeholders (universal_newlines c) variables)
         = true
      /\ kind_at (fs w') destino
         = IsFile (sustituir_placeholders (universal_newlines c) variables)
      /\ (forall q, ~ destino `prefix_of` q ->
                    kind_at (fs w') q = kind_at (fs w) q)
      /\ stdout w' = stdout w /\ clock w' = clock w
  | (Raise e, w') =>
    stdout w' = stdout w /\ clock w' = clock w
    /\ (forall q, ~ destino `prefix_of` q ->
                  kind_at (fs w') q = kind_at (fs w) q)
    /\ (e <> UnicodeEncodeError -> w' = w)
    /\ (e = UnicodeEncodeError ->
        kind_at (fs w') destino = IsFile []
        /\ exists c,
             kind_at (fs w) origen = IsFile c
             /\ utf8_text (sustituir_placeholders (universal_newlines c)
                             variables) = false)
    /\ (kind_at (fs w) origen = IsDir -> e = IsADirectoryError)
    /\ (kind_at (fs w) origen = Absent ->
        e = FileNotFoundError \/ e = NotADirectoryError)
  | (Exit _, _) => False
  end.
Proof.
  destruct (copiar_plantilla origen destino variables w) as [[[]|status|e] w']
    eqn:E.
  - apply copiar_ret in E as (c & K & Hu & He & Hc & Hs & Kd & Hf).
    exists c. auto 10.
  - apply (never_exits_copiar origen destino variables w status).
    rewrite E. reflexivity.
  - unfold copiar_plantilla, bind in E.
    destruct (read_text origen w) as [[leido|s1|e1] w1] eqn:Er.
    + apply read_ret in Er as (-> & c & Kc & Hu & ->).
      apply write_raise in E as (Hs & Hc & Hf & He & Hx).
      split; [exact Hs|]. split; [exact Hc|]. split; [exact Hf|].
      split; [exact He|]. split.
      { intros K. destruct (Hx K) as [K1 K2]. split; [exact K1|].
        exists c. split; [exact Kc|exact K2]. }
      split; intros K; rewrite Kc in K; discriminate K.
    + discriminate E.
    + apply pair_equal_spec in E as [E <-]. injection E as <-.
      apply read_raise in Er as (-> & Hn & Hd & Ha).
      split; [reflexivity|]. split; [reflexivity|]. split; [reflexivity|].
      split; [reflexivity|]. split; [intros K; destruct (Hn K)|].
      split; [exact Hd|exact Ha].
Qed.

(** X7. A store path that is a regular file passes the check of the store:
    [verificar_plantillas] returns after warning that each of the five files
    is missing, and touches nothing. *)
Theorem almacen_archivo (TEMPLATES_DIR : list (list N)) (w : world)
    (c : list N) :
  kind_at (fs w) TEMPLATES_DIR = IsFile c ->
  verificar_plantillas TEMPLATES_DIR w
  = (Ret tt,
     {| fs := fs w;
        stdout := stdout w
                  ++ [py "Advertencia: Faltan plantillas en "
                      ++ str_of_path TEMPLATES_DIR ++ py ":"]
                  ++ [ py "  - articulo.tex"; py "  - ensayo.tex";
                       py "  - presentacion.tex"; py "  - referencias.bib";
                       py "  - Makefile" ]
                  ++ [[]];
        clock := clock w |}).
Proof.
  intros H.
  assert (forall a, a <> [] ->
                    exists_in (fs w) (TEMPLATES_DIR </> a) = false) as Hx.
  { intros a Ha. rewrite (path_join_snoc _ _ Ha). unfold exists_in.
    rewrite lookup_app. apply kind_file in H. now rewrite H. }
  rewrite verificar_present by (apply exists_present; rewrite H; discriminate).
  unfold printed. do 2 f_equal. unfold avisos, faltantes_en, archivos_necesarios.
  cbn [List.filter]. rewrite !Hx by (vm_compute; discriminate).
  cbn [negb List.map]. do 2 f_equal.
Qed.

Lemma almacen_archivo_witness :
  verificar_plantillas [py "plantillas"; py "Makefile"] mundo_ejemplo
  = (Ret tt,
     {| fs := fs mundo_ejemplo;
        stdout := stdout mundo_ejemplo
                  ++ [py "Advertencia: Faltan plantillas en "
                      ++ str_of_path [py "plantillas"; py "Makefile"]
                      ++ py ":"]
                  ++ [ py "  - articulo.tex"; py "  - ensayo.tex";
                       py "  - presentacion.tex"; py "  - referencias.bib";
                       py "  - Makefile" ]
                  ++ [[]];
        clock := clock mundo_ejemplo |}).
Proof.
  apply (almacen_archivo [py "plantillas"; py "Makefile"] mundo_ejemplo
           (py "DOC = {{NOMBRE_ARCHIVO}}")).
  vm_compute. reflexivity.
Defined.

(** X6. [verificar_plantillas] returns without a word exactly when the store is
    there with its five files. *)
Theorem verificacion_silenciosa (TEMPLATES_DIR : list (list N)) (w : world) :
  verificar_plantillas TEMPLATES_DIR w = (Ret tt, w)
  <-> exists_in (fs w) TEMPLATES_DIR = true
      /\ forall a, In a archivos_necesarios ->
                   exists_in (fs w) (TEMPLATES_DIR </> a) = true.
Proof.
  split.
  - destruct (exists_in (fs w) TEMPLATES_DIR) eqn:Hs;
      [|rewrite (verificar_missing _ _ Hs); discriminate].
    rewrite (verificar_present _ _ Hs). intros E.
    apply pair_equal_spec in E as [_ E]. apply (f_equal stdout) in E.
    cbn [printed stdout] in E.
    rewrite <- (app_nil_r (stdout w)) in E at 2. apply app_inv_head in E.
    split; [reflexivity|]. intros a Ha.
    destruct (exists_in (fs w) (TEMPLATES_DIR </> a)) eqn:Ea; [reflexivity|].
    destruct (avisos_falta TEMPLATES_DIR (fs w) a Ha Ea) as (rest & K & _).
    rewrite K in E. discriminate E.
  - intros [Hs Ha]. rewrite (verificar_present _ _ Hs).
    assert (faltantes_en TEMPLATES_DIR (fs w) = []) as E.
    { unfold faltantes_en.
      induction archivos_necesarios as [|a l IH]; [reflexivity|].
      cbn [List.filter]. rewrite (Ha a) by now left. cbn [negb].
      apply IH. intros b Hb. apply Ha. now right. }
    unfold avisos. rewrite E. apply f_equal, printed_nil.
Qed.

(** ** Templates whose braces are in order *)

Lemma sin_par_tail (c : N) (t : list N) :
  contains [open_brace; open_brace] (c :: t) = false ->
  contains [open_brace; open_brace] t = false.
Proof. cbn [contains]. intros H. now apply orb_false_elim in H as [_ H]. Qed.

(** No pair of opening braces begins in a text that holds none and does not
    end with an opening brace, whatever follows the text. *)
Lemma sin_par_before (c rest : list N) :
  contains [open_brace; open_brace] c = false ->
  last c <> Some open_brace ->
  c <> [] ->
  starts_with [open_brace; open_brace] (c ++ rest) = false.
Proof.
  intros Hc Hl Hn. destruct c as [|x [|y c]]; [congruence| |].
  - cbn [app starts_with]. apply andb_false_intro1. apply N.eqb_neq.
    intros ->. now apply Hl.
  - cbn [contains] in Hc. apply orb_false_elim in Hc as [Hc _].
    cbn [starts_with] in Hc. cbn [app starts_with].
    now rewrite andb_true_r in *.
Qed.

Lemma starts_wrap_pair (k s : list N) :
  starts_with [open_brace; open_brace] s = false ->
  starts_with (wrap k) s = false.
Proof.
  unfold wrap. destruct s as [|x [|y s]]; cbn [app starts_with];
    rewrite ?andb_true_r, ?andb_false_r; try reflexivity.
  intros H. destruct (x =? open_brace); [|reflexivity].
  cbn [andb] in *. now rewrite H.
Qed.

Lemma last_cons_cons {A} (x y : A) (l : list A) :
  last (x :: y :: l) = last (y :: l).
Proof. reflexivity. Qed.

Lemma replace_inert (k new c rest : list N) :
  contains [open_brace; open_brace] c = false ->
  last c <> Some open_brace ->
  replace_from (wrap k) new 0 (c ++ rest)
  = c ++ replace_from (wrap k) new 0 rest.
Proof.
  induction c as [|x c IH]; intros Hc Hl; [reflexivity|].
  cbn [app replace_from].
  change (x :: c ++ rest) with ((x :: c) ++ rest).
  rewrite (starts_wrap_pair k _ (sin_par_before (x :: c) rest Hc Hl
                                   ltac:(discriminate))).
  f_equal. apply IH; [now apply sin_par_tail in Hc|].
  destruct c as [|y c]; [discriminate|]. now rewrite last_cons_cons in Hl.
Qed.

Lemma str_replace_wrap (s k v : list N) :
  str_replace s (wrap k) v = replace_from (wrap k) v 0 s.
Proof. reflexivity. Qed.

Lemma sustituir_inert (variables : list (list N * list N)) (c rest : list N) :
  contains [open_brace; open_brace] c = false ->
  last c <> Some open_brace ->
  sustituir_placeholders (c ++ rest) variables
  = c ++ sustituir_placeholders rest variables.
Proof.
  intros Hc Hl. revert rest. unfold sustituir_placeholders.
  induction variables as [|[k v] vars IH]; intros rest; [reflexivity|].
  cbn [fold_left]. rewrite !str_replace_wrap.
  rewrite (replace_inert k v c rest Hc Hl). apply IH.
Qed.

Lemma sin_par_absent (k t : list N) :
  contains [open_brace; open_brace] t = false -> contains (wrap k) t = false.
Proof.
  induction t as [|x t IH]; cbn [contains]; intros H;
    apply orb_false_elim in H as [H1 H2].
  - now rewrite (starts_wrap_pair k _ H1).
  - now rewrite (starts_wrap_pair k _ H1), IH.
Qed.

Lemma sustituir_sin_par (variables : list (list N * list N)) (t : list N) :
  contains [open_brace; open_brace] t = false ->
  sustituir_placeholders t variables = t.
Proof.
  intros H. unfold sustituir_placeholders.
  induction variables as [|[k v] vars IH]; [reflexivity|].
  cbn [fold_left]. now rewrite (replace_absent _ _ _ (sin_par_absent k t H)).
Qed.

Lemma sin_par_app (t v : list N) :
  contains [open_brace; open_brace] t = false -> ~ In open_brace v ->
  contains [open_brace; open_brace] (t ++ v) = false.
Proof.
  intros Ht Hv.
  assert (forall s, starts_with [open_brace; open_brace] (v ++ s) = false
                    \/ v = []) as Hh.
  { intros s. destruct v as [|x v]; [now right|left].
    cbn [app starts_with]. apply andb_false_intro1. apply N.eqb_neq.
    intros ->. apply Hv. now left. }
  induction t as [|x t IH].
  - cbn [app]. clear Hh. induction v as [|y v IHv]; [reflexivity|].
    cbn [contains]. apply orb_false_intro.
    + cbn [starts_with]. apply andb_false_intro1. apply N.eqb_neq.
      intros ->. apply Hv. now left.
    + apply IHv. intros K. apply Hv. now right.
  - pose proof (sin_par_tail _ _ Ht) as Ht'. cbn [app contains].
    rewrite (IH Ht'), orb_false_r.
    cbn [contains] in Ht. apply orb_false_elim in Ht as [Hs _].
    destruct t as [|y t].
    + cbn [app]. destruct v as [|z v]; [apply andb_false_r|].
      cbn [starts_with]. rewrite andb_true_r.
      apply andb_false_intro2. apply N.eqb_neq. intros ->. apply Hv. now left.
    + cbn [starts_with] in Hs. cbn [app starts_with].
      now rewrite andb_true_r in *.
Qed.

Lemma last_app_in {A} (t v : list A) (x : A) :
  v <> [] -> last (t ++ v) = Some x -> In x v.
Proof.
  intros Hv. destruct v as [|y v _] using rev_ind; [congruence|].
  rewrite app_assoc, last_snoc. intros [= ->]. apply in_or_app. right.
  now left.
Qed.

(** A placeholder after a text without pair of opening braces: the text
    stays, the placeholder becomes its value or stays, and the substitution
    goes on in what follows. *)
Lemma sustituir_tramo (variables : list (list N * list N))
    (t k rest : list N) :
  (forall clave valor, In (clave, valor) variables ->
     brace_free clave = true /\ valor <> [] /\ ~ In open_brace valor) ->
  contains [open_brace; open_brace] t = false ->
  brace_free k = true ->
  sustituir_placeholders (t ++ wrap k ++ rest) variables
  = t ++ valor_de variables k ++ sustituir_placeholders rest variables.
Proof.
  intros Hv Ht Hk. revert rest.
  induction variables as [|[k' v'] vars IH]; intros rest; [reflexivity|].
  destruct (Hv k' v' (or_introl eq_refl)) as (Hk' & Hne & Hno).
  assert (forall clave valor, In (clave, valor) vars ->
            brace_free clave = true /\ valor <> [] /\ ~ In open_brace valor)
    as Hv' by (intros a b Hab; apply (Hv a b); now right).
  unfold sustituir_placeholders at 1 2. cbn [fold_left].
  fold (sustituir_placeholders
          (str_replace (t ++ wrap k ++ rest) (wrap k') v') vars).
  fold (sustituir_placeholders (str_replace rest (wrap k') v') vars).
  unfold valor_de. cbn [assoc].
  destruct (decide (k = k')) as [<-|Hd].
  - rewrite (replace_token k v' t rest (brace_free_no_open k Hk)).
    rewrite (replace_absent _ _ _ (sin_par_absent k t Ht)).
    rewrite app_assoc, sustituir_inert; [now rewrite <- app_assoc| |].
    + now apply sin_par_app.
    + intros K. apply Hno. now apply (last_app_in t v').
  - rewrite (replace_around k' k v' t rest Hk' Hk (not_eq_sym Hd)).
    rewrite (replace_absent _ _ _ (sin_par_absent k' t Ht)).
    apply (IH Hv').
Qed.

(** X4. A template is cut at its placeholders: the texts between them hold no
    two opening braces side by side, and the names hold no brace. With keys
    without braces and values that are not empty and hold no opening brace,
    [sustituir_placeholders] replaces every placeholder at once: a
    placeholder whose name is a key becomes the value of the key, a
    placeholder with another name stays, and the texts stay. *)
Theorem sustituir_plantilla (variables tramos : list (list N * list N))
    (final : list N) :
  (forall clave valor, In (clave, valor) variables ->
     brace_free clave = true /\ valor <> [] /\ ~ In open_brace valor) ->
  (forall texto nombre, In (texto, nombre) tramos ->
     sin_apertura texto = true /\ brace_free nombre = true) ->
  sin_apertura final = true ->
  sustituir_placeholders (armar tramos final) variables
  = llenar variables tramos final.
Proof.
  intros Hv Ht Hf. unfold armar, llenar.
  induction tramos as [|[t k] l IH].
  - cbn [flat_map app]. apply sustituir_sin_par.
    now apply negb_true_iff in Hf.
  - destruct (Ht t k (or_introl eq_refl)) as [H1 H2].
    apply negb_true_iff in H1.
    cbn [flat_map]. rewrite <- !app_assoc.
    rewrite (sustituir_tramo variables t k _ Hv H1 H2).
    do 2 f_equal. apply IH. intros a b Hab. apply (Ht a b). now right.
Qed.

Lemma sustituir_plantilla_witness :
  sustituir_placeholders
    (armar [ (py "\title{", py "TITULO"); (py "} \author{", py "AUTOR");
             (py "} % ", py "OTRO") ] (py " {fin}"))
    [ (py "TITULO", py "Mi artículo"); (py "AUTOR", py "Juan Pérez") ]
  = llenar [ (py "TITULO", py "Mi artículo"); (py "AUTOR", py "Juan Pérez") ]
      [ (py "\title{", py "TITULO"); (py "} \author{", py "AUTOR");
        (py "} % ", py "OTRO") ] (py " {fin}").
Proof.
  apply sustituir_plantilla.
  - intros clave valor [[= <- <-]|[[= <- <-]|[]]];
      (split; [vm_compute; reflexivity|]);
      (split; [vm_compute; discriminate|]);
      intros H; vm_compute in H;
      repeat (destruct H as [H|H]; [discriminate H|]); exact H.
  - intros texto nombre [[= <- <-]|[[= <- <-]|[[= <- <-]|[]]]];
      split; vm_compute; reflexivity.
  - vm_compute. reflexivity.
Defined.

(** ** More on slugs *)

(** X1. The accents of the table do not count: a text and the same text without
    these accents have the same slug, and so have two texts that differ only
    by them. *)
Theorem slugify_sin_acentos (U : UnicodeData) :
  (forall s, slugify (List.map unaccent s) = slugify s)
  /\ (forall s t, List.map unaccent s = List.map unaccent t ->
                  slugify s = slugify t).
Proof.
  split.
  - intros s. rewrite !slugify_words, List.map_map. do 2 f_equal.
    apply List.map_ext. intros c. apply unaccent_id, unaccent_plain.
  - intros s t E. now rewrite !slugify_words, E.
Qed.

Section SlugFixed.
Context {U : UnicodeData} {L : UnicodeLaws U}.

Lemma slug_char_facts (c : N) :
  slug_char c = true ->
  c < 128
  /\ is_accented c = false
  /\ ascii_upper c = false
  /\ (ascii_alnum c = true \/ c = hyphen)
  /\ ascii_space c = false
  /\ c <> underscore.
Proof.
  intros H.
  assert (c < 128) as Hc.
  { unfold slug_char, ascii_lower, ascii_digit, hyphen in H.
    apply orb_prop in H as [H|H]; [apply orb_prop in H as [H|H]|].
    - apply andb_prop in H as [_ H]. apply N.leb_le in H. lia.
    - apply andb_prop in H as [_ H]. apply N.leb_le in H. lia.
    - apply N.eqb_eq in H. lia. }
  split; [exact Hc|].
  pose proof (forall_below 128
    (fun c => negb (slug_char c)
              || (negb (is_accented c) && negb (ascii_upper c)
                  && (ascii_alnum c || (c =? hyphen))
                  && negb (ascii_space c) && negb (c =? underscore)))
    eq_refl c Hc) as K.
  cbv beta in K. rewrite H in K. cbn [negb orb] in K.
  apply andb_prop in K as [K K5]. apply andb_prop in K as [K K4].
  apply andb_prop in K as [K K3]. apply andb_prop in K as [K1 K2].
  apply negb_true_iff in K1, K2, K4, K5.
  split; [exact K1|]. split; [exact K2|]. split.
  - apply orb_prop in K3 as [K3|K3]; [now left|right]. now apply N.eqb_eq.
  - split; [exact K4|]. now apply N.eqb_neq.
Qed.

Lemma slug_char_sep (c : N) :
  slug_char c = true -> keep c = true /\ sep c = (c =? hyphen).
Proof.
  intros H. destruct (slug_char_facts c H) as (Hc & _ & _ & Ha & Hs & Hu).
  unfold keep, sep, re_word, re_space.
  rewrite (ascii_alnum_exact c Hc), (ascii_space_exact c Hc), Hs.
  apply N.eqb_neq in Hu. rewrite Hu. split; [|reflexivity].
  destruct Ha as [-> | ->]; [reflexivity|]. now rewrite orb_true_r.
Qed.

(** The words of a text that is already made of words joined by single
    hyphens are joined as they were. *)
Lemma join_words_fixed (s : list N) (p : bool) :
  (forall c, In c s -> sep c = (c =? hyphen)) ->
  hyphens_apart s = true ->
  last s <> Some hyphen ->
  join_words p s
  = (if p && match s with
             | c :: _ => negb (c =? hyphen)
             | [] => false
             end
     then [hyphen] else []) ++ s.
Proof.
  revert p. induction s as [|c s IH]; intros p Hs Ha Hl.
  - now rewrite andb_false_r.
  - cbn [join_words]. rewrite (Hs c (or_introl eq_refl)).
    assert (forall d, In d s -> sep d = (d =? hyphen)) as Hs'
      by (intros d Hd; apply Hs; now right).
    assert (last s <> Some hyphen \/ s = []) as Hl'.
    { destruct s as [|d s]; [now right|left]. exact Hl. }
    destruct (c =? hyphen) eqn:Ec.
    + apply N.eqb_eq in Ec. subst c. rewrite andb_false_r. cbn [app].
      destruct s as [|d s]; [exfalso; now apply Hl|].
      destruct Hl' as [Hl'|]; [|discriminate].
      assert ((d =? hyphen) = false) as Ed.
      { cbn [hyphens_apart] in Ha. rewrite N.eqb_refl in Ha.
        destruct (d =? hyphen); [discriminate Ha|reflexivity]. }
      rewrite (IH true Hs'); [now rewrite Ed| |exact Hl'].
      now rewrite apart_hyphen in Ha by exact Ed.
    + rewrite andb_true_r. rewrite apart_cons in Ha by exact Ec.
      destruct Hl' as [Hl'| ->]; [|now destruct p].
      rewrite (IH false Hs' Ha Hl'). cbn [andb app]. now destruct p.
Qed.

End SlugFixed.

(** X3. A text that has the form of a slug is its own slug: when it is made of
    lowercase ASCII letters, digits and hyphens, with no hyphen at either
    end and no two hyphens side by side, [slugify] returns it unchanged. *)
Theorem slugify_punto_fijo (U : UnicodeData) (L : UnicodeLaws U) (s : list N) :
  forallb slug_char s = true ->
  hyphens_apart s = true ->
  head s <> Some hyphen ->
  last s <> Some hyphen ->
  slugify s = s.
Proof.
  intros Hc Ha Hh Hl. rewrite forallb_forall in Hc.
  rewrite slugify_words.
  assert (List.map unaccent s = s) as ->.
  { transitivity (List.map (fun c => c) s); [|apply List.map_id].
    apply List.map_ext_in. intros c Hin. apply unaccent_id.
    now destruct (slug_char_facts c (Hc c Hin)) as (_ & K & _). }
  assert (str_lower s = s) as ->.
  { apply lower_same. intros c Hin.
    destruct (slug_char_facts c (Hc c Hin)) as (H128 & _ & Hup & _).
    split; [lia|]. now rewrite (ascii_lower_exact c H128), Hup. }
  unfold words_of.
  rewrite filter_all
    by (intros c Hin; exact (proj1 (slug_char_sep c (Hc c Hin)))).
  assert (lstrip_by sep s = s) as ->.
  { destruct s as [|c s]; [reflexivity|]. cbn [lstrip_by].
    destruct (slug_char_sep c (Hc c (or_introl eq_refl))) as [_ ->].
    destruct (N.eqb_spec c hyphen) as [->|_]; [|reflexivity].
    exfalso. now apply Hh. }
  rewrite join_words_fixed; [reflexivity| |exact Ha|exact Hl].
  intros c Hin. exact (proj2 (slug_char_sep c (Hc c Hin))).
Qed.

Lemma slugify_punto_fijo_witness :
  @slugify latin1_data (py "notas-de-clase-2026") = py "notas-de-clase-2026".
Proof.
  apply (slugify_punto_fijo latin1_data latin1_laws).
  - vm_compute. reflexivity.
  - vm_compute. reflexivity.
  - vm_compute. discriminate.
  - vm_compute. discriminate.
Defined.

(** X2. The case of ASCII letters does not count: two ASCII texts that are the
    same once their capital letters are made small have the same slug. *)
Theorem slugify_mayusculas (U : UnicodeData) (L : UnicodeLaws U)
    (s t : list N) :
  (forall c, In c s -> c < 128) ->
  (forall c, In c t -> c < 128) ->
  List.map (fun c => if ascii_upper c then c + 32 else c) s
  = List.map (fun c => if ascii_upper c then c + 32 else c) t ->
  slugify s = slugify t.
Proof.
  intros Hs Ht E.
  assert (forall x, (forall c, In c x -> c < 128) -> List.map unaccent x = x)
    as Hu.
  { intros x Hx. transitivity (List.map (fun c => c) x); [|apply List.map_id].
    apply List.map_ext_in. intros c Hin. apply unaccent_id.
    apply negb_true_iff.
    exact (forall_below 128 (fun c => negb (is_accented c)) eq_refl c
             (Hx c Hin)). }
  rewrite !slugify_words, (Hu s Hs), (Hu t Ht). unfold str_lower.
  now rewrite (lower_ascii_map s [] Hs), (lower_ascii_map t [] Ht), E.
Qed.

Lemma ascii_check (s : list N) :
  forallb (fun c => c <? 128) s = true -> forall c, In c s -> c < 128.
Proof.
  intros H c Hc. rewrite forallb_forall in H. now apply N.ltb_lt, H.
Qed.

Lemma slugify_mayusculas_witness :
  @slugify latin1_data (py "Notas de CLASE") = @slugify latin1_data (py "notas DE clase").
Proof.
  apply (slugify_mayusculas latin1_data latin1_laws).
  - apply ascii_check. vm_compute. reflexivity.
  - apply ascii_check. vm_compute. reflexivity.
  - vm_compute. reflexivity.
Defined.

